(** * The chain message handler of avalanchego (snow/networking/handler)

    A shallow embedding of [handler.go]: the handler that sits between the
    chain router and the consensus engines.  Every method of the Go
    [handler] struct is a computation in a small state monad over [World]:
    the handler's fields, the number of clock readings so far and the
    trace of observable effects (log lines, lock operations, metric
    observations, engine calls, completion callbacks).

    Go's [defer] is written out: the deferred function is run after the
    body and the body's result is returned.

    The file has the data model, the functions of handler.go in the order
    of their dependencies, the handler and its goroutines as a transition
    system, and then the properties: message routing, engine selection,
    decoding failures, missing engines, expired messages, shutdown, the
    lock and the clock, the balance of messages.

    The default validator set of the package [validators]
    (snow/validators), with its properties, is embedded beside the handler:
    its functions pass the package variables along. *)

From Stdlib Require Import List String ZArith Bool Lia Arith Permutation.
From AAC_tactics Require Import AAC.
From AAC_tactics Require Instances.
Import ListNotations.
Import Instances.Lists.

Local Open Scope string_scope.
Local Open Scope list_scope.

(** ** Identifiers, payload bytes and time *)

Definition bytes := list Byte.byte.

(** [ids.NodeID] and [ids.ID] are fixed-size byte arrays; the handler only
    passes them around. *)
Definition NodeID := bytes.
Definition ID := bytes.

(** [time.Time] and [time.Duration], in nanoseconds.  A [Duration] is an
    [int64]. *)
Definition Time := Z.
Definition Duration := Z.

Definition minDuration : Duration := (- 2 ^ 63)%Z.
Definition maxDuration : Duration := (2 ^ 63 - 1)%Z.

Definition Time_After (t u : Time) : bool := (u <? t)%Z.

(** [t.Sub(u)]: "If the result exceeds the maximum (or minimum) value that
    can be stored in a Duration, the maximum (or minimum) duration will be
    returned." *)
Definition Time_Sub (t u : Time) : Duration :=
  if (maxDuration <? t - u)%Z then maxDuration
  else if (t - u <? minDuration)%Z then minDuration
  else (t - u)%Z.

(** [syncProcessingTimeWarnLimit = 30 * time.Second] *)
Definition syncProcessingTimeWarnLimit : Duration := (30 * 1000000000)%Z.

(** [numDispatchersToClose = 3] *)
Definition numDispatchersToClose : Z := 3%Z.

(** ** Engine types and lifecycle states *)

(** [p2p.EngineType] is a protobuf enumeration: a peer may send a number
    that is none of the three named values. *)
Inductive EngineType : Type :=
| ENGINE_TYPE_UNSPECIFIED
| ENGINE_TYPE_AVALANCHE
| ENGINE_TYPE_SNOWMAN
| ENGINE_TYPE_unrecognized (n : Z).

Definition EngineType_eqb (a b : EngineType) : bool :=
  match a, b with
  | ENGINE_TYPE_UNSPECIFIED, ENGINE_TYPE_UNSPECIFIED => true
  | ENGINE_TYPE_AVALANCHE, ENGINE_TYPE_AVALANCHE => true
  | ENGINE_TYPE_SNOWMAN, ENGINE_TYPE_SNOWMAN => true
  | ENGINE_TYPE_unrecognized n, ENGINE_TYPE_unrecognized m => (n =? m)%Z
  | _, _ => false
  end.

Definition EngineType_String (t : EngineType) : string :=
  match t with
  | ENGINE_TYPE_UNSPECIFIED => "ENGINE_TYPE_UNSPECIFIED"
  | ENGINE_TYPE_AVALANCHE => "ENGINE_TYPE_AVALANCHE"
  | ENGINE_TYPE_SNOWMAN => "ENGINE_TYPE_SNOWMAN"
  | ENGINE_TYPE_unrecognized _ => "ENGINE_TYPE_?"
  end.

(** [snow.State] *)
Inductive State : Type :=
| StateSyncing
| Bootstrapping
| NormalOp.

Definition State_eqb (a b : State) : bool :=
  match a, b with
  | StateSyncing, StateSyncing => true
  | Bootstrapping, Bootstrapping => true
  | NormalOp, NormalOp => true
  | _, _ => false
  end.

Definition State_String (s : State) : string :=
  match s with
  | StateSyncing => "State syncing state"
  | Bootstrapping => "Bootstrapping state"
  | NormalOp => "Normal operations state"
  end.

(** [snow.EngineState]: what [h.ctx.State.Get()] returns. *)
Record EngineState : Type := mkEngineState {
  es_Type : EngineType;
  es_State : State
}.

(** ** Errors *)

(** A Go [error] value: built by [errors.New], or by [fmt.Errorf] with or
    without a wrapped error ([%w]).  Of the other arguments of the format,
    the operation kinds, engine types and states are kept, rendered.  A
    nil error is [None] of [option error]. *)
Inductive error : Type :=
| errors_New (text : string)
| fmt_Errorf (format : string) (args : list string)
| fmt_Errorf_w (format : string) (wrapped : error) (args : list string).

Definition errMissingEngine : error := errors_New "missing engine".
Definition errNoStartingGear : error := errors_New "failed to select starting gear".

Fixpoint strings_eqb (xs ys : list string) : bool :=
  match xs, ys with
  | [], [] => true
  | x :: xs', y :: ys' => String.eqb x y && strings_eqb xs' ys'
  | _, _ => false
  end.

Fixpoint error_eqb (a b : error) : bool :=
  match a, b with
  | errors_New s, errors_New t => String.eqb s t
  | fmt_Errorf f xs, fmt_Errorf g ys =>
      String.eqb f g && strings_eqb xs ys
  | fmt_Errorf_w f e xs, fmt_Errorf_w g e' ys =>
      String.eqb f g && error_eqb e e' && strings_eqb xs ys
  | _, _ => false
  end.

(** [errors.Is]: follows the chain of wrapped errors. *)
Fixpoint errors_Is (e target : error) : bool :=
  error_eqb e target
  || match e with
     | fmt_Errorf_w _ w _ => errors_Is w target
     | _ => false
     end.

(** ** Messages *)

(** [message.Op]: the operation kinds.  The first block is the handshake
    traffic that never reaches a chain; the last block is the internal
    traffic built by the router and by the handler itself.  [Op] is a
    byte: [Op_unrecognized] stands for the values that have no name. *)
Inductive Op : Type :=
| PingOp | PongOp | VersionOp | PeerListOp | PeerListAckOp
| GetStateSummaryFrontierOp | GetStateSummaryFrontierFailedOp | StateSummaryFrontierOp
| GetAcceptedStateSummaryOp | GetAcceptedStateSummaryFailedOp | AcceptedStateSummaryOp
| GetAcceptedFrontierOp | GetAcceptedFrontierFailedOp | AcceptedFrontierOp
| GetAcceptedOp | GetAcceptedFailedOp | AcceptedOp
| GetAncestorsOp | GetAncestorsFailedOp | AncestorsOp
| GetOp | GetFailedOp | PutOp
| PushQueryOp | PullQueryOp | QueryFailedOp | ChitsOp
| AppRequestOp | AppRequestFailedOp | AppResponseOp | AppGossipOp
| CrossChainAppRequestOp | CrossChainAppRequestFailedOp | CrossChainAppResponseOp
| ConnectedOp | ConnectedSubnetOp | DisconnectedOp
| NotifyOp | GossipRequestOp | TimeoutOp
| Op_unrecognized (b : Z).

Definition Op_String (o : Op) : string :=
  match o with
  | PingOp => "ping" | PongOp => "pong" | VersionOp => "version"
  | PeerListOp => "peerlist" | PeerListAckOp => "peerlist_ack"
  | GetStateSummaryFrontierOp => "get_state_summary_frontier"
  | GetStateSummaryFrontierFailedOp => "get_state_summary_frontier_failed"
  | StateSummaryFrontierOp => "state_summary_frontier"
  | GetAcceptedStateSummaryOp => "get_accepted_state_summary"
  | GetAcceptedStateSummaryFailedOp => "get_accepted_state_summary_failed"
  | AcceptedStateSummaryOp => "accepted_state_summary"
  | GetAcceptedFrontierOp => "get_accepted_frontier"
  | GetAcceptedFrontierFailedOp => "get_accepted_frontier_failed"
  | AcceptedFrontierOp => "accepted_frontier"
  | GetAcceptedOp => "get_accepted"
  | GetAcceptedFailedOp => "get_accepted_failed"
  | AcceptedOp => "accepted"
  | GetAncestorsOp => "get_ancestors"
  | GetAncestorsFailedOp => "get_ancestors_failed"
  | AncestorsOp => "ancestors"
  | GetOp => "get" | GetFailedOp => "get_failed" | PutOp => "put"
  | PushQueryOp => "push_query" | PullQueryOp => "pull_query"
  | QueryFailedOp => "query_failed" | ChitsOp => "chits"
  | AppRequestOp => "app_request"
  | AppRequestFailedOp => "app_request_failed"
  | AppResponseOp => "app_response"
  | AppGossipOp => "app_gossip"
  | CrossChainAppRequestOp => "cross_chain_app_request"
  | CrossChainAppRequestFailedOp => "cross_chain_app_request_failed"
  | CrossChainAppResponseOp => "cross_chain_app_response"
  | ConnectedOp => "connected"
  | ConnectedSubnetOp => "connected_subnet"
  | DisconnectedOp => "disconnected"
  | NotifyOp => "notify"
  | GossipRequestOp => "gossip_request"
  | TimeoutOp => "timeout"
  | Op_unrecognized _ => "Unknown Op"
  end.

(** What [msg.Message()] returns: the payload, one constructor per Go type
    the handler's type switches name, with the fields they read.
    [OtherPayload] stands for every other payload type (the [default]
    branches). *)
Inductive Payload : Type :=
| p2p_GetStateSummaryFrontier (RequestId : Z)
| p2p_StateSummaryFrontier (RequestId : Z) (Summary : bytes)
| message_GetStateSummaryFrontierFailed (RequestID : Z)
| p2p_GetAcceptedStateSummary (RequestId : Z) (Heights : list Z)
| p2p_AcceptedStateSummary (RequestId : Z) (SummaryIds : list bytes)
| message_GetAcceptedStateSummaryFailed (RequestID : Z)
| p2p_GetAcceptedFrontier (RequestId : Z)
| p2p_AcceptedFrontier (RequestId : Z) (ContainerIds : list bytes)
| message_GetAcceptedFrontierFailed (RequestID : Z)
| p2p_GetAccepted (RequestId : Z) (ContainerIds : list bytes)
| p2p_Accepted (RequestId : Z) (ContainerIds : list bytes)
| message_GetAcceptedFailed (RequestID : Z)
| p2p_GetAncestors (RequestId : Z) (ContainerId : bytes)
| message_GetAncestorsFailed (RequestID : Z)
| p2p_Ancestors (RequestId : Z) (Containers : list bytes)
| p2p_Get (RequestId : Z) (ContainerId : bytes)
| message_GetFailed (RequestID : Z)
| p2p_Put (RequestId : Z) (Container : bytes)
| p2p_PushQuery (RequestId : Z) (Container : bytes)
| p2p_PullQuery (RequestId : Z) (ContainerId : bytes)
| p2p_Chits (RequestId : Z) (PreferredContainerIds AcceptedContainerIds : list bytes)
| message_QueryFailed (RequestID : Z)
| message_Connected (NodeVersion : string)
| message_ConnectedSubnet (SubnetID : ID)
| message_Disconnected
| p2p_AppRequest (RequestId : Z) (AppBytes : bytes)
| p2p_AppResponse (RequestId : Z) (AppBytes : bytes)
| message_AppRequestFailed (RequestID : Z)
| p2p_AppGossip (AppBytes : bytes)
| message_CrossChainAppRequest (SourceChainID : ID) (RequestID : Z) (Message : bytes)
| message_CrossChainAppResponse (SourceChainID : ID) (RequestID : Z) (Message : bytes)
| message_CrossChainAppRequestFailed (SourceChainID : ID) (RequestID : Z)
| message_VMMessage (Notification : Z)
| message_GossipRequest
| message_Timeout
| OtherPayload (description : string).

(** [message.InboundMessage] *)
Record InboundMessage : Type := mkInboundMessage {
  im_NodeID : NodeID;
  im_Op : Op;
  im_Message : Payload;
  im_Expiration : Time
}.

(** [handler.Message]: an inbound message and the engine type the peer
    asked for. *)
Record Message : Type := mkMessage {
  msg_InboundMessage : InboundMessage;
  msg_EngineType : EngineType
}.

Definition msg_NodeID (m : Message) := im_NodeID (msg_InboundMessage m).
Definition msg_Op (m : Message) := im_Op (msg_InboundMessage m).
Definition msg_Message (m : Message) := im_Message (msg_InboundMessage m).
Definition msg_Expiration (m : Message) := im_Expiration (msg_InboundMessage m).

(** [message.InternalVMMessage], [message.InternalGossipRequest] and
    [message.InternalTimeout]: internal messages never expire. *)
Definition mockable_MaxTime : Time := (9223372036854775807)%Z.

Definition message_InternalVMMessage (nodeID : NodeID) (notification : Z) : InboundMessage :=
  mkInboundMessage nodeID NotifyOp (message_VMMessage notification) mockable_MaxTime.

Definition message_InternalGossipRequest (nodeID : NodeID) : InboundMessage :=
  mkInboundMessage nodeID GossipRequestOp message_GossipRequest mockable_MaxTime.

Definition message_InternalTimeout (nodeID : NodeID) : InboundMessage :=
  mkInboundMessage nodeID TimeoutOp message_Timeout mockable_MaxTime.

(** ** Engines *)

(** The package [snow/engine/common], as far as the handler uses it. *)
Module common.

(** A call of a method of [common.Engine] (with [common.StateSyncer]'s
    [IsEnabled] and [common.BootstrapableEngine]'s [Clear]); the
    [context.Context] argument is left out. *)
Inductive EngineCall : Type :=
| GetStateSummaryFrontier (nodeID : NodeID) (requestID : Z)
| StateSummaryFrontier (nodeID : NodeID) (requestID : Z) (summary : bytes)
| GetStateSummaryFrontierFailed (nodeID : NodeID) (requestID : Z)
| GetAcceptedStateSummary (nodeID : NodeID) (requestID : Z) (heights : list Z)
| AcceptedStateSummary (nodeID : NodeID) (requestID : Z) (summaryIDs : list ID)
| GetAcceptedStateSummaryFailed (nodeID : NodeID) (requestID : Z)
| GetAcceptedFrontier (nodeID : NodeID) (requestID : Z)
| AcceptedFrontier (nodeID : NodeID) (requestID : Z) (containerIDs : list ID)
| GetAcceptedFrontierFailed (nodeID : NodeID) (requestID : Z)
| GetAccepted (nodeID : NodeID) (requestID : Z) (containerIDs : list ID)
| Accepted (nodeID : NodeID) (requestID : Z) (containerIDs : list ID)
| GetAcceptedFailed (nodeID : NodeID) (requestID : Z)
| GetAncestors (nodeID : NodeID) (requestID : Z) (containerID : ID)
| GetAncestorsFailed (nodeID : NodeID) (requestID : Z)
| Ancestors (nodeID : NodeID) (requestID : Z) (containers : list bytes)
| Get (nodeID : NodeID) (requestID : Z) (containerID : ID)
| GetFailed (nodeID : NodeID) (requestID : Z)
| Put (nodeID : NodeID) (requestID : Z) (container : bytes)
| PushQuery (nodeID : NodeID) (requestID : Z) (container : bytes)
| PullQuery (nodeID : NodeID) (requestID : Z) (containerID : ID)
| Chits (nodeID : NodeID) (requestID : Z) (votes accepted : list ID)
| QueryFailed (nodeID : NodeID) (requestID : Z)
| Connected (nodeID : NodeID) (nodeVersion : string)
| Disconnected (nodeID : NodeID)
| AppRequest (nodeID : NodeID) (requestID : Z) (deadline : Time) (request : bytes)
| AppResponse (nodeID : NodeID) (requestID : Z) (response : bytes)
| AppRequestFailed (nodeID : NodeID) (requestID : Z)
| AppGossip (nodeID : NodeID) (msg : bytes)
| CrossChainAppRequest (chainID : ID) (requestID : Z) (deadline : Time) (msg : bytes)
| CrossChainAppResponse (chainID : ID) (requestID : Z) (msg : bytes)
| CrossChainAppRequestFailed (chainID : ID) (requestID : Z)
| Notify (msg : Z)
| Gossip
| Timeout
| Start (startReqID : Z)
| Halt
| Shutdown
| HealthCheck
| IsEnabled
| Clear.

(** The calls through which a message reaches an engine: every method but
    the lifecycle ones. *)
Definition is_message_call (c : EngineCall) : bool :=
  match c with
  | Start _ | Halt | Shutdown | HealthCheck | IsEnabled | Clear => false
  | _ => true
  end.

End common.

(** ** Observable effects *)

Inductive Level : Type := Verbo | Debug | Info | Warn | Error | Fatal.

Inductive QueueName : Type := syncQueue | asyncQueue.

Inductive Histogram : Type := msgHandlingTime | processingTime.

(** The two counters of expired messages: [h.metrics.expired] and
    [h.metrics.asyncExpired]. *)
Inductive Counter : Type := expired | asyncExpired.

Inductive Event : Type :=
| Ev_Log (lvl : Level) (msg : string) (fields : list string)
| Ev_StartProcessing (nodeID : NodeID) (t : Time)
| Ev_StopProcessing (nodeID : NodeID) (t : Time)
| Ev_Lock
| Ev_Unlock
| Ev_Observe (op : Op) (hist : Histogram) (d : Duration)
| Ev_OnFinishedHandling (m : InboundMessage)
| Ev_SpanAddEvent (name : string)
| Ev_Inc (c : Counter)
| Ev_Engine (engine : string) (call : common.EngineCall)
| Ev_ConnectedSubnet (nodeID : NodeID) (subnetID : ID)
| Ev_QueuePush (q : QueueName) (m : Message)
| Ev_QueueShutdown (q : QueueName)
| Ev_PoolSend (m : Message)
| Ev_PoolShutdown
| Ev_close_closingChan
| Ev_close_closed
| Ev_go_onStopped.

Definition Trace := list Event.

(** An engine is a black box: it has a name, under which its calls appear
    in the trace, and it answers a call with an error or nil.  The answer
    may depend on everything that has happened so far. *)
Record common_Engine : Type := mkEngine {
  engine_name : string;
  engine_returns : Trace -> common.EngineCall -> option error;
  engine_IsEnabled : Trace -> bool * option error;
  engine_HealthCheck : Trace -> option string * option error
}.

(** ** The engine manager *)

(** Modelled from the spec: the [Engine] struct of engine_manager.go,
    which is not among the sources.  "A set of engines keyed by
    EngineLifecycleState (StateSyncer, Bootstrapper, NormalOp-engine)";
    a field that holds no engine is nil, that is [None]. *)
Record Engine : Type := mkEngines {
  StateSyncer : option common_Engine;
  Bootstrapper : option common_Engine;
  Consensus : option common_Engine
}.

(** Modelled from the spec: the [EngineManager] struct of
    engine_manager.go: "maps EngineType -> a set of engines"; a type that
    has no engines maps to nil. *)
Record EngineManager : Type := mkEngineManager {
  Avalanche : option Engine;
  Snowman : option Engine
}.

(** Modelled from the spec: [EngineManager.Get] of engine_manager.go: the
    engines of the given type, nil for a type that is neither Avalanche
    nor Snowman, or that has none. *)
Definition EngineManager_Get (e : EngineManager) (engineType : EngineType) : option Engine :=
  match engineType with
  | ENGINE_TYPE_AVALANCHE => Avalanche e
  | ENGINE_TYPE_SNOWMAN => Snowman e
  | _ => None
  end.

(** Modelled from the spec: [Engine.Get] of engine_manager.go: the engine
    registered for the given lifecycle state, and whether there is one
    ([ok]); on a nil receiver there is none. *)
Definition Engine_Get (e : option Engine) (state : State) : option common_Engine :=
  match e with
  | None => None
  | Some engines =>
      match state with
      | StateSyncing => StateSyncer engines
      | Bootstrapping => Bootstrapper engines
      | NormalOp => Consensus engines
      end
  end.

(** ** The message queues and the worker pool *)

(** Modelled from the spec: the [MessageQueue] of message_queue.go, which
    is not among the sources, as "FIFO" with "a closed flag". *)
Record MessageQueue : Type := mkMessageQueue {
  mq_msgs : list Message;
  mq_closed : bool
}.

(** What a call of [queue.Pop()] does: it returns a message, returns
    "not ok" (the queue is shut down and drained), or blocks. *)
Inductive PopResult : Type :=
| Popped (m : Message)
| NotOk
| Blocks.

(** Modelled from the spec: [Pop] "blocks until an item exists or the queue
    is shut down; returns ok=false forever after shutdown and drain";
    already queued items "are still poppable until drained". *)
Definition MessageQueue_Pop (q : MessageQueue) : PopResult * MessageQueue :=
  match mq_msgs q with
  | m :: rest => (Popped m, mkMessageQueue rest (mq_closed q))
  | [] => (if mq_closed q then NotOk else Blocks, q)
  end.

(** Modelled from the spec: [Len], the "current queued count". *)
Definition MessageQueue_Len (q : MessageQueue) : Z := Z.of_nat (List.length (mq_msgs q)).

(** Modelled from the spec: the [worker.Pool]: the tasks sent and not yet
    run, and whether the pool was shut down.  A task of this handler is
    the closure of [handleAsyncMsg], which is determined by its message. *)
Record Pool : Type := mkPool {
  pool_tasks : list Message;
  pool_shutdown : bool
}.

(** ** The handler *)

Record handler : Type := mkHandler {
  ctx_NodeID : NodeID;
  (** [h.ctx.State]: owned by the consensus context, written by the
      engines, read by the handler *)
  ctx_State : EngineState;
  engineManager : EngineManager;
  (** whether [onStopped] is not nil *)
  onStopped : bool;
  syncMessageQueue : MessageQueue;
  asyncMessageQueue : MessageQueue;
  asyncMessagePool : Pool;
  (** [timeouts] is a channel of capacity 1: it holds a value or not *)
  timeouts : bool;
  (** whether [closeOnce] has run its function *)
  closeOnce : bool;
  (** whether [closingChan] is closed *)
  closingChan : bool;
  numDispatchersClosed : Z;
  (** how many times [close(h.closed)] was executed; Go panics on the
      second *)
  closed : nat;
  (** [h.metrics.expired] and [h.metrics.asyncExpired] *)
  metrics_expired : nat;
  metrics_asyncExpired : nat;
  (** what [h.subnetConnector.ConnectedSubnet] returns *)
  subnetConnector : Trace -> NodeID -> ID -> option error
}.

(** The handler in its environment: the mockable clock (what the n-th
    reading gives) and the trace. *)
Record World : Type := mkWorld {
  h : handler;
  clock : nat -> Time;
  clock_reads : nat;
  events : Trace
}.

(** Field updates. *)
Definition set_ctx_State (v : EngineState) (x : handler) : handler :=
  mkHandler
    (ctx_NodeID x) v (engineManager x) (onStopped x) (syncMessageQueue x)
    (asyncMessageQueue x) (asyncMessagePool x) (timeouts x) (closeOnce x)
    (closingChan x) (numDispatchersClosed x) (closed x) (metrics_expired x)
    (metrics_asyncExpired x) (subnetConnector x).

Definition set_syncMessageQueue (v : MessageQueue) (x : handler) : handler :=
  mkHandler
    (ctx_NodeID x) (ctx_State x) (engineManager x) (onStopped x) v
    (asyncMessageQueue x) (asyncMessagePool x) (timeouts x) (closeOnce x)
    (closingChan x) (numDispatchersClosed x) (closed x) (metrics_expired x)
    (metrics_asyncExpired x) (subnetConnector x).

Definition set_asyncMessageQueue (v : MessageQueue) (x : handler) : handler :=
  mkHandler
    (ctx_NodeID x) (ctx_State x) (engineManager x) (onStopped x)
    (syncMessageQueue x) v (asyncMessagePool x) (timeouts x) (closeOnce x)
    (closingChan x) (numDispatchersClosed x) (closed x) (metrics_expired x)
    (metrics_asyncExpired x) (subnetConnector x).

Definition set_asyncMessagePool (v : Pool) (x : handler) : handler :=
  mkHandler
    (ctx_NodeID x) (ctx_State x) (engineManager x) (onStopped x)
    (syncMessageQueue x) (asyncMessageQueue x) v (timeouts x) (closeOnce x)
    (closingChan x) (numDispatchersClosed x) (closed x) (metrics_expired x)
    (metrics_asyncExpired x) (subnetConnector x).

Definition set_timeouts (v : bool) (x : handler) : handler :=
  mkHandler
    (ctx_NodeID x) (ctx_State x) (engineManager x) (onStopped x)
    (syncMessageQueue x) (asyncMessageQueue x) (asyncMessagePool x) v
    (closeOnce x) (closingChan x) (numDispatchersClosed x) (closed x)
    (metrics_expired x) (metrics_asyncExpired x) (subnetConnector x).

Definition set_closeOnce (v : bool) (x : handler) : handler :=
  mkHandler
    (ctx_NodeID x) (ctx_State x) (engineManager x) (onStopped x)
    (syncMessageQueue x) (asyncMessageQueue x) (asyncMessagePool x)
    (timeouts x) v (closingChan x) (numDispatchersClosed x) (closed x)
    (metrics_expired x) (metrics_asyncExpired x) (subnetConnector x).

Definition set_closingChan (v : bool) (x : handler) : handler :=
  mkHandler
    (ctx_NodeID x) (ctx_State x) (engineManager x) (onStopped x)
    (syncMessageQueue x) (asyncMessageQueue x) (asyncMessagePool x)
    (timeouts x) (closeOnce x) v (numDispatchersClosed x) (closed x)
    (metrics_expired x) (metrics_asyncExpired x) (subnetConnector x).

Definition set_numDispatchersClosed (v : Z) (x : handler) : handler :=
  mkHandler
    (ctx_NodeID x) (ctx_State x) (engineManager x) (onStopped x)
    (syncMessageQueue x) (asyncMessageQueue x) (asyncMessagePool x)
    (timeouts x) (closeOnce x) (closingChan x) v (closed x)
    (metrics_expired x) (metrics_asyncExpired x) (subnetConnector x).

Definition set_closed (v : nat) (x : handler) : handler :=
  mkHandler
    (ctx_NodeID x) (ctx_State x) (engineManager x) (onStopped x)
    (syncMessageQueue x) (asyncMessageQueue x) (asyncMessagePool x)
    (timeouts x) (closeOnce x) (closingChan x) (numDispatchersClosed x) v
    (metrics_expired x) (metrics_asyncExpired x) (subnetConnector x).

Definition set_metrics_expired (v : nat) (x : handler) : handler :=
  mkHandler
    (ctx_NodeID x) (ctx_State x) (engineManager x) (onStopped x)
    (syncMessageQueue x) (asyncMessageQueue x) (asyncMessagePool x)
    (timeouts x) (closeOnce x) (closingChan x) (numDispatchersClosed x)
    (closed x) v (metrics_asyncExpired x) (subnetConnector x).

Definition set_metrics_asyncExpired (v : nat) (x : handler) : handler :=
  mkHandler
    (ctx_NodeID x) (ctx_State x) (engineManager x) (onStopped x)
    (syncMessageQueue x) (asyncMessageQueue x) (asyncMessagePool x)
    (timeouts x) (closeOnce x) (closingChan x) (numDispatchersClosed x)
    (closed x) (metrics_expired x) v (subnetConnector x).

Definition set_engineManager (v : EngineManager) (x : handler) : handler :=
  mkHandler
    (ctx_NodeID x) (ctx_State x) v (onStopped x) (syncMessageQueue x)
    (asyncMessageQueue x) (asyncMessagePool x) (timeouts x) (closeOnce x)
    (closingChan x) (numDispatchersClosed x) (closed x) (metrics_expired x)
    (metrics_asyncExpired x) (subnetConnector x).

Definition set_onStopped (v : bool) (x : handler) : handler :=
  mkHandler
    (ctx_NodeID x) (ctx_State x) (engineManager x) v (syncMessageQueue x)
    (asyncMessageQueue x) (asyncMessagePool x) (timeouts x) (closeOnce x)
    (closingChan x) (numDispatchersClosed x) (closed x) (metrics_expired x)
    (metrics_asyncExpired x) (subnetConnector x).


Definition get_queue (q : QueueName) (x : handler) : MessageQueue :=
  match q with
  | syncQueue => syncMessageQueue x
  | asyncQueue => asyncMessageQueue x
  end.

Definition set_queue (q : QueueName) (v : MessageQueue) (x : handler) : handler :=
  match q with
  | syncQueue => set_syncMessageQueue v x
  | asyncQueue => set_asyncMessageQueue v x
  end.

Definition get_counter (c : Counter) (x : handler) : nat :=
  match c with
  | expired => metrics_expired x
  | asyncExpired => metrics_asyncExpired x
  end.

Definition set_counter (c : Counter) (v : nat) (x : handler) : handler :=
  match c with
  | expired => set_metrics_expired v x
  | asyncExpired => set_metrics_asyncExpired v x
  end.

(** Go's [int] on a 64-bit platform. *)
Definition int_wrap (z : Z) : Z :=
  ((z + 9223372036854775808) mod 18446744073709551616 - 9223372036854775808)%Z.

(** ** The monad of handler computations *)

Definition M (A : Type) : Type := World -> A * World.

Definition ret {A : Type} (a : A) : M A := fun w => (a, w).

Definition bind {A B : Type} (m : M A) (k : A -> M B) : M B :=
  fun w => let (a, w') := m w in k a w'.

Declare Scope handler_scope.
Delimit Scope handler_scope with handler.
Notation "x <- c ;; k" := (bind c (fun x => k))
  (at level 61, c at next level, right associativity) : handler_scope.
Notation "c ;; k" := (bind c (fun _ => k))
  (at level 61, right associativity) : handler_scope.
Local Open Scope handler_scope.

Definition get_h : M handler := fun w => (h w, w).

Definition modify_h (f : handler -> handler) : M unit :=
  fun w => (tt, mkWorld (f (h w)) (clock w) (clock_reads w) (events w)).

Definition emit (e : Event) : M unit :=
  fun w => (tt, mkWorld (h w) (clock w) (clock_reads w) (events w ++ [e])).

(** [h.clock.Time()] *)
Definition h_clock_Time : M Time :=
  fun w => (clock w (clock_reads w),
            mkWorld (h w) (clock w) (S (clock_reads w)) (events w)).

Definition Log (lvl : Level) (msg : string) (fields : list string) : M unit :=
  emit (Ev_Log lvl msg fields).

Definition ctx_Lock_Lock : M unit := emit Ev_Lock.
Definition ctx_Lock_Unlock : M unit := emit Ev_Unlock.

(** [h.ctx.State.Get()] *)
Definition ctx_State_Get : M EngineState :=
  x <- get_h ;; ret (ctx_State x).

(** A call of an engine method that returns an error. *)
Definition call (engine : common_Engine) (c : common.EngineCall) : M (option error) :=
  fun w => (engine_returns engine (events w) c,
            mkWorld (h w) (clock w) (clock_reads w)
                    (events w ++ [Ev_Engine (engine_name engine) c])).

(** [engine.Halt(ctx)] returns nothing. *)
Definition call_Halt (engine : common_Engine) : M unit :=
  emit (Ev_Engine (engine_name engine) common.Halt).

Definition call_IsEnabled (engine : common_Engine) : M (bool * option error) :=
  fun w => (engine_IsEnabled engine (events w),
            mkWorld (h w) (clock w) (clock_reads w)
                    (events w ++ [Ev_Engine (engine_name engine) common.IsEnabled])).

Definition call_HealthCheck (engine : common_Engine)
  : M (option string * option error) :=
  fun w => (engine_HealthCheck engine (events w),
            mkWorld (h w) (clock w) (clock_reads w)
                    (events w ++ [Ev_Engine (engine_name engine) common.HealthCheck])).

Definition subnetConnector_ConnectedSubnet (nodeID : NodeID) (subnetID : ID)
  : M (option error) :=
  fun w => (subnetConnector (h w) (events w) nodeID subnetID,
            mkWorld (h w) (clock w) (clock_reads w)
                    (events w ++ [Ev_ConnectedSubnet nodeID subnetID])).

(** [msg.OnFinishedHandling()]: the completion callback of the message. *)
Definition OnFinishedHandling (m : InboundMessage) : M unit :=
  emit (Ev_OnFinishedHandling m).

(** [expired.Inc()] *)
Definition Inc (c : Counter) : M unit :=
  modify_h (fun x => set_counter c (S (get_counter c x)) x) ;;
  emit (Ev_Inc c).

(** Modelled from the spec: [MessageQueue.Push]: "inserts msg"; "once shut
    down, Push is a no-op (or drops, triggering the message's completion
    callback)". *)
Definition MessageQueue_Push (q : QueueName) (msg : Message) : M unit :=
  emit (Ev_QueuePush q msg) ;;
  x <- get_h ;;
  if mq_closed (get_queue q x)
  then OnFinishedHandling (msg_InboundMessage msg)
  else modify_h (set_queue q (mkMessageQueue (mq_msgs (get_queue q x) ++ [msg]) false)).

(** Modelled from the spec: [MessageQueue.Shutdown]: "idempotent; flips
    closed flag and wakes all blocked poppers; does not drop already-queued
    items". *)
Definition MessageQueue_Shutdown (q : QueueName) : M unit :=
  emit (Ev_QueueShutdown q) ;;
  modify_h (fun x => set_queue q (mkMessageQueue (mq_msgs (get_queue q x)) true) x).

(** Modelled from the spec: [worker.Pool.Send]: "schedules task for
    execution on one of N bounded workers". *)
Definition Pool_Send (task : Message) : M unit :=
  emit (Ev_PoolSend task) ;;
  modify_h (fun x => set_asyncMessagePool
                       (mkPool (pool_tasks (asyncMessagePool x) ++ [task])
                               (pool_shutdown (asyncMessagePool x))) x).

(** Modelled from the spec: [worker.Pool.Shutdown]: "stops accepting new
    tasks and blocks until all in-flight tasks complete": it returns once
    no task is left, see [step_dispatchAsync_deferred] below. *)
Definition Pool_Shutdown : M unit :=
  emit Ev_PoolShutdown ;;
  modify_h (fun x => set_asyncMessagePool
                       (mkPool (pool_tasks (asyncMessagePool x)) true) x).

(** A function that returns or panics. *)
Inductive go_result (A : Type) : Type :=
| Returns (a : A)
| Panics (reason : string).
Arguments Returns {A} a.
Arguments Panics {A} reason.

(** ** handler.go *)

Definition SetEngineManager (engineManager : EngineManager) : M unit :=
  modify_h (set_engineManager engineManager).

Definition GetEngineManager : M EngineManager :=
  x <- get_h ;; ret (engineManager x).

Definition SetOnStopped (onStopped : bool) : M unit :=
  modify_h (set_onStopped onStopped).

Definition selectStartingGear
  : M (go_result (option common_Engine * option error)) :=
  state <- ctx_State_Get ;;
  em <- GetEngineManager ;;
  match EngineManager_Get em (es_Type state) with
  | None => ret (Returns (None, Some errNoStartingGear))
  | Some engines =>
      match StateSyncer engines with
      | None => ret (Returns (Bootstrapper engines, None))
      | Some stateSyncer =>
          r <- call_IsEnabled stateSyncer ;;
          match snd r with
          | Some err => ret (Returns (None, Some err))
          | None =>
              if negb (fst r) then ret (Returns (Bootstrapper engines, None))
              else
                (* drop bootstrap state from previous runs before starting
                   state sync *)
                match Bootstrapper engines with
                | None => ret (Panics "invalid memory address or nil pointer dereference")
                | Some bootstrapper =>
                    err <- call bootstrapper common.Clear ;;
                    ret (Returns (Some stateSyncer, err))
                end
          end
      end
  end.

(** Note: shutdown is only called after all message dispatchers have
    exited. *)
Definition shutdown : M unit :=
  state <- ctx_State_Get ;;
  em <- GetEngineManager ;;
  match Engine_Get (EngineManager_Get em (es_Type state)) (es_State state) with
  | None =>
      Log Error "failed fetching current engine during shutdown"
          [EngineType_String (es_Type state); State_String (es_State state)]
  | Some engine =>
      err <- call engine common.Shutdown ;;
      match err with
      | Some _ => Log Error "failed while shutting down the chain" []
      | None => ret tt
      end
  end ;;
  (* the deferred function *)
  x <- get_h ;;
  (if onStopped x then emit Ev_go_onStopped else ret tt) ;;
  modify_h (fun x => set_closed (S (closed x)) x) ;;
  emit Ev_close_closed.

Definition closeDispatcher : M unit :=
  ctx_Lock_Lock ;;
  modify_h (fun x => set_numDispatchersClosed (int_wrap (numDispatchersClosed x + 1)) x) ;;
  x <- get_h ;;
  (if (numDispatchersClosed x <? numDispatchersToClose)%Z
   then ret tt
   else shutdown) ;;
  ctx_Lock_Unlock.

(** The loop of [popUnexpiredMsg], by recursion on what the queue holds:
    every turn pops one message. *)
Fixpoint popUnexpiredMsg_from (queue : QueueName) (expired : Counter)
    (msgs : list Message) (queue_closed : bool) : M PopResult :=
  match msgs with
  | [] => ret (if queue_closed then NotOk else Blocks)
  | msg :: rest =>
      modify_h (set_queue queue (mkMessageQueue rest queue_closed)) ;;
      now <- h_clock_Time ;;
      (* If this message's deadline has passed, don't process it. *)
      if Time_After now (msg_Expiration msg) then
        Log Debug "dropping message" ["timeout"; Op_String (msg_Op msg)] ;;
        emit (Ev_SpanAddEvent "dropping message") ;;
        Inc expired ;;
        OnFinishedHandling (msg_InboundMessage msg) ;;
        popUnexpiredMsg_from queue expired rest queue_closed
      else ret (Popped msg)
  end.

Definition popUnexpiredMsg (queue : QueueName) (expired : Counter) : M PopResult :=
  x <- get_h ;;
  popUnexpiredMsg_from queue expired
    (mq_msgs (get_queue queue x)) (mq_closed (get_queue queue x)).

Definition HealthCheck : M (option string * option error) :=
  ctx_Lock_Lock ;;
  state <- ctx_State_Get ;;
  em <- GetEngineManager ;;
  match Engine_Get (EngineManager_Get em (es_Type state)) (es_State state) with
  | None =>
      ctx_Lock_Unlock ;;
      ret (None, Some (fmt_Errorf_w "%w %s running %s" errMissingEngine
                         [State_String (es_State state);
                          EngineType_String (es_Type state)]))
  | Some engine =>
      r <- call_HealthCheck engine ;;
      ctx_Lock_Unlock ;;
      ret r
  end.

Definition is_async_op (op : Op) : bool :=
  match op with
  | AppRequestOp | AppRequestFailedOp | AppResponseOp | AppGossipOp
  | CrossChainAppRequestOp | CrossChainAppRequestFailedOp
  | CrossChainAppResponseOp => true
  | _ => false
  end.

(** Push the message onto the handler's queue *)
Definition Push (msg : Message) : M unit :=
  match msg_Op msg with
  | AppRequestOp | AppRequestFailedOp | AppResponseOp | AppGossipOp
  | CrossChainAppRequestOp | CrossChainAppRequestFailedOp
  | CrossChainAppResponseOp =>
      MessageQueue_Push asyncQueue msg
  | _ =>
      MessageQueue_Push syncQueue msg
  end.

Definition Len : M Z :=
  x <- get_h ;;
  ret (int_wrap (MessageQueue_Len (syncMessageQueue x)
                 + MessageQueue_Len (asyncMessageQueue x))).

(** The goroutine of [RegisterTimeout], once its timer or the preemption
    has fired: a send on [h.timeouts] that does not block. *)
Definition RegisterTimeout_fires : M unit :=
  modify_h (set_timeouts true).

(** Note: It is possible for Stop to be called before/concurrently with
    Start. *)
Definition Stop : M unit :=
  x <- get_h ;;
  if closeOnce x then ret tt
  else
    modify_h (set_closeOnce true) ;;
    MessageQueue_Shutdown syncQueue ;;
    MessageQueue_Shutdown asyncQueue ;;
    modify_h (set_closingChan true) ;;
    emit Ev_close_closingChan ;;
    state <- ctx_State_Get ;;
    em <- GetEngineManager ;;
    match Engine_Get (EngineManager_Get em (es_Type state)) Bootstrapping with
    | None =>
        Log Error "bootstrapping engine doesn't exists"
            [EngineType_String (es_Type state)]
    | Some bootstrapper => call_Halt bootstrapper
    end.

Definition StopWithError (err : error) : M unit :=
  Log Fatal "shutting down chain" ["received an unexpected error"] ;;
  Stop.

(** ** Scenarios

    Concrete engines, messages and handlers, on which the statements below
    are tried. *)

(** Identifiers are 32 bytes long. *)
Definition ToID_32 (b : bytes) : option ID :=
  if Nat.eqb (List.length b) 32 then Some b else None.

Definition getIDs_32 (l : list bytes) : option (list ID) :=
  if forallb (fun b => Nat.eqb (List.length b) 32) l then Some l else None.

Fixpoint IsUnique_Z (l : list Z) : bool :=
  match l with
  | [] => true
  | z :: l' => negb (existsb (Z.eqb z) l') && IsUnique_Z l'
  end.

(** An engine that accepts every call. *)
Definition healthy_engine (name : string) : common_Engine :=
  mkEngine name (fun _ _ => None) (fun _ => (true, None)) (fun _ => (Some name, None)).

(** An engine whose every call fails. *)
Definition engine_failure : error := errors_New "engine failure".

Definition failing_engine (name : string) : common_Engine :=
  mkEngine name (fun _ _ => Some engine_failure)
           (fun _ => (true, None)) (fun _ => (None, Some engine_failure)).

(** A Snowman chain with its three engines. *)
Definition snowman_engines : Engine :=
  mkEngines (Some (healthy_engine "syncer"))
            (Some (healthy_engine "bootstrapper"))
            (Some (healthy_engine "snowman")).

Definition snowman_manager : EngineManager :=
  mkEngineManager None (Some snowman_engines).

(** A linearized chain: the Avalanche engines are still registered. *)
Definition avalanche_engines : Engine :=
  mkEngines None
            (Some (healthy_engine "avalanche bootstrapper"))
            (Some (healthy_engine "avalanche")).

Definition linearized_manager : EngineManager :=
  mkEngineManager (Some avalanche_engines) (Some snowman_engines).

Definition empty_manager : EngineManager := mkEngineManager None None.

Definition empty_queue : MessageQueue := mkMessageQueue [] false.

Definition node1 : NodeID := [Byte.x01].

(** The handler as [New] builds it and [SetEngineManager] completes it. *)
Definition new_handler (st : EngineState) (em : EngineManager) : handler :=
  mkHandler node1 st em false empty_queue empty_queue (mkPool [] false)
            false false false 0%Z 0 0 0 (fun _ _ _ => None).

Definition new_world (st : EngineState) (em : EngineManager) : World :=
  mkWorld (new_handler st em) (fun _ => 0%Z) 0 [].

Definition snowman_normal : EngineState := mkEngineState ENGINE_TYPE_SNOWMAN NormalOp.
Definition avalanche_normal : EngineState := mkEngineState ENGINE_TYPE_AVALANCHE NormalOp.

Definition a_message (op : Op) (body : Payload) (t : EngineType) : Message :=
  mkMessage (mkInboundMessage node1 op body 100%Z) t.

Definition bad_id : bytes := [Byte.x00].

(** A chain that starts with state sync. *)
Definition snowman_syncing : EngineState :=
  mkEngineState ENGINE_TYPE_SNOWMAN StateSyncing.

(** A linearized chain whose Avalanche engine cannot gossip any more. *)
Definition broken_avalanche_manager : EngineManager :=
  mkEngineManager
    (Some (mkEngines None (Some (failing_engine "avalanche bootstrapper"))
                     (Some (failing_engine "avalanche"))))
    (Some snowman_engines).

(** A Snowman engine that rejects every [Put]. *)
Definition put_rejecting_engine : common_Engine :=
  mkEngine "snowman"
           (fun _ c => match c with
                       | common.Put _ _ _ => Some engine_failure
                       | _ => None
                       end)
           (fun _ => (true, None)) (fun _ => (Some "snowman", None)).

Definition put_rejecting_manager : EngineManager :=
  mkEngineManager None
    (Some (mkEngines None (Some (healthy_engine "bootstrapper"))
                     (Some put_rejecting_engine))).

Definition a_put : Message := a_message PutOp (p2p_Put 1%Z []) ENGINE_TYPE_UNSPECIFIED.

(** A handler in normal operation with one [Put] in its sync queue, and
    its three dispatchers. *)
Definition put_pending : World :=
  mkWorld
    (set_syncMessageQueue (mkMessageQueue [a_put] false)
       (new_handler snowman_normal put_rejecting_manager))
    (fun _ => 0%Z) 0 [].

(** A chits message whose preferred identifier is one byte long. *)
Definition bad_chits : Message :=
  a_message ChitsOp (p2p_Chits 7%Z [bad_id] []) ENGINE_TYPE_UNSPECIFIED.

Definition an_app_gossip : Message :=
  a_message AppGossipOp (p2p_AppGossip []) ENGINE_TYPE_UNSPECIFIED.

Definition a_get_accepted_frontier (t : EngineType) : Message :=
  a_message GetAcceptedFrontierOp (p2p_GetAcceptedFrontier 3%Z) t.

(** An expired message: the clock of [new_world] is at 0. *)
Definition an_expired_message : Message :=
  mkMessage (mkInboundMessage node1 PutOp (p2p_Put 2%Z []) (-1)%Z)
            ENGINE_TYPE_UNSPECIFIED.


(** ** The default validators

    The default validator set of the package [validators]
    (snow/validators): the validators a Flare network starts with, until
    they expire.  The package keeps the set and the expiration time of the
    custom validators in package variables: they are the [Package] below,
    which the functions pass along. *)

(** The struct [validator]: what [createValidators] builds. *)
Record validator : Type := mkValidator {
  nodeID : NodeID;
  weight : Z
}.

(** What the package takes from elsewhere, and the sources do not have:
    the network identifiers of [utils/constants], the decoder of node
    identifiers of [ids] ([None] when it returns an error) with the prefix
    it expects, the method [ID] of a [Validator], the process environment
    and the parser of [time]. *)
Class Imports : Type := {
  constants_LocalID : Z;
  constants_SongbirdID : Z;
  constants_CostonID : Z;
  ids_ShortFromPrefixedString : string -> string -> option NodeID;
  ids_NodeIDPrefix : string;
  Validator_ID : validator -> NodeID;
  os_Getenv : string -> string;
  time_Parse_RFC3339 : string -> option Time
}.

Section Validators.

Context {imports : Imports}.

Definition Time_Before (t u : Time) : bool := (t <? u)%Z.

Definition songbirdValidatorWeight : Z := 50000%Z.
Definition costonValidatorWeight : Z := 200000%Z.
Definition customValidatorWeight : Z := 200000%Z.
Definition customValidatorEnv : string := "CUSTOM_VALIDATORS".
Definition customValidatorExpEnv : string := "CUSTOM_VALIDATORS_EXPIRATION".

(** [time.Date(10000, time.January, 1, 0, 0, 0, 0, time.UTC)], in
    nanoseconds since the epoch. *)
Definition time_Date_10000_January_1 : Time := (253402300800 * 1000000000)%Z.

Definition songbirdValidatorsExpTime : Time := time_Date_10000_January_1.
Definition costonValidatorsExpTime : Time := time_Date_10000_January_1.

Definition errNotInitialized : string := "default validator set not initialized".

Fixpoint NodeID_eqb (a b : NodeID) : bool :=
  match a, b with
  | [], [] => true
  | x :: a', y :: b' => Byte.eqb x y && NodeID_eqb a' b'
  | _, _ => false
  end.

(** A Go map from node identifiers to validators: the keys in the order
    in which they were first set.  (Go ranges over a map in an order that
    it does not specify; nothing below depends on the order.) *)
Definition vdrMap_t : Type := list (NodeID * validator).

(** [m[k] = v] *)
Fixpoint map_set (m : vdrMap_t) (k : NodeID) (v : validator) : vdrMap_t :=
  match m with
  | [] => [(k, v)]
  | (k', v') :: m' =>
      if NodeID_eqb k' k then (k, v) :: m' else (k', v') :: map_set m' k v
  end.

(** [v, ok := m[k]] *)
Fixpoint map_get (m : vdrMap_t) (k : NodeID) : option validator :=
  match m with
  | [] => None
  | (k', v') :: m' => if NodeID_eqb k' k then Some v' else map_get m' k
  end.

Record defaultValidatorSet : Type := mkDefaultValidatorSet {
  initialized : bool;
  vdrMap : vdrMap_t
}.

(** The package variables that change: [defaultValidators] and
    [customValidatorsExpTime]. *)
Record Package : Type := mkPackage {
  defaultValidators : defaultValidatorSet;
  customValidatorsExpTime : Time
}.

(** The package when the program starts. *)
Definition Package_init : Package :=
  mkPackage (mkDefaultValidatorSet false []) time_Date_10000_January_1.

(** The loop of [createValidators], with the validators made so far. *)
Fixpoint createValidators_from (nodeIDs : list string) (weight : Z)
    (vdrs : list validator) : go_result (list validator) :=
  match nodeIDs with
  | [] => Returns vdrs
  | nodeID :: rest =>
      if String.eqb nodeID "" then createValidators_from rest weight vdrs
      else
        match ids_ShortFromPrefixedString nodeID ids_NodeIDPrefix with
        | None => Panics (String.append "invalid validator node ID: " nodeID)
        | Some shortID =>
            createValidators_from rest weight (vdrs ++ [mkValidator shortID weight])
        end
  end.

Definition createValidators (nodeIDs : list string) (weight : Z)
  : go_result (list validator) :=
  createValidators_from nodeIDs weight [].

(** [strings.Split(s, ",")] *)
Fixpoint strings_Split_comma (s : string) : list string :=
  match s with
  | EmptyString => [EmptyString]
  | String c s' =>
      if String.eqb (String c EmptyString) "," then EmptyString :: strings_Split_comma s'
      else
        match strings_Split_comma s' with
        | piece :: pieces => String c piece :: pieces
        | [] => [String c EmptyString]
        end
  end.

Definition loadCustomValidators (timestamp : Time) (p : Package)
  : go_result (list validator) * Package :=
  let customValidatorList := os_Getenv customValidatorEnv in
  let customValidatorExpString := os_Getenv customValidatorExpEnv in
  let p :=
    if Nat.ltb 0 (String.length customValidatorExpString) then
      match time_Parse_RFC3339 customValidatorExpString with
      | Some t => mkPackage (defaultValidators p) t
      | None => p (* Ignore if error occurs, use default expiration time *)
      end
    else p in
  if negb (Time_Before timestamp (customValidatorsExpTime p)) then (Returns [], p)
  else
    let nodeIDs := strings_Split_comma customValidatorList in
    (createValidators nodeIDs customValidatorWeight, p).

Definition loadCostonValidators (timestamp : Time) : go_result (list validator) :=
  if negb (Time_Before timestamp costonValidatorsExpTime) then Returns []
  else
    let nodeIDs :=
      ["NodeID-5dDZXn99LCkDoEi6t9gTitZuQmhokxQTc";
       "NodeID-EkH8wyEshzEQBToAdR7Fexxcj9rrmEEHZ";
       "NodeID-FPAwqHjs8Mw8Cuki5bkm3vSVisZr8t2Lu";
       "NodeID-AQghDJTU3zuQj73itPtfTZz6CxsTQVD3R";
       "NodeID-HaZ4HpanjndqSuN252chFsTysmdND5meA"] in
    createValidators nodeIDs costonValidatorWeight.

Definition loadSongbirdValidators (timestamp : Time) : go_result (list validator) :=
  if negb (Time_Before timestamp songbirdValidatorsExpTime) then Returns []
  else
    let nodeIDs := ["NodeID-HaZ4HpanjndqSuN252chFsTysmdND5meA"] in
    createValidators nodeIDs songbirdValidatorWeight.

(** The validators of a network: the [switch networkID] of
    [initialize]. *)
Definition load_validators (networkID : Z) (timestamp : Time) (p : Package)
  : go_result (list validator) * Package :=
  if (networkID =? constants_LocalID)%Z then loadCustomValidators timestamp p
  else if (networkID =? constants_SongbirdID)%Z then (loadSongbirdValidators timestamp, p)
  else if (networkID =? constants_CostonID)%Z then (loadCostonValidators timestamp, p)
  else (Returns [], p).

(** The loop of [initialize] that fills the map. *)
Definition fill_vdrMap (vdrs : list validator) : vdrMap_t :=
  fold_left (fun m vdr => map_set m (Validator_ID vdr) vdr) vdrs [].

Definition initialize (networkID : Z) (timestamp : Time) (p : Package)
  : go_result unit * Package :=
  if initialized (defaultValidators p) then (Returns tt, p)
  else
    match load_validators networkID timestamp p with
    | (Panics reason, p') => (Panics reason, p')
    | (Returns vdrs, p') =>
        (Returns tt,
         mkPackage (mkDefaultValidatorSet true (fill_vdrMap vdrs))
                   (customValidatorsExpTime p'))
    end.

Definition list_ (dvs : defaultValidatorSet) : go_result (list validator) :=
  if negb (initialized dvs) then Panics errNotInitialized
  else Returns (map snd (vdrMap dvs)).

Definition isValidator (vdrID : NodeID) (dvs : defaultValidatorSet) : go_result bool :=
  if negb (initialized dvs) then Panics errNotInitialized
  else
    Returns match map_get (vdrMap dvs) vdrID with
            | Some _ => true
            | None => false
            end.

Definition expiredValidators (networkID : Z) (timestamp : Time) (p : Package)
  : go_result (list validator) :=
  let dvs := defaultValidators p in
  if negb (initialized dvs) then Panics errNotInitialized
  else if (networkID =? constants_LocalID)%Z then
    if negb (Time_Before timestamp (customValidatorsExpTime p)) then list_ dvs
    else Returns []
  else if (networkID =? constants_SongbirdID)%Z then
    if negb (Time_Before timestamp songbirdValidatorsExpTime) then list_ dvs
    else Returns []
  else if (networkID =? constants_CostonID)%Z then
    if negb (Time_Before timestamp costonValidatorsExpTime) then list_ dvs
    else Returns []
  else Returns [].

Definition DefaultValidatorList (p : Package) : go_result (list validator) :=
  list_ (defaultValidators p).

Definition IsDefaultValidator (vdrID : NodeID) (p : Package) : go_result bool :=
  isValidator vdrID (defaultValidators p).

Definition InitializeDefaultValidators (networkID : Z) (timestamp : Time) (p : Package)
  : go_result unit * Package :=
  initialize networkID timestamp p.

Definition ExpiredDefaultValidators (networkID : Z) (timestamp : Time) (p : Package)
  : go_result (list validator) :=
  expiredValidators networkID timestamp p.

(** *** What the statements on the default validators speak of *)


(** The keys of a map are distinct, and every validator is found under
    its identifier. *)
Definition map_ok (m : vdrMap_t) : Prop :=
  NoDup (map fst m) /\ forall k v, In (k, v) m -> Validator_ID v = k.

End Validators.

(** *** A local network

    The scenario of the statements on the default validators: a local
    network (the network identifiers are 12345 for the local network, 5
    and 7 for Songbird and Coston) whose environment names two custom
    validators, one of them twice and with a stray comma, which expire
    at the beginning of 2030.  The decoder of the scenario takes the
    bytes that follow the prefix; a [Validator] answers [ID] with its
    [nodeID]. *)
Definition ShortFromPrefixedString_bytes (s prefix : string) : option NodeID :=
  if String.prefix prefix s
  then Some (list_byte_of_string
               (substring (String.length prefix)
                          (String.length s - String.length prefix) s))
  else None.

Definition the_first_of_2030 : Time := (1893456000 * 1000000000)%Z.

Definition Getenv_local (name : string) : string :=
  if String.eqb name "CUSTOM_VALIDATORS" then "NodeID-A,,NodeID-B,NodeID-A"
  else if String.eqb name "CUSTOM_VALIDATORS_EXPIRATION" then "2030-01-01T00:00:00Z"
  else "".

Definition Parse_RFC3339_2030 (s : string) : option Time :=
  if String.eqb s "2030-01-01T00:00:00Z" then Some the_first_of_2030 else None.

Definition local_network : Imports := {|
  constants_LocalID := 12345%Z;
  constants_SongbirdID := 5%Z;
  constants_CostonID := 7%Z;
  ids_ShortFromPrefixedString := ShortFromPrefixedString_bytes;
  ids_NodeIDPrefix := "NodeID-";
  Validator_ID := nodeID;
  os_Getenv := Getenv_local;
  time_Parse_RFC3339 := Parse_RFC3339_2030
|}.

(** ** Handling messages *)

Section Handling.

(** The three helpers the type switch of [handleSyncMsg] calls are not
    among the sources.  [getIDs] (of the handler package) and [ids.ToID]
    decode identifiers, and fail ([None]) on bytes that are not one;
    [utils.IsUnique] tells whether a slice has no duplicate. *)
Variable getIDs : list bytes -> option (list ID).
Variable ids_ToID : bytes -> option ID.
Variable utils_IsUnique : list Z -> bool.

(** The [switch msg.EngineType] of [handleSyncMsg]. *)
Definition handleSyncMsg_engineType (msg : Message) (currentState : EngineState)
  : EngineType :=
  match msg_EngineType msg with
  | ENGINE_TYPE_AVALANCHE | ENGINE_TYPE_SNOWMAN =>
      (* The peer is requesting an engine type that has been initialized,
         so we should attempt to honor the request. *)
      msg_EngineType msg
  | _ =>
      (* Note: [msg.EngineType] may have been provided by the peer as an
         invalid option. I.E. not one of AVALANCHE, SNOWMAN, or
         UNSPECIFIED. In this case, we treat the value the same way as
         UNSPECIFIED.

         If the peer didn't request a specific engine type, we default to
         the current engine. *)
      es_Type currentState
  end.

(** The engine [handleSyncMsg] passes the message to, if any: the part of
    the function between taking the lock and the type switch.  [inl] is
    the [return nil] of a dropped message. *)
Definition handleSyncMsg_engine (msg : Message) : M (unit + common_Engine) :=
  let op := msg_Op msg in
  (* We will attempt to pass the message to the requested type for the
     state we are currently in. *)
  currentState <- ctx_State_Get ;;
  if EngineType_eqb (msg_EngineType msg) ENGINE_TYPE_SNOWMAN
     && EngineType_eqb (es_Type currentState) ENGINE_TYPE_AVALANCHE
  then
    (* The peer is requesting an engine type that hasn't been initialized
       yet. This means we know that this isn't a response, so we can
       safely drop the message. *)
    Log Debug "dropping sync message"
        ["uninitialized engine type"; Op_String op;
         EngineType_String (es_Type currentState);
         EngineType_String (msg_EngineType msg)] ;;
    ret (inl tt)
  else
    let engineType := handleSyncMsg_engineType msg currentState in
    em <- GetEngineManager ;;
    match Engine_Get (EngineManager_Get em engineType) (es_State currentState) with
    | None =>
        (* This should only happen if the peer is not following the
           protocol. *)
        Log Debug "dropping sync message"
            ["uninitialized engine state"; Op_String op;
             EngineType_String (es_Type currentState);
             EngineType_String (msg_EngineType msg);
             State_String (es_State currentState)] ;;
        ret (inl tt)
    | Some engine => ret (inr engine)
    end.

Definition Log_invalid_field (title : string) (op : Op) (field : string) : M unit :=
  Log Debug title [Op_String op; field].

(** The type switch of [handleSyncMsg]. *)
Definition handleSyncMsg_switch (engine : common_Engine) (nodeID : NodeID)
    (op : Op) (body : Payload) : M (option error) :=
  match body with
  (* State messages should always be sent to the snowman engine *)
  | p2p_GetStateSummaryFrontier RequestId =>
      call engine (common.GetStateSummaryFrontier nodeID RequestId)
  | p2p_StateSummaryFrontier RequestId Summary =>
      call engine (common.StateSummaryFrontier nodeID RequestId Summary)
  | message_GetStateSummaryFrontierFailed RequestID =>
      call engine (common.GetStateSummaryFrontierFailed nodeID RequestID)
  | p2p_GetAcceptedStateSummary RequestId Heights =>
      if negb (utils_IsUnique Heights) then
        Log_invalid_field "message with invalid field" GetAcceptedStateSummaryOp "Heights" ;;
        call engine (common.GetAcceptedStateSummaryFailed nodeID RequestId)
      else
        call engine (common.GetAcceptedStateSummary nodeID RequestId Heights)
  | p2p_AcceptedStateSummary RequestId SummaryIds =>
      match getIDs SummaryIds with
      | None =>
          Log_invalid_field "message with invalid field" AcceptedStateSummaryOp "SummaryIDs" ;;
          call engine (common.GetAcceptedStateSummaryFailed nodeID RequestId)
      | Some summaryIDs =>
          call engine (common.AcceptedStateSummary nodeID RequestId summaryIDs)
      end
  | message_GetAcceptedStateSummaryFailed RequestID =>
      call engine (common.GetAcceptedStateSummaryFailed nodeID RequestID)
  (* Bootstrapping messages may be forwarded to either avalanche or
     snowman engines, depending on the EngineType field *)
  | p2p_GetAcceptedFrontier RequestId =>
      call engine (common.GetAcceptedFrontier nodeID RequestId)
  | p2p_AcceptedFrontier RequestId ContainerIds =>
      match getIDs ContainerIds with
      | None =>
          Log_invalid_field "message with invalid field" AcceptedFrontierOp "ContainerIDs" ;;
          call engine (common.GetAcceptedFrontierFailed nodeID RequestId)
      | Some containerIDs =>
          call engine (common.AcceptedFrontier nodeID RequestId containerIDs)
      end
  | message_GetAcceptedFrontierFailed RequestID =>
      call engine (common.GetAcceptedFrontierFailed nodeID RequestID)
  | p2p_GetAccepted RequestId ContainerIds =>
      match getIDs ContainerIds with
      | None =>
          Log_invalid_field "message with invalid field" GetAcceptedOp "ContainerIDs" ;;
          ret None
      | Some containerIDs =>
          call engine (common.GetAccepted nodeID RequestId containerIDs)
      end
  | p2p_Accepted RequestId ContainerIds =>
      match getIDs ContainerIds with
      | None =>
          Log_invalid_field "message with invalid field" AcceptedOp "ContainerIDs" ;;
          call engine (common.GetAcceptedFailed nodeID RequestId)
      | Some containerIDs =>
          call engine (common.Accepted nodeID RequestId containerIDs)
      end
  | message_GetAcceptedFailed RequestID =>
      call engine (common.GetAcceptedFailed nodeID RequestID)
  | p2p_GetAncestors RequestId ContainerId =>
      match ids_ToID ContainerId with
      | None =>
          Log_invalid_field "dropping message with invalid field" GetAncestorsOp "ContainerID" ;;
          ret None
      | Some containerID =>
          call engine (common.GetAncestors nodeID RequestId containerID)
      end
  | message_GetAncestorsFailed RequestID =>
      call engine (common.GetAncestorsFailed nodeID RequestID)
  | p2p_Ancestors RequestId Containers =>
      call engine (common.Ancestors nodeID RequestId Containers)
  | p2p_Get RequestId ContainerId =>
      match ids_ToID ContainerId with
      | None =>
          Log_invalid_field "dropping message with invalid field" GetOp "ContainerID" ;;
          ret None
      | Some containerID =>
          call engine (common.Get nodeID RequestId containerID)
      end
  | message_GetFailed RequestID =>
      call engine (common.GetFailed nodeID RequestID)
  | p2p_Put RequestId Container =>
      call engine (common.Put nodeID RequestId Container)
  | p2p_PushQuery RequestId Container =>
      call engine (common.PushQuery nodeID RequestId Container)
  | p2p_PullQuery RequestId ContainerId =>
      match ids_ToID ContainerId with
      | None =>
          Log_invalid_field "dropping message with invalid field" PullQueryOp "ContainerID" ;;
          ret None
      | Some containerID =>
          call engine (common.PullQuery nodeID RequestId containerID)
      end
  | p2p_Chits RequestId PreferredContainerIds AcceptedContainerIds =>
      match getIDs PreferredContainerIds with
      | None =>
          Log_invalid_field "message with invalid field" ChitsOp "PreferredContainerIDs" ;;
          call engine (common.QueryFailed nodeID RequestId)
      | Some votes =>
          match getIDs AcceptedContainerIds with
          | None =>
              Log_invalid_field "message with invalid field" ChitsOp "AcceptedContainerIDs" ;;
              call engine (common.QueryFailed nodeID RequestId)
          | Some accepted =>
              call engine (common.Chits nodeID RequestId votes accepted)
          end
      end
  | message_QueryFailed RequestID =>
      call engine (common.QueryFailed nodeID RequestID)
  (* Connection messages can be sent to the currently executing engine *)
  | message_Connected NodeVersion =>
      call engine (common.Connected nodeID NodeVersion)
  | message_ConnectedSubnet SubnetID =>
      subnetConnector_ConnectedSubnet nodeID SubnetID
  | message_Disconnected =>
      call engine (common.Disconnected nodeID)
  | _ =>
      ret (Some (fmt_Errorf "attempt to submit unhandled sync msg %s from %s"
                   [Op_String op]))
  end.

(** Any returned error is treated as fatal *)
Definition handleSyncMsg (msg : Message) : M (option error) :=
  let nodeID := msg_NodeID msg in
  let op := msg_Op msg in
  let body := msg_Message msg in
  startTime <- h_clock_Time ;;
  (* Check if the chain is in normal operation at the start of message
     execution (may change during execution) *)
  state0 <- ctx_State_Get ;;
  let isNormalOp := State_eqb (es_State state0) NormalOp in
  Log Debug "forwarding sync message to consensus" [Op_String op] ;;
  Log Verbo "forwarding sync message to consensus" [Op_String op] ;;
  emit (Ev_StartProcessing nodeID startTime) ;;
  ctx_Lock_Lock ;;
  lockAcquiredTime <- h_clock_Time ;;
  r <- (e <- handleSyncMsg_engine msg ;;
        match e with
        | inl _ => ret None
        | inr engine =>
            (* Invariant: Response messages can never be dropped here. This
               is because the timeout has already been cleared. This means
               the engine should be invoked with a failure message if
               parsing of the response fails. *)
            handleSyncMsg_switch engine nodeID op body
        end) ;;
  (* the deferred function *)
  ctx_Lock_Unlock ;;
  endTime <- h_clock_Time ;;
  let msgHandlingTime_ := Time_Sub lockAcquiredTime startTime in
  let processingTime_ := Time_Sub endTime startTime in
  emit (Ev_StopProcessing nodeID endTime) ;;
  emit (Ev_Observe op msgHandlingTime msgHandlingTime_) ;;
  emit (Ev_Observe op processingTime processingTime_) ;;
  OnFinishedHandling (msg_InboundMessage msg) ;;
  Log Debug "finished handling sync message" [Op_String op] ;;
  (if (syncProcessingTimeWarnLimit <? processingTime_)%Z && isNormalOp
   then Log Warn "handling sync message took longer than expected" [Op_String op]
   else ret tt) ;;
  ret r.

(** Any returned error is treated as fatal *)
Definition executeAsyncMsg (msg : Message) : M (option error) :=
  let nodeID := msg_NodeID msg in
  let op := msg_Op msg in
  let body := msg_Message msg in
  startTime <- h_clock_Time ;;
  Log Debug "forwarding async message to consensus" [Op_String op] ;;
  Log Verbo "forwarding async message to consensus" [Op_String op] ;;
  emit (Ev_StartProcessing nodeID startTime) ;;
  r <- (state <- ctx_State_Get ;;
        em <- GetEngineManager ;;
        match Engine_Get (EngineManager_Get em (es_Type state)) (es_State state) with
        | None =>
            ret (Some (fmt_Errorf_w "%w %s running %s" errMissingEngine
                         [State_String (es_State state);
                          EngineType_String (es_Type state)]))
        | Some engine =>
            match body with
            | p2p_AppRequest RequestId AppBytes =>
                call engine (common.AppRequest nodeID RequestId (msg_Expiration msg) AppBytes)
            | p2p_AppResponse RequestId AppBytes =>
                call engine (common.AppResponse nodeID RequestId AppBytes)
            | message_AppRequestFailed RequestID =>
                call engine (common.AppRequestFailed nodeID RequestID)
            | p2p_AppGossip AppBytes =>
                call engine (common.AppGossip nodeID AppBytes)
            | message_CrossChainAppRequest SourceChainID RequestID Message =>
                call engine (common.CrossChainAppRequest SourceChainID RequestID
                               (msg_Expiration msg) Message)
            | message_CrossChainAppResponse SourceChainID RequestID Message =>
                call engine (common.CrossChainAppResponse SourceChainID RequestID Message)
            | message_CrossChainAppRequestFailed SourceChainID RequestID =>
                call engine (common.CrossChainAppRequestFailed SourceChainID RequestID)
            | _ =>
                ret (Some (fmt_Errorf "attempt to submit unhandled async msg %s from %s"
                             [Op_String op]))
            end
        end) ;;
  (* the deferred function *)
  endTime <- h_clock_Time ;;
  let processingTime_ := Time_Sub endTime startTime in
  emit (Ev_StopProcessing nodeID endTime) ;;
  (* There is no lock grabbed here, so both metrics are identical *)
  emit (Ev_Observe op processingTime processingTime_) ;;
  emit (Ev_Observe op msgHandlingTime processingTime_) ;;
  OnFinishedHandling (msg_InboundMessage msg) ;;
  Log Debug "finished handling async message" [Op_String op] ;;
  ret r.

(** The task [handleAsyncMsg] sends to the worker pool. *)
Definition handleAsyncMsg_task (msg : Message) : M unit :=
  err <- executeAsyncMsg msg ;;
  match err with
  | Some err =>
      StopWithError (fmt_Errorf_w "%w while processing async message: %s" err
                       [Op_String (msg_Op msg)])
  | None => ret tt
  end.

Definition handleAsyncMsg (msg : Message) : M unit :=
  Pool_Send msg.

(** Any returned error is treated as fatal *)
Definition handleChanMsg (msg : InboundMessage) : M (option error) :=
  let op := im_Op msg in
  let body := im_Message msg in
  startTime <- h_clock_Time ;;
  (* Check if the chain is in normal operation at the start of message
     execution (may change during execution) *)
  state0 <- ctx_State_Get ;;
  let isNormalOp := State_eqb (es_State state0) NormalOp in
  Log Debug "forwarding chan message to consensus" [Op_String op] ;;
  Log Verbo "forwarding chan message to consensus" [Op_String op] ;;
  ctx_Lock_Lock ;;
  lockAcquiredTime <- h_clock_Time ;;
  r <- (state <- ctx_State_Get ;;
        em <- GetEngineManager ;;
        match Engine_Get (EngineManager_Get em (es_Type state)) (es_State state) with
        | None =>
            ret (Some (fmt_Errorf_w "%w %s running %s" errMissingEngine
                         [State_String (es_State state);
                          EngineType_String (es_Type state)]))
        | Some engine =>
            match body with
            | message_VMMessage Notification =>
                call engine (common.Notify Notification)
            | message_GossipRequest =>
                (* TODO: After Cortina is activated, this can be removed as
                   everyone will have accepted the StopVertex. *)
                err <-
                  (if EngineType_eqb (es_Type state) ENGINE_TYPE_SNOWMAN then
                     match Engine_Get (EngineManager_Get em ENGINE_TYPE_AVALANCHE)
                                      (es_State state) with
                     | Some avalancheEngine =>
                         (* This chain was linearized, so we should gossip
                            the Avalanche accepted frontier to make sure
                            everyone eventually linearizes the chain. *)
                         call avalancheEngine common.Gossip
                     | None => ret None
                     end
                   else ret None) ;;
                match err with
                | Some err => ret (Some err)
                | None => call engine common.Gossip
                end
            | message_Timeout =>
                call engine common.Timeout
            | _ =>
                ret (Some (fmt_Errorf "attempt to submit unhandled chan msg %s"
                             [Op_String op]))
            end
        end) ;;
  (* the deferred function *)
  ctx_Lock_Unlock ;;
  endTime <- h_clock_Time ;;
  let msgHandlingTime_ := Time_Sub lockAcquiredTime startTime in
  let processingTime_ := Time_Sub endTime startTime in
  emit (Ev_Observe op msgHandlingTime msgHandlingTime_) ;;
  emit (Ev_Observe op processingTime processingTime_) ;;
  OnFinishedHandling msg ;;
  Log Debug "finished handling chan message" [Op_String op] ;;
  (if (syncProcessingTimeWarnLimit <? processingTime_)%Z && isNormalOp
   then Log Warn "handling chan message took longer than expected" [Op_String op]
   else ret tt) ;;
  ret r.

(** ** The dispatch loops *)

(** What one turn of a dispatch loop does to the loop: it goes on to the
    next turn, the function returns, or the goroutine is blocked (in
    [Pop], or in [select]). *)
Inductive Turn : Type :=
| Continue
| Return
| Blocked.

(** One turn of the loop of [dispatchSync]. *)
Definition dispatchSync_turn : M Turn :=
  (* Get the next message we should process. If the handler is shutting
     down, we may fail to pop a message. *)
  r <- popUnexpiredMsg syncQueue expired ;;
  match r with
  | Blocks => ret Blocked
  | NotOk => ret Return
  | Popped msg =>
      (* If there is an error handling the message, shut down the chain *)
      err <- handleSyncMsg msg ;;
      match err with
      | Some err =>
          StopWithError (fmt_Errorf_w "%w while processing sync message: %s" err
                           [Op_String (msg_Op msg)]) ;;
          ret Return
      | None => ret Continue
      end
  end.

(** One turn of the loop of [dispatchAsync]. *)
Definition dispatchAsync_turn : M Turn :=
  r <- popUnexpiredMsg asyncQueue asyncExpired ;;
  match r with
  | Blocks => ret Blocked
  | NotOk => ret Return
  | Popped msg => handleAsyncMsg msg ;; ret Continue
  end.

(** The communication [select] proceeds with, in [dispatchChans]. *)
Inductive SelectCase : Type :=
| recv_closingChan
| recv_msgFromVMChan (vmMSG : Z)
| recv_gossiper_C
| recv_timeouts.

(** Whether the communication can proceed.  [closingChan] can once it is
    closed and [timeouts] when it holds a value; the VM's channel and the
    ticker are the environment's.  When several can proceed, Go chooses
    one of them at random. *)
Definition can_proceed (c : SelectCase) (x : handler) : bool :=
  match c with
  | recv_closingChan => closingChan x
  | recv_msgFromVMChan _ => true
  | recv_gossiper_C => true
  | recv_timeouts => timeouts x
  end.

(** One turn of the loop of [dispatchChans], when [select] proceeds with
    [c]. *)
Definition dispatchChans_turn (c : SelectCase) : M Turn :=
  x <- get_h ;;
  match c with
  | recv_closingChan => ret Return
  | _ =>
      msg <- match c with
             | recv_msgFromVMChan vmMSG =>
                 ret (message_InternalVMMessage (ctx_NodeID x) vmMSG)
             | recv_gossiper_C =>
                 ret (message_InternalGossipRequest (ctx_NodeID x))
             | _ =>
                 modify_h (set_timeouts false) ;;
                 ret (message_InternalTimeout (ctx_NodeID x))
             end ;;
      err <- handleChanMsg msg ;;
      match err with
      | Some err =>
          StopWithError (fmt_Errorf_w "%w while processing async message: %s" err
                           [Op_String (im_Op msg)]) ;;
          ret Return
      | None => ret Continue
      end
  end.

(** A dispatcher goroutine: not started, in its loop, in the deferred
    [h.asyncMessagePool.Shutdown()] (which returns once the tasks sent to
    the pool have all run; only [dispatchAsync] has it), or returned. *)
Inductive Goroutine : Type :=
| not_started
| running
| in_Pool_Shutdown
| returned.

(** The goroutines of [dispatchSync], [dispatchAsync] and
    [dispatchChans]. *)
Record Goroutines : Type := mkGoroutines {
  go_dispatchSync : Goroutine;
  go_dispatchAsync : Goroutine;
  go_dispatchChans : Goroutine
}.

Definition no_goroutine : Goroutines :=
  mkGoroutines not_started not_started not_started.
Definition three_dispatchers : Goroutines :=
  mkGoroutines running running running.

(** [Start]: the goroutines it has started when it returns. *)
Definition Start : M (go_result Goroutines) :=
  ctx_Lock_Lock ;;
  gear <- selectStartingGear ;;
  match gear with
  | Panics reason => ret (Panics reason)
  | Returns (_, Some err) =>
      Log Error "chain failed to select starting gear" [] ;;
      shutdown ;;
      ctx_Lock_Unlock ;;
      ret (Returns no_goroutine)
  | Returns (None, None) =>
      ret (Panics "invalid memory address or nil pointer dereference")
  | Returns (Some gear, None) =>
      err <- call gear (common.Start 0) ;;
      match err with
      | Some err =>
          Log Error "chain failed to start" [] ;;
          shutdown ;;
          ctx_Lock_Unlock ;;
          ret (Returns no_goroutine)
      | None =>
          ctx_Lock_Unlock ;;
          ret (Returns three_dispatchers)
      end
  end.

(** [dispatchSync]: one turn of its loop and, when the function returns,
    the deferred [closeDispatcher]. *)
Definition dispatchSync : M Goroutine :=
  t <- dispatchSync_turn ;;
  match t with
  | Return => closeDispatcher ;; ret returned
  | _ => ret running
  end.

(** [dispatchAsync]: one turn of its loop; when the function returns, the
    deferred function first shuts the pool down ... *)
Definition dispatchAsync : M Goroutine :=
  t <- dispatchAsync_turn ;;
  match t with
  | Return => Pool_Shutdown ;; ret in_Pool_Shutdown
  | _ => ret running
  end.

(** ... and, once the pool has run its tasks, calls [closeDispatcher]. *)
Definition dispatchAsync_deferred : M Goroutine :=
  closeDispatcher ;; ret returned.

(** [dispatchChans]: one turn of its loop and, when the function returns,
    the deferred [gossiper.Stop()] and [closeDispatcher]. *)
Definition dispatchChans (c : SelectCase) : M Goroutine :=
  t <- dispatchChans_turn c ;;
  match t with
  | Return => closeDispatcher ;; ret returned
  | _ => ret running
  end.

(** A worker of the pool runs the task at position [i]. *)
Definition Pool_run (i : nat) : M unit :=
  x <- get_h ;;
  let tasks := pool_tasks (asyncMessagePool x) in
  match nth_error tasks i with
  | None => ret tt
  | Some msg =>
      modify_h (fun x => set_asyncMessagePool
                           (mkPool (firstn i tasks ++ skipn (S i) tasks)
                                   (pool_shutdown (asyncMessagePool x))) x) ;;
      handleAsyncMsg_task msg
  end.

(** ** The handler at work

    The handler, its three dispatcher goroutines, the workers of the pool
    and the callers of the handler (the router, the engines, the timers)
    run in parallel.  A step is one of them taking a turn; the turns of
    [dispatchSync] and [dispatchChans] and [closeDispatcher] exclude each
    other by [h.ctx.Lock]. *)
Record System : Type := mkSystem {
  world : World;
  go : Goroutines
}.

Definition set_go_dispatchSync (g : Goroutine) (gs : Goroutines) : Goroutines :=
  mkGoroutines g (go_dispatchAsync gs) (go_dispatchChans gs).
Definition set_go_dispatchAsync (g : Goroutine) (gs : Goroutines) : Goroutines :=
  mkGoroutines (go_dispatchSync gs) g (go_dispatchChans gs).
Definition set_go_dispatchChans (g : Goroutine) (gs : Goroutines) : Goroutines :=
  mkGoroutines (go_dispatchSync gs) (go_dispatchAsync gs) g.

Inductive step : System -> System -> Prop :=
| step_dispatchSync : forall s g w',
    go_dispatchSync (go s) = running ->
    dispatchSync (world s) = (g, w') ->
    step s (mkSystem w' (set_go_dispatchSync g (go s)))
| step_dispatchAsync : forall s g w',
    go_dispatchAsync (go s) = running ->
    dispatchAsync (world s) = (g, w') ->
    step s (mkSystem w' (set_go_dispatchAsync g (go s)))
| step_dispatchAsync_deferred : forall s g w',
    go_dispatchAsync (go s) = in_Pool_Shutdown ->
    pool_tasks (asyncMessagePool (h (world s))) = [] ->
    dispatchAsync_deferred (world s) = (g, w') ->
    step s (mkSystem w' (set_go_dispatchAsync g (go s)))
| step_dispatchChans : forall s c g w',
    go_dispatchChans (go s) = running ->
    can_proceed c (h (world s)) = true ->
    dispatchChans c (world s) = (g, w') ->
    step s (mkSystem w' (set_go_dispatchChans g (go s)))
| step_worker : forall s i w',
    Pool_run i (world s) = (tt, w') ->
    step s (mkSystem w' (go s))
| step_Push : forall s msg w',
    Push msg (world s) = (tt, w') ->
    step s (mkSystem w' (go s))
| step_RegisterTimeout : forall s w',
    RegisterTimeout_fires (world s) = (tt, w') ->
    step s (mkSystem w' (go s))
| step_Stop : forall s w',
    Stop (world s) = (tt, w') ->
    step s (mkSystem w' (go s))
| step_HealthCheck : forall s r w',
    HealthCheck (world s) = (r, w') ->
    step s (mkSystem w' (go s))
| step_State : forall s state w',
    (* an engine moves the chain to another state or type *)
    modify_h (set_ctx_State state) (world s) = (tt, w') ->
    step s (mkSystem w' (go s)).

Inductive steps : System -> System -> Prop :=
| steps_refl : forall s, steps s s
| steps_step : forall s s' s'', steps s s' -> step s' s'' -> steps s s''.

(** The handler as a successful [Start] leaves it: the three dispatchers
    run, none has reported closed, [closed] is open. *)
Definition started (s : System) : Prop :=
  go s = three_dispatchers
  /\ numDispatchersClosed (h (world s)) = 0%Z
  /\ closed (h (world s)) = 0.

(** * Properties *)

(** ** What the statements speak of *)

(** The events of [w'] that [w] does not have yet. *)
Definition since (w w' : World) : Trace :=
  skipn (List.length (events w)) (events w').

(** The engine calls of a trace, in order: the name of the engine and the
    call. *)
Fixpoint calls (t : Trace) : list (string * common.EngineCall) :=
  match t with
  | [] => []
  | Ev_Engine name c :: t' => (name, c) :: calls t'
  | _ :: t' => calls t'
  end.

(** The completion callbacks of a trace, in order. *)
Fixpoint completions (t : Trace) : list InboundMessage :=
  match t with
  | [] => []
  | Ev_OnFinishedHandling m :: t' => m :: completions t'
  | _ :: t' => completions t'
  end.

(** The operation kinds [Push] sends to the async queue. *)
Definition async_ops : list Op :=
  [AppRequestOp; AppRequestFailedOp; AppResponseOp; AppGossipOp;
   CrossChainAppRequestOp; CrossChainAppRequestFailedOp;
   CrossChainAppResponseOp].

(** The handler after it has taken the lock in [handleSyncMsg]. *)
Definition sync_locked (msg : Message) (w : World) : World :=
  mkWorld (h w) (clock w) (S (S (clock_reads w)))
    (events w
       ++ [Ev_Log Debug "forwarding sync message to consensus" [Op_String (msg_Op msg)];
           Ev_Log Verbo "forwarding sync message to consensus" [Op_String (msg_Op msg)];
           Ev_StartProcessing (msg_NodeID msg) (clock w (clock_reads w));
           Ev_Lock]).

(** The error [executeAsyncMsg] and [handleChanMsg] return when the chain
    has no engine for its current type and state. *)
Definition missing_engine_error (state : EngineState) : error :=
  fmt_Errorf_w "%w %s running %s" errMissingEngine
    [State_String (es_State state); EngineType_String (es_Type state)].

Definition fatal_log : Event :=
  Ev_Log Fatal "shutting down chain" ["received an unexpected error"].

(** The handler after it has taken the lock in [handleChanMsg]. *)
Definition chan_locked (msg : InboundMessage) (w : World) : World :=
  mkWorld (h w) (clock w) (S (S (clock_reads w)))
    (events w
       ++ [Ev_Log Debug "forwarding chan message to consensus" [Op_String (im_Op msg)];
           Ev_Log Verbo "forwarding chan message to consensus" [Op_String (im_Op msg)];
           Ev_Lock]).

(** What [popUnexpiredMsg] does with an expired message. *)
Definition expired_events (expired : Counter) (msg : Message) : Trace :=
  [Ev_Log Debug "dropping message" ["timeout"; Op_String (msg_Op msg)];
   Ev_SpanAddEvent "dropping message";
   Ev_Inc expired;
   Ev_OnFinishedHandling (msg_InboundMessage msg)].

(** Whether the deadline of [msg] has passed when it is popped as the
    [i]-th message of a call of [popUnexpiredMsg] that starts in [w]: the
    clock is read once for every message popped. *)
Definition expired_at (w : World) (i : nat) (msg : Message) : bool :=
  Time_After (clock w (clock_reads w + i)) (msg_Expiration msg).

(** The events of the terminal shutdown routine: the [Shutdown] of an
    engine, the launch of [onStopped] and the closing of [h.closed]. *)
Definition is_terminal (e : Event) : bool :=
  match e with
  | Ev_Engine _ common.Shutdown => true
  | Ev_go_onStopped => true
  | Ev_close_closed => true
  | _ => false
  end.

Definition terminal (t : Trace) : Trace := filter is_terminal t.

(** How many times a trace closes [h.closed]. *)
Fixpoint closes (t : Trace) : nat :=
  match t with
  | [] => 0
  | Ev_close_closed :: t' => S (closes t')
  | _ :: t' => closes t'
  end.

(** The debug line with which [handleSyncMsg] starts. *)
Definition is_sync_dispatch (e : Event) : bool :=
  match e with
  | Ev_Log Debug msg _ => String.eqb msg "forwarding sync message to consensus"
  | _ => false
  end.

(** The events that only the shutdown routine and the sync dispatcher
    produce. *)
Definition is_marked (e : Event) : bool := is_terminal e || is_sync_dispatch e.

(** [w'] comes after [w], the count of closed dispatchers and [h.closed]
    are as they were, and no event that [P] marks has occurred in
    between. *)
Definition quiet_since (P : Event -> bool) (w w' : World) : Prop :=
  numDispatchersClosed (h w') = numDispatchersClosed (h w)
  /\ closed (h w') = closed (h w)
  /\ exists l, events w' = events w ++ l /\ filter P l = [].

Definition quiet {A : Type} (P : Event -> bool) (m : M A) : Prop :=
  forall w, quiet_since P w (snd (m w)).

(** How many of the three dispatchers have returned. *)
Definition has_returned (g : Goroutine) : nat :=
  match g with
  | returned => 1
  | _ => 0
  end.

Definition dispatchers_returned (gs : Goroutines) : nat :=
  has_returned (go_dispatchSync gs)
  + has_returned (go_dispatchAsync gs)
  + has_returned (go_dispatchChans gs).

(** The states the three goroutines go through once started. *)
Definition dispatchers_started (gs : Goroutines) : Prop :=
  (go_dispatchSync gs = running \/ go_dispatchSync gs = returned)
  /\ (go_dispatchAsync gs = running \/ go_dispatchAsync gs = in_Pool_Shutdown
      \/ go_dispatchAsync gs = returned)
  /\ (go_dispatchChans gs = running \/ go_dispatchChans gs = returned).

(** What holds of the handler once it was started in [s0]: the count of
    closed dispatchers is the number of dispatchers that have returned,
    and [h.closed] was closed as often as the trace says: not at all while
    a dispatcher has not returned, once when the three have. *)
Definition shutdown_invariant (s0 s : System) : Prop :=
  let n := dispatchers_returned (go s) in
  dispatchers_started (go s)
  /\ numDispatchersClosed (h (world s)) = Z.of_nat n
  /\ exists l,
       events (world s) = events (world s0) ++ l
       /\ closes l = closed (h (world s))
       /\ (n < 3 -> closed (h (world s)) = 0 /\ terminal l = [])
       /\ (n = 3 -> closed (h (world s)) = 1).

(** A step of the handler in which the sync dispatcher has no part and no
    dispatcher returns. *)
Definition others_go_on (gs gs' : Goroutines) : Prop :=
  go_dispatchSync gs' = go_dispatchSync gs
  /\ dispatchers_returned gs' = dispatchers_returned gs
  /\ (dispatchers_started gs -> dispatchers_started gs').

(** A step of the handler in which the async or the chans dispatcher
    returns. *)
Definition other_returns (gs gs' : Goroutines) : Prop :=
  go_dispatchSync gs' = go_dispatchSync gs
  /\ dispatchers_returned gs' = S (dispatchers_returned gs)
  /\ (dispatchers_started gs -> dispatchers_started gs').

(** The error [dispatchSync] passes to [StopWithError]. *)
Definition sync_error (err : error) (msg : Message) : error :=
  fmt_Errorf_w "%w while processing sync message: %s" err [Op_String (msg_Op msg)].

(** The calls through which a message reaches an engine. *)
Definition is_message_dispatch (e : Event) : bool :=
  match e with
  | Ev_Engine _ c => common.is_message_call c
  | _ => false
  end.

(** The handler finds no engine for the current type and state. *)
Definition no_current_engine (w : World) : Prop :=
  Engine_Get (EngineManager_Get (engineManager (h w)) (es_Type (ctx_State (h w))))
             (es_State (ctx_State (h w))) = None.

(** "A message that finds no engine is dropped, whatever its kind, and
    this is no error": the three handling functions return no error. *)
Definition missing_engine_never_an_error : Prop :=
  forall w,
    no_current_engine w ->
    (forall msg,
       msg_EngineType msg = ENGINE_TYPE_UNSPECIFIED ->
       fst (handleSyncMsg msg w) = None)
    /\ (forall msg, fst (executeAsyncMsg msg w) = None)
    /\ (forall msg, fst (handleChanMsg msg w) = None).

(** The chain was linearized: it runs Snowman and still has an Avalanche
    engine for its state. *)
Definition linearized (w : World) (engine avalancheEngine : common_Engine) : Prop :=
  es_Type (ctx_State (h w)) = ENGINE_TYPE_SNOWMAN
  /\ Engine_Get (EngineManager_Get (engineManager (h w)) ENGINE_TYPE_SNOWMAN)
                (es_State (ctx_State (h w))) = Some engine
  /\ Engine_Get (EngineManager_Get (engineManager (h w)) ENGINE_TYPE_AVALANCHE)
                (es_State (ctx_State (h w))) = Some avalancheEngine.

(** "On a linearized chain a gossip request gossips the old frontier and
    then calls the current engine's Gossip." *)
Definition gossip_old_and_current : Prop :=
  forall w engine avalancheEngine,
    linearized w engine avalancheEngine ->
    calls (since w (snd (handleChanMsg (message_InternalGossipRequest (ctx_NodeID (h w))) w)))
    = [(engine_name avalancheEngine, common.Gossip);
       (engine_name engine, common.Gossip)].

(** "The old frontier is gossiped one time": once a gossip request has
    gossiped it, the next one does not. *)
Definition gossip_old_one_time : Prop :=
  forall w engine avalancheEngine,
    linearized w engine avalancheEngine ->
    let request := message_InternalGossipRequest (ctx_NodeID (h w)) in
    let w1 := snd (handleChanMsg request w) in
    let w2 := snd (handleChanMsg request w1) in
    In (engine_name avalancheEngine, common.Gossip) (calls (since w w1)) ->
    ~ In (engine_name avalancheEngine, common.Gossip) (calls (since w1 w2)).

(** A response whose payload does not decode: the operation of the
    message and the failure callback that answers it. *)
Definition undecodable_response (msg : Message) (op : Op) (c : common.EngineCall)
  : Prop :=
  (exists RequestId SummaryIds,
     msg_Message msg = p2p_AcceptedStateSummary RequestId SummaryIds
     /\ getIDs SummaryIds = None
     /\ op = AcceptedStateSummaryOp
     /\ c = common.GetAcceptedStateSummaryFailed (msg_NodeID msg) RequestId)
  \/ (exists RequestId ContainerIds,
        msg_Message msg = p2p_AcceptedFrontier RequestId ContainerIds
        /\ getIDs ContainerIds = None
        /\ op = AcceptedFrontierOp
        /\ c = common.GetAcceptedFrontierFailed (msg_NodeID msg) RequestId)
  \/ (exists RequestId ContainerIds,
        msg_Message msg = p2p_Accepted RequestId ContainerIds
        /\ getIDs ContainerIds = None
        /\ op = AcceptedOp
        /\ c = common.GetAcceptedFailed (msg_NodeID msg) RequestId)
  \/ (exists RequestId PreferredContainerIds AcceptedContainerIds,
        msg_Message msg
        = p2p_Chits RequestId PreferredContainerIds AcceptedContainerIds
        /\ (getIDs PreferredContainerIds = None \/ getIDs AcceptedContainerIds = None)
        /\ op = ChitsOp
        /\ c = common.QueryFailed (msg_NodeID msg) RequestId).

(** The statement that a response whose payload does not decode is never
    dropped in silence: the handler always calls the failure callback. *)
Definition undecodable_response_never_dropped : Prop :=
  forall msg w op c,
    undecodable_response msg op c ->
    exists engine, In (engine, c) (calls (since w (snd (handleSyncMsg msg w)))).

(** "After an engine error in the sync dispatcher no message is dispatched
    to any engine of the chain": in no run of the handler. *)
Definition no_dispatch_after_sync_error : Prop :=
  forall (s0 s1 : System) (msg : Message) (w1 : World)
         (engine : common_Engine) (pre post : Trace) (c : common.EngineCall)
         (err : error),
    started s0 ->
    steps s0 s1 ->
    go_dispatchSync (go s1) = running ->
    popUnexpiredMsg syncQueue expired (world s1) = (Popped msg, w1) ->
    fst (handleSyncMsg_engine msg w1) = inr engine ->
    since w1 (snd (handleSyncMsg msg w1))
    = pre ++ Ev_Engine (engine_name engine) c :: post ->
    engine_returns engine (events w1 ++ pre) c = Some err ->
    forall s3,
      steps (mkSystem (snd (dispatchSync (world s1)))
                      (set_go_dispatchSync (fst (dispatchSync (world s1))) (go s1)))
            s3 ->
      filter is_message_dispatch (since (snd (dispatchSync (world s1))) (world s3)) = [].

(** ** The lock, the times, shutdown and the balance of messages *)

(** The operations on [h.ctx.Lock]. *)
Definition is_lock_op (e : Event) : bool :=
  match e with
  | Ev_Lock | Ev_Unlock => true
  | _ => false
  end.

Definition lock_ops (t : Trace) : Trace := filter is_lock_op t.

(** The events of a trace that occur while [h.ctx.Lock] is not held, when
    the trace begins with the lock held or not ([held]). *)
Fixpoint unlocked (held : bool) (t : Trace) : Trace :=
  match t with
  | [] => []
  | Ev_Lock :: t' => unlocked true t'
  | Ev_Unlock :: t' => unlocked false t'
  | e :: t' => if held then unlocked held t' else e :: unlocked held t'
  end.

(** The calls into the consensus: a method of an engine, or the subnet
    connector. *)
Definition is_consensus_call (e : Event) : bool :=
  match e with
  | Ev_Engine _ _ | Ev_ConnectedSubnet _ _ => true
  | _ => false
  end.

(** The events of the part of [handleSyncMsg] that runs under the lock:
    debug lines and calls into the consensus. *)
Definition is_dispatch_event (e : Event) : bool :=
  match e with
  | Ev_Log Debug _ _ => true
  | _ => is_consensus_call e
  end.

(** The durations a trace reports to a histogram: the [Duration] that the
    code converts with [float64]. *)
Fixpoint observed (hist : Histogram) (t : Trace) : list Duration :=
  match t with
  | [] => []
  | Ev_Observe _ processingTime d :: t' =>
      match hist with
      | processingTime => d :: observed hist t'
      | msgHandlingTime => observed hist t'
      end
  | Ev_Observe _ msgHandlingTime d :: t' =>
      match hist with
      | msgHandlingTime => d :: observed hist t'
      | processingTime => observed hist t'
      end
  | _ :: t' => observed hist t'
  end.

(** The warnings of a trace. *)
Definition is_warning (e : Event) : bool :=
  match e with
  | Ev_Log Warn _ _ => true
  | _ => false
  end.

(** The errors with which the three type switches refuse a payload that
    is none of theirs. *)
Definition unhandled_sync_msg (op : Op) : error :=
  fmt_Errorf "attempt to submit unhandled sync msg %s from %s" [Op_String op].
Definition unhandled_async_msg (op : Op) : error :=
  fmt_Errorf "attempt to submit unhandled async msg %s from %s" [Op_String op].
Definition unhandled_chan_msg (op : Op) : error :=
  fmt_Errorf "attempt to submit unhandled chan msg %s" [Op_String op].

(** The engine registered for the current type and state of the chain. *)
Definition current_engine (w : World) : option common_Engine :=
  Engine_Get (EngineManager_Get (engineManager (h w)) (es_Type (ctx_State (h w))))
             (es_State (ctx_State (h w))).

(** What [Stop] adds to the trace when it runs its function. *)
Definition Stop_events (w : World) : Trace :=
  [Ev_QueueShutdown syncQueue; Ev_QueueShutdown asyncQueue; Ev_close_closingChan;
   match Engine_Get (EngineManager_Get (engineManager (h w)) (es_Type (ctx_State (h w))))
                    Bootstrapping with
   | Some bootstrapper => Ev_Engine (engine_name bootstrapper) common.Halt
   | None => Ev_Log Error "bootstrapping engine doesn't exists"
               [EngineType_String (es_Type (ctx_State (h w)))]
   end].

(** The handler fields that only [Stop] writes, and the rest. *)
Definition stopped_fields (x : handler) : bool * bool * bool * bool :=
  (closeOnce x, closingChan x,
   mq_closed (syncMessageQueue x), mq_closed (asyncMessageQueue x)).

Definition other_fields (x : handler) :=
  (ctx_NodeID x, ctx_State x, engineManager x, onStopped x,
   mq_msgs (syncMessageQueue x), mq_msgs (asyncMessageQueue x),
   asyncMessagePool x, timeouts x, numDispatchersClosed x, closed x,
   metrics_expired x, metrics_asyncExpired x, subnetConnector x).


(** [w'] comes after [w], the part [F] of the handler is as it was, and no
    event that [P] marks has occurred in between. *)
Definition frame_since {T : Type} (P : Event -> bool) (F : handler -> T)
    (w w' : World) : Prop :=
  F (h w') = F (h w)
  /\ exists l, events w' = events w ++ l /\ filter P l = [].

Definition frame {A T : Type} (P : Event -> bool) (F : handler -> T) (m : M A) : Prop :=
  forall w, frame_since P F w (snd (m w)).

(** No event. *)
Definition no_event (e : Event) : bool := false.

(** What the handler is configured with: its node, the engines, the
    [onStopped] callback and the subnet connector. *)
Definition configuration (x : handler) :=
  (ctx_NodeID x, engineManager x, onStopped x, subnetConnector x).

(** The closing of [closingChan]. *)
Definition is_close_closingChan (e : Event) : bool :=
  match e with
  | Ev_close_closingChan => true
  | _ => false
  end.

(** [w'] comes after [w], and in between either [Stop] has not run its
    function (the fields it writes are as they were, [closingChan] was not
    closed), or it has run it, once: it had not run before, the fields it
    writes are all set, [closingChan] was closed once. *)
Definition stop_since (w w' : World) : Prop :=
  exists l,
    events w' = events w ++ l
    /\ ((stopped_fields (h w') = stopped_fields (h w)
         /\ filter is_close_closingChan l = [])
        \/ (closeOnce (h w) = false
            /\ stopped_fields (h w') = (true, true, true, true)
            /\ filter is_close_closingChan l = [Ev_close_closingChan])).

Definition stops {A : Type} (m : M A) : Prop :=
  forall w, stop_since w (snd (m w)).

(** [Stop] has run: the handler is shutting down. *)
Definition stopping (w : World) : Prop :=
  stopped_fields (h w) = (true, true, true, true).

(** The tasks in the worker pool. *)
Definition pool_of (x : handler) : list Message := pool_tasks (asyncMessagePool x).

(** The messages the handler holds: in its two queues and in the worker
    pool. *)
Definition held (x : handler) : nat :=
  List.length (mq_msgs (syncMessageQueue x))
  + List.length (mq_msgs (asyncMessageQueue x))
  + List.length (pool_of x).

Definition holdings (x : handler) :=
  (mq_msgs (syncMessageQueue x), mq_msgs (asyncMessageQueue x), pool_of x).

(** A message handed to [Push]. *)
Definition is_push (e : Event) : bool :=
  match e with
  | Ev_QueuePush _ _ => true
  | _ => false
  end.

(** A message made by the chans dispatcher: [handleChanMsg] begins with
    this line. *)
Definition is_chan_message (e : Event) : bool :=
  match e with
  | Ev_Log Verbo msg _ => String.eqb msg "forwarding chan message to consensus"
  | _ => false
  end.

(** The events that count in the balance of messages. *)
Definition is_balance_event (e : Event) : bool :=
  match e with
  | Ev_OnFinishedHandling _ => true
  | _ => is_push e || is_chan_message e
  end.

(** The messages the handler holds, in its two queues and in the worker
    pool. *)
Definition held_messages (x : handler) : list InboundMessage :=
  map msg_InboundMessage
      (mq_msgs (syncMessageQueue x) ++ mq_msgs (asyncMessageQueue x) ++ pool_of x).

(** The messages handed to [Push], in order. *)
Fixpoint pushed (t : Trace) : list InboundMessage :=
  match t with
  | [] => []
  | Ev_QueuePush _ m :: t' => msg_InboundMessage m :: pushed t'
  | _ :: t' => pushed t'
  end.

(** The lines with which [handleChanMsg] announces its messages, in
    order: what each says of its message. *)
Fixpoint chan_announcements (t : Trace) : list (list string) :=
  match t with
  | [] => []
  | Ev_Log Verbo msg fields :: t' =>
      if String.eqb msg "forwarding chan message to consensus"
      then fields :: chan_announcements t'
      else chan_announcements t'
  | _ :: t' => chan_announcements t'
  end.

(** What [handleChanMsg] says of a message when it announces it. *)
Definition announced (m : InboundMessage) : list string := [Op_String (im_Op m)].

(** The messages the chans dispatcher makes: a notification of the VM, a
    gossip request or a timeout, of the node of the handler. *)
Definition made_by_dispatchChans (nodeID : NodeID) (m : InboundMessage) : Prop :=
  (exists vmMSG, m = message_InternalVMMessage nodeID vmMSG)
  \/ m = message_InternalGossipRequest nodeID
  \/ m = message_InternalTimeout nodeID.

Definition ledger_fields (x : handler) := (ctx_NodeID x, holdings x).

(** [w'] comes after [w]; in between the chans dispatcher has made the
    messages [made], and the messages completed, those the handler holds
    at the end and those taken off it and not completed yet ([taken]) are,
    up to their order, the messages given to be completed ([given]),
    those the handler held at the beginning, those handed to [Push] and
    those made. *)
Definition ledger_since (given taken made : list InboundMessage) (w w' : World)
  : Prop :=
  ctx_NodeID (h w') = ctx_NodeID (h w)
  /\ Forall (made_by_dispatchChans (ctx_NodeID (h w))) made
  /\ exists l,
       events w' = events w ++ l
       /\ map announced made = chan_announcements l
       /\ Permutation (completions l ++ held_messages (h w') ++ taken)
                      (given ++ held_messages (h w) ++ pushed l ++ made).

(** ** Proofs *)

(** Unfolding the primitives of the monad. *)
Ltac run :=
  cbv [bind ret get_h modify_h emit h_clock_Time Log ctx_Lock_Lock
       ctx_Lock_Unlock ctx_State_Get call call_Halt call_IsEnabled
       call_HealthCheck subnetConnector_ConnectedSubnet OnFinishedHandling
       Inc GetEngineManager Log_invalid_field];
  cbn [h clock clock_reads events fst snd].

(** Unfolding the primitives of the monad in a hypothesis. *)
(** Running a computation in a hypothesis. *)
Ltac run_in H :=
  cbv [bind ret get_h modify_h emit h_clock_Time Log ctx_Lock_Lock
       ctx_Lock_Unlock ctx_State_Get call call_Halt call_IsEnabled
       call_HealthCheck subnetConnector_ConnectedSubnet OnFinishedHandling
       Inc GetEngineManager Log_invalid_field] in H;
  cbn [h clock clock_reads events fst snd] in H.

(** The result and the world of a computation that has been run in [H]. *)
Ltac ran H :=
  injection H as <- <-; cbn [h clock clock_reads events fst snd].

Lemma is_async_op_In (op : Op) : is_async_op op = true <-> In op async_ops.
Proof.
  unfold async_ops; destruct op; simpl; split; intros H;
    try reflexivity; try discriminate; try tauto;
    repeat (destruct H as [H | H]; try discriminate H); contradiction.
Qed.

Lemma Push_is_async (msg : Message) :
  Push msg = MessageQueue_Push (if is_async_op (msg_Op msg) then asyncQueue else syncQueue) msg.
Proof. unfold Push; destruct (msg_Op msg); reflexivity. Qed.

Lemma MessageQueue_Push_other (q q' : QueueName) (msg : Message) (w : World) :
  q <> q' ->
  get_queue q' (h (snd (MessageQueue_Push q msg w))) = get_queue q' (h w).
Proof.
  intros Hq. unfold MessageQueue_Push. run.
  destruct (mq_closed (get_queue q (h w))); run;
    destruct q, q'; try congruence; reflexivity.
Qed.

Lemma MessageQueue_Push_msgs (q : QueueName) (msg : Message) (w : World) :
  mq_msgs (get_queue q (h (snd (MessageQueue_Push q msg w))))
  = if mq_closed (get_queue q (h w))
    then mq_msgs (get_queue q (h w))
    else mq_msgs (get_queue q (h w)) ++ [msg].
Proof.
  unfold MessageQueue_Push. run.
  destruct (mq_closed (get_queue q (h w))); run; destruct q; reflexivity.
Qed.

Lemma MessageQueue_Push_events (q : QueueName) (msg : Message) (w : World) :
  events (snd (MessageQueue_Push q msg w))
  = events w ++ Ev_QueuePush q msg
      :: (if mq_closed (get_queue q (h w))
          then [Ev_OnFinishedHandling (msg_InboundMessage msg)] else []).
Proof.
  unfold MessageQueue_Push. run.
  destruct (mq_closed (get_queue q (h w))); run;
    rewrite <- ?app_assoc; reflexivity.
Qed.

Lemma Push_routes_to (msg : Message) (w : World) (q other : QueueName) :
  q = (if is_async_op (msg_Op msg) then asyncQueue else syncQueue) ->
  other <> q ->
  Push msg w = MessageQueue_Push q msg w
  /\ get_queue other (h (snd (Push msg w))) = get_queue other (h w)
  /\ mq_msgs (get_queue q (h (snd (Push msg w))))
     = (if mq_closed (get_queue q (h w))
        then mq_msgs (get_queue q (h w))
        else mq_msgs (get_queue q (h w)) ++ [msg])
  /\ (forall m, ~ In (Ev_QueuePush other m)
                    (skipn (List.length (events w)) (events (snd (Push msg w)))))
  /\ In (Ev_QueuePush q msg)
        (skipn (List.length (events w)) (events (snd (Push msg w)))).
Proof.
  intros Hq Hne. rewrite Push_is_async, <- Hq.
  split; [reflexivity |].
  split; [apply MessageQueue_Push_other; congruence |].
  split; [apply MessageQueue_Push_msgs |].
  rewrite MessageQueue_Push_events.
  rewrite skipn_app, skipn_all, Nat.sub_diag. cbn [skipn app].
  split.
  - intros m [H | H]; [congruence |].
    destruct (mq_closed (get_queue q (h w))); cbn in H;
      [destruct H as [H | []]; discriminate | contradiction].
  - left; reflexivity.
Qed.

(** C9.  [Push] hands a message whose operation kind is one of the seven
    application kinds to the async queue, which appends it, and neither
    pushes to the sync queue nor changes it; it hands every other message
    to the sync queue, which appends it, and neither pushes to the async
    queue nor changes it.  (A queue that was shut down runs the
    completion callback of the message instead of appending it.) *)
Theorem Push_routes_by_op (msg : Message) (w : World) :
  let w' := snd (Push msg w) in
  let pushes := skipn (List.length (events w)) (events w') in
  (In (msg_Op msg) async_ops ->
     Push msg w = MessageQueue_Push asyncQueue msg w
     /\ syncMessageQueue (h w') = syncMessageQueue (h w)
     /\ mq_msgs (asyncMessageQueue (h w'))
        = (if mq_closed (asyncMessageQueue (h w))
           then mq_msgs (asyncMessageQueue (h w))
           else mq_msgs (asyncMessageQueue (h w)) ++ [msg])
     /\ (forall m, ~ In (Ev_QueuePush syncQueue m) pushes)
     /\ In (Ev_QueuePush asyncQueue msg) pushes)
  /\ (~ In (msg_Op msg) async_ops ->
     Push msg w = MessageQueue_Push syncQueue msg w
     /\ asyncMessageQueue (h w') = asyncMessageQueue (h w)
     /\ mq_msgs (syncMessageQueue (h w'))
        = (if mq_closed (syncMessageQueue (h w))
           then mq_msgs (syncMessageQueue (h w))
           else mq_msgs (syncMessageQueue (h w)) ++ [msg])
     /\ (forall m, ~ In (Ev_QueuePush asyncQueue m) pushes)
     /\ In (Ev_QueuePush syncQueue msg) pushes).
Proof.
  intros w' pushes; split; intros Hin.
  - apply is_async_op_In in Hin.
    apply (Push_routes_to msg w asyncQueue syncQueue);
      [rewrite Hin; reflexivity | discriminate].
  - assert (E : is_async_op (msg_Op msg) = false).
    { destruct (is_async_op (msg_Op msg)) eqn:E; [| reflexivity].
      apply is_async_op_In in E. contradiction. }
    apply (Push_routes_to msg w syncQueue asyncQueue);
      [rewrite E; reflexivity | discriminate].
Qed.

Lemma since_app (w w' : World) (l : Trace) :
  events w' = events w ++ l -> since w w' = l.
Proof.
  intros E. unfold since. rewrite E, skipn_app, skipn_all, Nat.sub_diag.
  reflexivity.
Qed.

Lemma calls_app (t u : Trace) : calls (t ++ u) = calls t ++ calls u.
Proof.
  induction t as [| e t IH]; [reflexivity |].
  destruct e; cbn [calls app]; rewrite ?IH; reflexivity.
Qed.

Lemma completions_app (t u : Trace) :
  completions (t ++ u) = completions t ++ completions u.
Proof.
  induction t as [| e t IH]; [reflexivity |].
  destruct e; cbn [completions app]; rewrite ?IH; reflexivity.
Qed.

(** Bringing a trace to the form [events w ++ l]. *)
Ltac trace := repeat rewrite <- app_assoc; cbn [app].

(** C10.  [HealthCheck] takes the consensus lock, reads the current state
    and looks the engine of the current type and state up.  When none is
    registered it returns no result and an error that wraps
    [errMissingEngine] and names the state and the type, without calling
    any engine; otherwise it calls the [HealthCheck] of that engine, and
    of no other, and returns exactly what it returned.  The lock is
    released in both cases. *)
Theorem HealthCheck_current_engine (w : World) :
  let state := ctx_State (h w) in
  let current :=
    Engine_Get (EngineManager_Get (engineManager (h w)) (es_Type state))
               (es_State state) in
  (current = None ->
     exists err,
       fst (HealthCheck w) = (None, Some err)
       /\ err = fmt_Errorf_w "%w %s running %s" errMissingEngine
                  [State_String (es_State state); EngineType_String (es_Type state)]
       /\ errors_Is err errMissingEngine = true
       /\ since w (snd (HealthCheck w)) = [Ev_Lock; Ev_Unlock])
  /\ (forall engine, current = Some engine ->
        fst (HealthCheck w) = engine_HealthCheck engine (events w ++ [Ev_Lock])
        /\ since w (snd (HealthCheck w))
           = [Ev_Lock; Ev_Engine (engine_name engine) common.HealthCheck; Ev_Unlock]).
Proof.
  intros state current; split.
  - intros Hnone. eexists. unfold HealthCheck. run.
    fold state. fold current. rewrite Hnone. run.
    repeat split. apply since_app. cbn [events]. trace. reflexivity.
  - intros engine Hsome. unfold HealthCheck. run.
    fold state. fold current. rewrite Hsome. run.
    split; [reflexivity |]. apply since_app. cbn [events]. trace. reflexivity.
Qed.

(** C3.  [selectStartingGear] reads the engine type recorded in the
    consensus context.  When the engine manager has no engines for that
    type it fails with [errNoStartingGear]; when no state syncer is
    registered for that type it returns the bootstrapper, without calling
    any engine; when a state syncer is registered and answers [IsEnabled]
    with true, it calls [Clear] on the bootstrapper and returns the state
    syncer, together with what [Clear] returned. *)
Theorem selectStartingGear_gear (w : World) :
  let gears := EngineManager_Get (engineManager (h w)) (es_Type (ctx_State (h w))) in
  (gears = None ->
     selectStartingGear w = (Returns (None, Some errNoStartingGear), w))
  /\ (forall engines,
        gears = Some engines -> StateSyncer engines = None ->
        selectStartingGear w = (Returns (Bootstrapper engines, None), w))
  /\ (forall engines stateSyncer bootstrapper,
        gears = Some engines ->
        StateSyncer engines = Some stateSyncer ->
        Bootstrapper engines = Some bootstrapper ->
        engine_IsEnabled stateSyncer (events w) = (true, None) ->
        let enabled := Ev_Engine (engine_name stateSyncer) common.IsEnabled in
        let cleared := Ev_Engine (engine_name bootstrapper) common.Clear in
        fst (selectStartingGear w)
        = Returns (Some stateSyncer,
                   engine_returns bootstrapper (events w ++ [enabled]) common.Clear)
        /\ since w (snd (selectStartingGear w)) = [enabled; cleared]).
Proof.
  intros gears. split; [| split].
  - intros E. unfold selectStartingGear. run. fold gears. rewrite E.
    destruct w; reflexivity.
  - intros engines E Hs. unfold selectStartingGear. run. fold gears.
    rewrite E, Hs. destruct w; reflexivity.
  - intros engines stateSyncer bootstrapper E Hs Hb Hen enabled cleared.
    unfold selectStartingGear. run. fold gears.
    rewrite E, Hs. run. rewrite Hen. cbn [fst snd negb]. rewrite Hb. run.
    split; [reflexivity |]. apply since_app. cbn [events]. trace. reflexivity.
Qed.

(** *** Sync messages *)

Lemma handleSyncMsg_engine_inr (msg : Message) (w w' : World) (engine : common_Engine) :
  h w' = h w ->
  fst (handleSyncMsg_engine msg w) = inr engine ->
  handleSyncMsg_engine msg w' = (inr engine, w').
Proof.
  unfold handleSyncMsg_engine. run. intros Hh. rewrite ?Hh.
  destruct (EngineType_eqb (msg_EngineType msg) ENGINE_TYPE_SNOWMAN
            && EngineType_eqb (es_Type (ctx_State (h w))) ENGINE_TYPE_AVALANCHE);
    run; rewrite ?Hh; [discriminate |].
  match goal with
  | |- context [Engine_Get ?a ?b] => destruct (Engine_Get a b)
  end; run; cbn; [| discriminate].
  intros E; injection E as ->. destruct w'; reflexivity.
Qed.

Lemma handleSyncMsg_engine_fst (msg : Message) (w w' : World) :
  h w' = h w ->
  fst (handleSyncMsg_engine msg w') = fst (handleSyncMsg_engine msg w).
Proof.
  unfold handleSyncMsg_engine. run. intros Hh. rewrite ?Hh.
  destruct (_ && _); run; rewrite ?Hh; [reflexivity |].
  match goal with
  | |- context [Engine_Get ?a ?b] => destruct (Engine_Get a b)
  end; reflexivity.
Qed.

Lemma handleSyncMsg_engine_inl (msg : Message) (w : World) :
  fst (handleSyncMsg_engine msg w) = inl tt ->
  exists fields,
    snd (handleSyncMsg_engine msg w)
    = mkWorld (h w) (clock w) (clock_reads w)
        (events w ++ [Ev_Log Debug "dropping sync message" fields]).
Proof.
  unfold handleSyncMsg_engine. run.
  destruct (_ && _); run; [intros _; eexists; reflexivity |].
  match goal with
  | |- context [Engine_Get ?a ?b] => destruct (Engine_Get a b)
  end; run; cbn; [discriminate |].
  intros _; eexists; reflexivity.
Qed.

(** A sync message that gets no engine is dropped: no engine is called,
    the completion callback runs, no error is returned. *)
Lemma handleSyncMsg_dropped (msg : Message) (w : World) :
  fst (handleSyncMsg_engine msg w) = inl tt ->
  fst (handleSyncMsg msg w) = None
  /\ calls (since w (snd (handleSyncMsg msg w))) = []
  /\ completions (since w (snd (handleSyncMsg msg w))) = [msg_InboundMessage msg]
  /\ exists fields,
       In (Ev_Log Debug "dropping sync message" fields)
          (since w (snd (handleSyncMsg msg w))).
Proof.
  intros E. unfold handleSyncMsg. run. trace.
  change (mkWorld (h w) (clock w) (S (S (clock_reads w))) _) with (sync_locked msg w).
  rewrite <- (handleSyncMsg_engine_fst msg w (sync_locked msg w) eq_refl) in E.
  destruct (handleSyncMsg_engine_inl msg (sync_locked msg w) E) as [fields Hw].
  destruct (handleSyncMsg_engine msg (sync_locked msg w)) as [e w2].
  cbn [fst snd] in E, Hw. subst e w2. run. unfold sync_locked. cbn [events].
  destruct (_ && _); run; cbn [fst snd]; (split; [reflexivity |]);
    (erewrite since_app; [| cbn [events]; trace; reflexivity]);
    cbn [calls completions]; (split; [reflexivity |]); (split; [reflexivity |]);
    exists fields; cbn; tauto.
Qed.

Lemma handleSyncMsg_switch_frame (engine : common_Engine) (nodeID : NodeID)
    (op : Op) (body : Payload) (w : World) :
  let w' := snd (handleSyncMsg_switch engine nodeID op body w) in
  h w' = h w /\ clock w' = clock w /\ clock_reads w' = clock_reads w
  /\ exists l, events w' = events w ++ l.
Proof.
  unfold handleSyncMsg_switch; destruct body; run;
    repeat match goal with
           | |- context [match ?x with _ => _ end] => destruct x; run
           end;
    repeat split; eexists; trace; try reflexivity;
    symmetry; apply app_nil_r.
Qed.

(** What [handleSyncMsg] does once the message has an engine: the type
    switch decides the result and the engine calls, and the deferred
    function runs the completion callback. *)
Lemma handleSyncMsg_with_engine (msg : Message) (w : World) (engine : common_Engine) :
  fst (handleSyncMsg_engine msg w) = inr engine ->
  let sw := handleSyncMsg_switch engine (msg_NodeID msg) (msg_Op msg)
              (msg_Message msg) (sync_locked msg w) in
  fst (handleSyncMsg msg w) = fst sw
  /\ calls (since w (snd (handleSyncMsg msg w)))
     = calls (since (sync_locked msg w) (snd sw))
  /\ completions (since w (snd (handleSyncMsg msg w)))
     = completions (since (sync_locked msg w) (snd sw)) ++ [msg_InboundMessage msg].
Proof.
  intros E sw. unfold handleSyncMsg. run. trace.
  change (mkWorld (h w) (clock w) (S (S (clock_reads w))) _) with (sync_locked msg w).
  rewrite (handleSyncMsg_engine_inr msg w (sync_locked msg w) engine eq_refl E).
  fold sw.
  destruct (handleSyncMsg_switch_frame engine (msg_NodeID msg) (msg_Op msg)
              (msg_Message msg) (sync_locked msg w)) as (Hh & Hc & Hr & l & Hl).
  fold sw in Hh, Hc, Hr, Hl.
  destruct sw as [r w3]. cbn [fst snd] in *.
  rewrite (since_app (sync_locked msg w) w3 l Hl).
  destruct (_ && _); run; cbn [fst snd]; (split; [reflexivity |]);
    rewrite Hl; unfold sync_locked; cbn [events];
    (erewrite since_app; [| cbn [events]; trace; reflexivity]);
    cbn [calls completions]; rewrite calls_app, completions_app;
    cbn [calls completions]; rewrite !app_nil_r; split; reflexivity.
Qed.

(** The type switch calls at most one engine method, on the engine it was
    given. *)
Lemma handleSyncMsg_switch_calls (engine : common_Engine) (nodeID : NodeID)
    (op : Op) (body : Payload) (w : World) :
  let cs := calls (since w (snd (handleSyncMsg_switch engine nodeID op body w))) in
  cs = [] \/ exists c, cs = [(engine_name engine, c)].
Proof.
  unfold handleSyncMsg_switch; destruct body; run;
    repeat match goal with
           | |- context [match ?x with _ => _ end] => destruct x; run
           end;
    (erewrite since_app;
     [| cbn [events]; trace; try reflexivity; symmetry; apply app_nil_r]);
    cbn [calls]; auto; right; eexists; reflexivity.
Qed.

Lemma EngineType_eqb_eq (a b : EngineType) : EngineType_eqb a b = true <-> a = b.
Proof.
  destruct a, b; cbn [EngineType_eqb]; split; intros H;
    try reflexivity; try discriminate H.
  - apply Z.eqb_eq in H. congruence.
  - injection H as ->. apply Z.eqb_refl.
Qed.

(** The engine of a sync message, as the handler is when the message
    comes. *)
Lemma handleSyncMsg_engine_resolves (msg : Message) (w : World) :
  fst (handleSyncMsg_engine msg w)
  = if EngineType_eqb (msg_EngineType msg) ENGINE_TYPE_SNOWMAN
       && EngineType_eqb (es_Type (ctx_State (h w))) ENGINE_TYPE_AVALANCHE
    then inl tt
    else match Engine_Get (EngineManager_Get (engineManager (h w))
                             (handleSyncMsg_engineType msg (ctx_State (h w))))
                          (es_State (ctx_State (h w))) with
         | Some engine => inr engine
         | None => inl tt
         end.
Proof.
  destruct (handleSyncMsg_engine msg w) as [r w'] eqn:E. cbn [fst].
  unfold handleSyncMsg_engine in E. run_in E.
  destruct (_ && _); run_in E; [injection E as <- _; reflexivity |].
  destruct (Engine_Get _ _); run_in E; injection E as <- _; reflexivity.
Qed.

Lemma snowman_on_avalanche (msg : Message) (w : World) :
  EngineType_eqb (msg_EngineType msg) ENGINE_TYPE_SNOWMAN
  && EngineType_eqb (es_Type (ctx_State (h w))) ENGINE_TYPE_AVALANCHE = true
  <-> msg_EngineType msg = ENGINE_TYPE_SNOWMAN
      /\ es_Type (ctx_State (h w)) = ENGINE_TYPE_AVALANCHE.
Proof. rewrite andb_true_iff, !EngineType_eqb_eq. reflexivity. Qed.

(** C6.  The engine a sync message goes to.  A message that asks for
    Snowman while the chain runs Avalanche is dropped: no engine is called
    and no error is returned.  Otherwise a message that asks for Avalanche
    or for Snowman is resolved with the type it asks for, and a message
    that asks for anything else (unspecified, or a number that is no
    engine type) with the type the chain currently runs.  A message
    resolved with a type goes to the engine registered for that type and
    the current state: [handleSyncMsg] does what its type switch does
    with that engine, every engine call is a call of that engine, and,
    for one, a [GetStateSummaryFrontier], a [GetAcceptedFrontier], a
    [Put] or a [PushQuery] is passed to that engine in exactly one call,
    whose result the handler returns.  If no engine is registered for
    that type and the current state, the message is dropped. *)
Theorem handleSyncMsg_engine_type (msg : Message) (w : World) :
  let current := ctx_State (h w) in
  let em := engineManager (h w) in
  let requested := msg_EngineType msg in
  let nodeID := msg_NodeID msg in
  let r := handleSyncMsg msg w in
  let cs := calls (since w (snd r)) in
  let dropped : Prop :=
    fst (handleSyncMsg_engine msg w) = inl tt /\ fst r = None /\ cs = [] in
  let passed_on (c : common.EngineCall) : Prop :=
    (exists RequestId,
       msg_Message msg = p2p_GetStateSummaryFrontier RequestId
       /\ c = common.GetStateSummaryFrontier nodeID RequestId)
    \/ (exists RequestId,
          msg_Message msg = p2p_GetAcceptedFrontier RequestId
          /\ c = common.GetAcceptedFrontier nodeID RequestId)
    \/ (exists RequestId Container,
          msg_Message msg = p2p_Put RequestId Container
          /\ c = common.Put nodeID RequestId Container)
    \/ (exists RequestId Container,
          msg_Message msg = p2p_PushQuery RequestId Container
          /\ c = common.PushQuery nodeID RequestId Container) in
  let resolved_with (engineType : EngineType) : Prop :=
    match Engine_Get (EngineManager_Get em engineType) (es_State current) with
    | None => dropped
    | Some engine =>
        let sw := handleSyncMsg_switch engine nodeID (msg_Op msg) (msg_Message msg)
                    (sync_locked msg w) in
        fst (handleSyncMsg_engine msg w) = inr engine
        /\ fst r = fst sw
        /\ cs = calls (since (sync_locked msg w) (snd sw))
        /\ (forall name c, In (name, c) cs -> name = engine_name engine)
        /\ (forall c,
              passed_on c ->
              cs = [(engine_name engine, c)]
              /\ fst r = engine_returns engine (events (sync_locked msg w)) c)
    end in
  (requested = ENGINE_TYPE_SNOWMAN -> es_Type current = ENGINE_TYPE_AVALANCHE ->
     dropped)
  /\ (requested = ENGINE_TYPE_AVALANCHE \/ requested = ENGINE_TYPE_SNOWMAN ->
      ~ (requested = ENGINE_TYPE_SNOWMAN /\ es_Type current = ENGINE_TYPE_AVALANCHE) ->
      resolved_with requested)
  /\ (requested <> ENGINE_TYPE_AVALANCHE -> requested <> ENGINE_TYPE_SNOWMAN ->
      resolved_with (es_Type current)).
Proof.
  intros current em requested nodeID r cs dropped passed_on resolved_with.
  pose proof (handleSyncMsg_engine_resolves msg w) as Hres.
  pose proof (snowman_on_avalanche msg w) as Hsa.
  fold requested current em in Hres, Hsa.
  assert (Hdrop : fst (handleSyncMsg_engine msg w) = inl tt -> dropped).
  { intros E. destruct (handleSyncMsg_dropped msg w E) as (H1 & H2 & _).
    split; [exact E |]. split; assumption. }
  assert (Hgo : forall engineType,
             EngineType_eqb requested ENGINE_TYPE_SNOWMAN
             && EngineType_eqb (es_Type current) ENGINE_TYPE_AVALANCHE = false ->
             handleSyncMsg_engineType msg current = engineType ->
             resolved_with engineType).
  { intros engineType Hb Ht. rewrite Hb, Ht in Hres. subst resolved_with. cbv beta.
    destruct (Engine_Get _ _) as [engine |]; [| exact (Hdrop Hres)].
    destruct (handleSyncMsg_with_engine msg w engine Hres) as (Hr & Hc & _).
    cbv zeta in Hr, Hc |- *. fold r in Hr. fold r cs in Hc. fold nodeID in Hr, Hc.
    split; [exact Hres |]. split; [exact Hr |]. split; [exact Hc |]. split.
    - intros name c Hin. rewrite Hc in Hin.
      destruct (handleSyncMsg_switch_calls engine nodeID (msg_Op msg)
                  (msg_Message msg) (sync_locked msg w)) as [Hnil | [c' Hone]].
      + rewrite Hnil in Hin. destruct Hin.
      + rewrite Hone in Hin. destruct Hin as [Hin | []]. congruence.
    - intros c Hc'. rewrite Hr, Hc. clear Hr Hc.
      destruct Hc' as [(RequestId & Hbody & ->)
                      | [(RequestId & Hbody & ->)
                        | [(RequestId & Container & Hbody & ->)
                          | (RequestId & Container & Hbody & ->)]]];
        rewrite Hbody; unfold handleSyncMsg_switch; run;
        (erewrite since_app; [| cbn [events]; trace; reflexivity]);
        split; reflexivity. }
  split; [| split].
  - intros Hr Hc. apply Hdrop. rewrite Hres.
    rewrite (proj2 Hsa (conj Hr Hc)). reflexivity.
  - intros Hreq Hnot. apply Hgo.
    + destruct (_ && _); [| reflexivity]. exfalso. apply Hnot, Hsa. reflexivity.
    + unfold handleSyncMsg_engineType. fold requested.
      destruct Hreq as [-> | ->]; reflexivity.
  - intros Ha Hs. apply Hgo.
    + destruct (EngineType_eqb requested ENGINE_TYPE_SNOWMAN) eqn:E; [| reflexivity].
      apply EngineType_eqb_eq in E. contradiction.
    + unfold handleSyncMsg_engineType. fold requested.
      destruct requested; try reflexivity; contradiction.
Qed.

(** C4.  A response whose payload does not decode is answered with the
    matching failure callback if the message gets an engine, and is
    dropped in silence if it gets none.  Take an [AcceptedStateSummary],
    an [AcceptedFrontier], an [Accepted] or a [Chits] whose identifiers
    [getIDs] rejects.  If the message asks for Snowman while the chain
    runs Avalanche it is dropped before its payload is looked at: no
    engine is called and no error is returned.  Otherwise the engine is
    looked up for the type of the message (the requested one, or the
    current one) and the current state: if there is none the message is
    dropped in the same way; if there is one the handler calls, on that
    engine, [GetAcceptedStateSummaryFailed], [GetAcceptedFrontierFailed],
    [GetAcceptedFailed] and [QueryFailed] respectively, with the node and
    the request of the message; this is the only engine call, and the
    handler returns what it returns. *)
Theorem handleSyncMsg_undecodable_response (msg : Message) (w : World)
    (op : Op) (c : common.EngineCall) :
  undecodable_response msg op c ->
  let current := ctx_State (h w) in
  let em := engineManager (h w) in
  let r := handleSyncMsg msg w in
  let dropped : Prop :=
    fst r = None /\ calls (since w (snd r)) = [] in
  (msg_EngineType msg = ENGINE_TYPE_SNOWMAN
   /\ es_Type current = ENGINE_TYPE_AVALANCHE -> dropped)
  /\ (~ (msg_EngineType msg = ENGINE_TYPE_SNOWMAN
         /\ es_Type current = ENGINE_TYPE_AVALANCHE) ->
      match Engine_Get (EngineManager_Get em (handleSyncMsg_engineType msg current))
                       (es_State current) with
      | None => dropped
      | Some engine =>
          fst (handleSyncMsg_engine msg w) = inr engine
          /\ calls (since w (snd r)) = [(engine_name engine, c)]
          /\ exists field,
               fst r
               = engine_returns engine
                   (events (sync_locked msg w)
                      ++ [Ev_Log Debug "message with invalid field"
                            [Op_String op; field]])
                   c
      end).
Proof.
  intros Hbad current em r dropped. subst current em r dropped. cbv beta.
  pose proof (handleSyncMsg_engine_resolves msg w) as Hres.
  pose proof (snowman_on_avalanche msg w) as Hsa.
  destruct (_ && _).
  - split.
    + intros _. destruct (handleSyncMsg_dropped msg w Hres) as (H1 & H2 & _).
      split; assumption.
    + intros Hnot. exfalso. apply Hnot, Hsa. reflexivity.
  - split; [intros Hyes; apply Hsa in Hyes; discriminate Hyes |].
    intros _.
    destruct (Engine_Get _ _) as [engine |].
    2: { destruct (handleSyncMsg_dropped msg w Hres) as (H1 & H2 & _).
         split; assumption. }
    split; [exact Hres |].
    destruct (handleSyncMsg_with_engine msg w engine Hres) as (Hr & Hc & _).
    cbv zeta in Hr, Hc. rewrite Hr, Hc. clear Hr Hc Hres Hsa.
    destruct Hbad as [(RequestId & ids & Hbody & Hdec & -> & ->)
                     | [(RequestId & ids & Hbody & Hdec & -> & ->)
                       | [(RequestId & ids & Hbody & Hdec & -> & ->)
                         | (RequestId & ids & ids' & Hbody & Hdec & -> & ->)]]];
      rewrite Hbody; unfold handleSyncMsg_switch; run.
    1-3: rewrite Hdec; run;
         (erewrite since_app; [| cbn [events]; trace; reflexivity]);
         split; [reflexivity | eexists; reflexivity].
    destruct Hdec as [Hdec | Hdec];
      [ rewrite Hdec | destruct (getIDs ids); rewrite ?Hdec ];
      run;
      (erewrite since_app; [| cbn [events]; trace; reflexivity]);
      (split; [reflexivity | eexists; reflexivity]).
Qed.

(** *** Async and chan messages *)

Lemma executeAsyncMsg_missing_engine (msg : Message) (w : World) :
  let state := ctx_State (h w) in
  Engine_Get (EngineManager_Get (engineManager (h w)) (es_Type state)) (es_State state)
  = None ->
  fst (executeAsyncMsg msg w) = Some (missing_engine_error state)
  /\ exists l,
       events (snd (executeAsyncMsg msg w)) = events w ++ l
       /\ calls l = [] /\ completions l = [msg_InboundMessage msg].
Proof.
  intros state Hnone. unfold executeAsyncMsg. run. fold state.
  rewrite Hnone. run. split; [reflexivity |].
  eexists. split; [trace; reflexivity |]. split; reflexivity.
Qed.

Lemma handleChanMsg_missing_engine (msg : InboundMessage) (w : World) :
  let state := ctx_State (h w) in
  Engine_Get (EngineManager_Get (engineManager (h w)) (es_Type state)) (es_State state)
  = None ->
  fst (handleChanMsg msg w) = Some (missing_engine_error state)
  /\ exists l,
       events (snd (handleChanMsg msg w)) = events w ++ l
       /\ calls l = [] /\ completions l = [msg].
Proof.
  intros state Hnone. unfold handleChanMsg. run. fold state.
  rewrite Hnone. run.
  destruct (_ && _); run; (split; [reflexivity |]);
    eexists; (split; [trace; reflexivity |]); split; reflexivity.
Qed.

(** [StopWithError] logs at the fatal level before anything else. *)
Lemma StopWithError_events (err : error) (w : World) :
  exists l,
    events (snd (StopWithError err w))
    = events w ++ Ev_Log Fatal "shutting down chain" ["received an unexpected error"] :: l.
Proof.
  unfold StopWithError, Stop, MessageQueue_Shutdown. run.
  destruct (closeOnce (h w)); run.
  - exists []. reflexivity.
  - match goal with
    | |- context [Engine_Get ?a ?b] => destruct (Engine_Get a b)
    end; run; eexists; trace; reflexivity.
Qed.

(** C1.  Every dispatch reads the current engine type and lifecycle state
    anew and looks the engine up; what happens when there is none depends
    on the kind of message.  A sync message (whose engine type is the
    requested one, or the current one when none was requested) is dropped:
    a debug line is logged, no engine is called, the completion callback
    runs once and no error is returned.  An async message and a chan
    message are not dropped: [executeAsyncMsg] and [handleChanMsg] return an
    error that wraps [errMissingEngine] (no engine is called, the
    completion callback runs once), and their callers escalate it to
    [StopWithError], which logs it at the fatal level. *)
Theorem missing_engine_by_kind (w : World) :
  let state := ctx_State (h w) in
  let em := engineManager (h w) in
  (forall msg,
     Engine_Get (EngineManager_Get em (handleSyncMsg_engineType msg state))
                (es_State state) = None ->
     fst (handleSyncMsg msg w) = None
     /\ calls (since w (snd (handleSyncMsg msg w))) = []
     /\ completions (since w (snd (handleSyncMsg msg w))) = [msg_InboundMessage msg]
     /\ exists fields,
          In (Ev_Log Debug "dropping sync message" fields)
             (since w (snd (handleSyncMsg msg w))))
  /\ (Engine_Get (EngineManager_Get em (es_Type state)) (es_State state) = None ->
      (forall msg,
         fst (executeAsyncMsg msg w) = Some (missing_engine_error state)
         /\ errors_Is (missing_engine_error state) errMissingEngine = true
         /\ calls (since w (snd (executeAsyncMsg msg w))) = []
         /\ completions (since w (snd (executeAsyncMsg msg w)))
            = [msg_InboundMessage msg]
         /\ In fatal_log (since w (snd (handleAsyncMsg_task msg w))))
      /\ (forall msg,
            fst (handleChanMsg msg w) = Some (missing_engine_error state)
            /\ calls (since w (snd (handleChanMsg msg w))) = []
            /\ completions (since w (snd (handleChanMsg msg w))) = [msg])
      /\ (forall c,
            c <> recv_closingChan ->
            fst (dispatchChans_turn c w) = Return
            /\ In fatal_log (since w (snd (dispatchChans_turn c w))))).
Proof.
  intros state em. split.
  - intros msg Hnone. apply handleSyncMsg_dropped.
    unfold handleSyncMsg_engine. run. fold state. fold em.
    destruct (_ && _); run; [reflexivity |].
    fold state. fold em. rewrite Hnone. reflexivity.
  - intros Hnone. split; [| split].
    + intros msg.
      destruct (executeAsyncMsg_missing_engine msg w Hnone) as (Hr & l & Hl & Hc & Hf).
      fold state in Hr. split; [exact Hr |]. split; [reflexivity |].
      rewrite (since_app w _ l Hl). split; [exact Hc |]. split; [exact Hf |].
      unfold handleAsyncMsg_task, bind.
      destruct (executeAsyncMsg msg w) as [r w1]. cbn [fst snd] in Hr, Hl.
      rewrite Hr.
      destruct (StopWithError_events
                  (fmt_Errorf_w "%w while processing async message: %s"
                     (missing_engine_error state) [Op_String (msg_Op msg)]) w1)
        as [l' Hl'].
      erewrite since_app; [| rewrite Hl', Hl, <- app_assoc; reflexivity].
      apply in_or_app. right. left. reflexivity.
    + intros msg.
      destruct (handleChanMsg_missing_engine msg w Hnone) as (Hr & l & Hl & Hc & Hf).
      fold state in Hr. split; [exact Hr |].
      rewrite (since_app w _ l Hl). split; assumption.
    + intros c Hc.
      assert (Hturn : forall msg w0,
                 engineManager (h w0) = engineManager (h w) ->
                 ctx_State (h w0) = ctx_State (h w) ->
                 events w0 = events w ->
                 let t := (err <- handleChanMsg msg ;;
                           match err with
                           | Some err =>
                               StopWithError
                                 (fmt_Errorf_w "%w while processing async message: %s"
                                    err [Op_String (im_Op msg)]) ;;
                               ret Return
                           | None => ret Continue
                           end) w0 in
                 fst t = Return /\ In fatal_log (since w (snd t))).
      { intros msg w0 Hm Hs He. cbv zeta. unfold bind.
        assert (Hnone0 : Engine_Get
                           (EngineManager_Get (engineManager (h w0))
                              (es_Type (ctx_State (h w0))))
                           (es_State (ctx_State (h w0))) = None)
          by (rewrite Hm, Hs; exact Hnone).
        destruct (handleChanMsg_missing_engine msg w0 Hnone0) as (Hr & l & Hl & _).
        destruct (handleChanMsg msg w0) as [r w1]. cbn [fst snd] in Hr, Hl.
        rewrite Hr.
        match goal with
        | |- context [StopWithError ?e w1] =>
            destruct (StopWithError_events e w1) as [l' Hl'];
            destruct (StopWithError e w1) as [u w2]
        end.
        cbn [fst snd ret] in *. split; [reflexivity |].
        erewrite since_app; [| rewrite Hl', Hl, He, <- app_assoc; reflexivity].
        apply in_or_app. right. left. reflexivity. }
      unfold dispatchChans_turn.
      destruct c; [congruence | | |]; unfold bind at 1; cbn [get_h];
        unfold bind at 1; cbn [ret modify_h]; apply Hturn; reflexivity.
Qed.

(** C7.  On every gossip request that finds the chain running Snowman with
    an Avalanche engine registered for the current state, the handler
    first calls [Gossip] on the Avalanche engine.  When that returns no
    error it then calls [Gossip] on the current engine and returns its
    result; when it returns an error the handler returns that error and
    the current engine is not called.  The handler keeps no record of
    having gossiped the old frontier: this holds in every state of the
    handler, at each gossip request anew. *)
Theorem handleChanMsg_gossip_linearized (msg : InboundMessage) (w : World)
    (engine avalancheEngine : common_Engine) :
  let state := ctx_State (h w) in
  let em := engineManager (h w) in
  im_Message msg = message_GossipRequest ->
  es_Type state = ENGINE_TYPE_SNOWMAN ->
  Engine_Get (EngineManager_Get em ENGINE_TYPE_SNOWMAN) (es_State state) = Some engine ->
  Engine_Get (EngineManager_Get em ENGINE_TYPE_AVALANCHE) (es_State state)
  = Some avalancheEngine ->
  let before := events (chan_locked msg w) in
  let old := (engine_name avalancheEngine, common.Gossip) in
  let new := (engine_name engine, common.Gossip) in
  match engine_returns avalancheEngine before common.Gossip with
  | None =>
      calls (since w (snd (handleChanMsg msg w))) = [old; new]
      /\ fst (handleChanMsg msg w)
         = engine_returns engine
             (before ++ [Ev_Engine (engine_name avalancheEngine) common.Gossip])
             common.Gossip
  | Some err =>
      calls (since w (snd (handleChanMsg msg w))) = [old]
      /\ fst (handleChanMsg msg w) = Some err
  end.
Proof.
  intros state em Hbody Htype Hnew Hold before old new.
  destruct (engine_returns avalancheEngine before common.Gossip) as [err |] eqn:Eav;
    unfold handleChanMsg; run; rewrite Hbody; fold state; fold em;
    rewrite Htype, Hnew; cbn [EngineType_eqb]; rewrite Hold; run; trace;
    change (events w ++ _ :: _ :: _ :: []) with before; rewrite Eav; run;
    destruct (_ && _); run; cbn [fst snd];
    (erewrite since_app;
     [| cbn [events]; subst before; unfold chan_locked; cbn [events];
        trace; reflexivity]);
    (split; [reflexivity |]);
    subst before; unfold chan_locked; cbn [events]; trace; reflexivity.
Qed.

(** *** Expired messages *)

Lemma get_counter_set_queue (c : Counter) (q : QueueName) (v : MessageQueue)
    (x : handler) :
  get_counter c (set_queue q v x) = get_counter c x.
Proof. destruct c, q; reflexivity. Qed.

Lemma get_counter_set_counter (c : Counter) (n : nat) (x : handler) :
  get_counter c (set_counter c n x) = n.
Proof. destruct c; reflexivity. Qed.

Lemma get_queue_set_queue (q : QueueName) (v : MessageQueue) (x : handler) :
  get_queue q (set_queue q v x) = v.
Proof. destruct q; reflexivity. Qed.

Lemma get_queue_set_counter (q : QueueName) (c : Counter) (n : nat) (x : handler) :
  get_queue q (set_counter c n x) = get_queue q x.
Proof. destruct c, q; reflexivity. Qed.

Lemma popUnexpiredMsg_from_spec (queue : QueueName) (expired : Counter)
    (queue_closed : bool) (msgs : list Message) :
  forall w,
    mq_msgs (get_queue queue (h w)) = msgs ->
    let r := popUnexpiredMsg_from queue expired msgs queue_closed w in
    exists dropped rest,
      msgs = dropped ++ rest
      /\ (forall i msg, nth_error dropped i = Some msg -> expired_at w i msg = true)
      /\ events (snd r) = events w ++ flat_map (expired_events expired) dropped
      /\ get_counter expired (h (snd r))
         = get_counter expired (h w) + List.length dropped
      /\ match fst r with
         | Popped msg =>
             exists rest',
               rest = msg :: rest'
               /\ expired_at w (List.length dropped) msg = false
               /\ mq_msgs (get_queue queue (h (snd r))) = rest'
         | NotOk =>
             rest = [] /\ queue_closed = true
             /\ mq_msgs (get_queue queue (h (snd r))) = []
         | Blocks =>
             rest = [] /\ queue_closed = false
             /\ mq_msgs (get_queue queue (h (snd r))) = []
         end.
Proof.
  induction msgs as [| msg msgs IH]; intros w Hq r.
  - exists [], []. subst r. cbn [popUnexpiredMsg_from ret fst snd flat_map List.length].
    split; [reflexivity |].
    split; [intros [| i] m H; discriminate H |].
    split; [symmetry; apply app_nil_r |].
    split; [symmetry; apply Nat.add_0_r |].
    destruct queue_closed; repeat split; exact Hq.
  - subst r. cbn [popUnexpiredMsg_from]. run.
    destruct (Time_After (clock w (clock_reads w)) (msg_Expiration msg)) eqn:Eexp.
    + run.
      match goal with
      | |- context [popUnexpiredMsg_from _ _ _ _ ?w1] =>
          destruct (IH w1) as (dropped & rest & Hsplit & Hexp & Hev & Hcnt & Hres);
          [cbn [h]; rewrite get_queue_set_counter, get_queue_set_queue; reflexivity |];
          cbn [h clock clock_reads events] in Hexp, Hev, Hcnt, Hres
      end.
      exists (msg :: dropped), rest.
      split; [cbn [app]; congruence |].
      split.
      { intros [| i] m H; cbn [nth_error] in H.
        - injection H as <-. unfold expired_at. rewrite Nat.add_0_r. exact Eexp.
        - specialize (Hexp i m H). unfold expired_at in *.
          cbn [clock clock_reads] in Hexp.
          rewrite <- Nat.add_succ_comm. exact Hexp. }
      split.
      { rewrite Hev. cbn [flat_map expired_events]. trace. reflexivity. }
      split.
      { rewrite Hcnt, get_counter_set_counter, get_counter_set_queue.
        cbn [List.length]. lia. }
      destruct (fst (popUnexpiredMsg_from _ _ _ _ _)); [| exact Hres | exact Hres].
      destruct Hres as (rest' & Hr & Hne & Hq').
      exists rest'. split; [exact Hr |]. split; [| exact Hq'].
      unfold expired_at in *. cbn [clock clock_reads List.length] in *.
      rewrite <- Nat.add_succ_comm. exact Hne.
    + run. exists [], (msg :: msgs). cbn [app flat_map List.length fst snd h events].
      split; [reflexivity |].
      split; [intros [| i] m H; discriminate H |].
      split; [symmetry; apply app_nil_r |].
      split; [rewrite Nat.add_0_r; apply get_counter_set_queue |].
      exists msgs. split; [reflexivity |].
      split; [unfold expired_at; rewrite Nat.add_0_r; exact Eexp |].
      rewrite get_queue_set_queue. reflexivity.
Qed.

Lemma calls_expired_events (expired : Counter) (l : list Message) :
  calls (flat_map (expired_events expired) l) = [].
Proof. induction l as [| m l IH]; [reflexivity | exact IH]. Qed.

Lemma completions_expired_events (expired : Counter) (l : list Message) :
  completions (flat_map (expired_events expired) l) = map msg_InboundMessage l.
Proof.
  induction l as [| m l IH]; [reflexivity |].
  cbn [flat_map expired_events app completions map]. rewrite IH. reflexivity.
Qed.

(** C8.  [popUnexpiredMsg] pops messages until one has not expired.  The
    messages it pops split into those whose deadline had passed when they
    were popped, all of which it drops, and the one it returns, whose
    deadline had not passed: so a message that had expired is never handed
    to a dispatcher, it is no longer in the queue, and no engine is called
    on the way.  For every dropped message the completion callback runs
    exactly once and the counter of expired messages goes up by exactly
    one. *)
Theorem popUnexpiredMsg_drops_expired (queue : QueueName) (expired : Counter)
    (w : World) :
  let r := popUnexpiredMsg queue expired w in
  let q := get_queue queue (h w) in
  exists dropped rest,
    mq_msgs q = dropped ++ rest
    /\ (forall i msg, nth_error dropped i = Some msg -> expired_at w i msg = true)
    /\ since w (snd r) = flat_map (expired_events expired) dropped
    /\ calls (since w (snd r)) = []
    /\ completions (since w (snd r)) = map msg_InboundMessage dropped
    /\ get_counter expired (h (snd r))
       = get_counter expired (h w) + List.length dropped
    /\ match fst r with
       | Popped msg =>
           exists rest',
             rest = msg :: rest'
             /\ expired_at w (List.length dropped) msg = false
             /\ mq_msgs (get_queue queue (h (snd r))) = rest'
       | NotOk =>
           rest = [] /\ mq_closed q = true
           /\ mq_msgs (get_queue queue (h (snd r))) = []
       | Blocks =>
           rest = [] /\ mq_closed q = false
           /\ mq_msgs (get_queue queue (h (snd r))) = []
       end.
Proof.
  intros r q. subst r. unfold popUnexpiredMsg. run. fold q.
  destruct (popUnexpiredMsg_from_spec queue expired (mq_closed q) (mq_msgs q) w eq_refl)
    as (dropped & rest & Hsplit & Hexp & Hev & Hcnt & Hres).
  exists dropped, rest.
  rewrite (since_app w _ _ Hev), calls_expired_events, completions_expired_events.
  repeat (split; [assumption || reflexivity |]).
  exact Hres.
Qed.

(** *** Shutdown *)

Lemma terminal_app (t u : Trace) : terminal (t ++ u) = terminal t ++ terminal u.
Proof. apply filter_app. Qed.

Lemma closes_app (t u : Trace) : closes (t ++ u) = closes t + closes u.
Proof.
  induction t as [| e t IH]; [reflexivity |].
  destruct e; cbn [closes app]; rewrite ?IH; reflexivity.
Qed.

Lemma terminal_nil_closes (t : Trace) : terminal t = [] -> closes t = 0.
Proof.
  induction t as [| e t IH]; [reflexivity |].
  unfold terminal in *. cbn [filter].
  destruct (is_terminal e) eqn:E; [discriminate |].
  intros H. destruct e; cbn [closes]; auto. discriminate E.
Qed.

Lemma filter_nil_weaken (P Q : Event -> bool) (l : Trace) :
  (forall e, Q e = true -> P e = true) -> filter P l = [] -> filter Q l = [].
Proof.
  intros HPQ. induction l as [| e l IH]; [reflexivity |]. cbn [filter].
  destruct (P e) eqn:EP; [discriminate |].
  destruct (Q e) eqn:EQ; [rewrite (HPQ e EQ) in EP; discriminate | exact IH].
Qed.

Lemma quiet_since_weaken (P Q : Event -> bool) (w w' : World) :
  (forall e, Q e = true -> P e = true) ->
  quiet_since P w w' -> quiet_since Q w w'.
Proof.
  intros HPQ (Hn & Hc & l & Hl & Ht). split; [exact Hn |]. split; [exact Hc |].
  exists l. split; [exact Hl | exact (filter_nil_weaken P Q l HPQ Ht)].
Qed.

Lemma quiet_weaken (A : Type) (P Q : Event -> bool) (m : M A) :
  (forall e, Q e = true -> P e = true) -> quiet P m -> quiet Q m.
Proof. intros HPQ Hm w. exact (quiet_since_weaken P Q _ _ HPQ (Hm w)). Qed.

Lemma marked_terminal (e : Event) : is_terminal e = true -> is_marked e = true.
Proof. unfold is_marked. intros ->. reflexivity. Qed.

Lemma marked_sync_dispatch (e : Event) :
  is_sync_dispatch e = true -> is_marked e = true.
Proof. unfold is_marked. intros ->. apply orb_true_r. Qed.

Lemma quiet_since_refl (P : Event -> bool) (w : World) : quiet_since P w w.
Proof.
  repeat split. exists []. split; [symmetry; apply app_nil_r | reflexivity].
Qed.

Lemma quiet_since_trans (P : Event -> bool) (w1 w2 w3 : World) :
  quiet_since P w1 w2 -> quiet_since P w2 w3 -> quiet_since P w1 w3.
Proof.
  intros (Hn & Hc & l & Hl & Ht) (Hn' & Hc' & l' & Hl' & Ht').
  split; [congruence |]. split; [congruence |].
  exists (l ++ l'). split.
  - rewrite Hl', Hl, app_assoc. reflexivity.
  - rewrite filter_app, Ht, Ht'. reflexivity.
Qed.

Lemma quiet_ret (P : Event -> bool) (A : Type) (a : A) : quiet P (ret a).
Proof. intros w. apply quiet_since_refl. Qed.

Lemma quiet_bind (P : Event -> bool) (A B : Type) (m : M A) (k : A -> M B) :
  quiet P m -> (forall a, quiet P (k a)) -> quiet P (bind m k).
Proof.
  intros Hm Hk w. unfold bind. specialize (Hm w).
  destruct (m w) as [a w1]. cbn [snd] in Hm.
  eapply quiet_since_trans; [exact Hm | apply Hk].
Qed.

Lemma quiet_event (P : Event -> bool) (A : Type) (e : Event)
    (f : World -> A) :
  P e = false ->
  quiet P (fun w => (f w, mkWorld (h w) (clock w) (clock_reads w) (events w ++ [e]))).
Proof.
  intros He w. repeat split. exists [e]. split; [reflexivity |].
  cbn [filter]. rewrite He. reflexivity.
Qed.

Lemma quiet_emit (P : Event -> bool) (e : Event) : P e = false -> quiet P (emit e).
Proof. apply quiet_event. Qed.

Lemma quiet_modify_h (P : Event -> bool) (f : handler -> handler) :
  (forall x, numDispatchersClosed (f x) = numDispatchersClosed x
             /\ closed (f x) = closed x) ->
  quiet P (modify_h f).
Proof.
  intros Hf w. destruct (Hf (h w)) as [Hn Hc].
  split; [exact Hn |]. split; [exact Hc |].
  exists []. split; [symmetry; apply app_nil_r | reflexivity].
Qed.

Lemma quiet_get_h (P : Event -> bool) : quiet P get_h.
Proof. intros w. apply quiet_since_refl. Qed.

Lemma quiet_h_clock_Time (P : Event -> bool) : quiet P h_clock_Time.
Proof.
  intros w. repeat split. exists []. split; [symmetry; apply app_nil_r | reflexivity].
Qed.

Lemma quiet_call (P : Event -> bool) (engine : common_Engine)
    (c : common.EngineCall) :
  P (Ev_Engine (engine_name engine) c) = false -> quiet P (call engine c).
Proof. apply quiet_event. Qed.

Lemma quiet_call_IsEnabled (P : Event -> bool) (engine : common_Engine) :
  P (Ev_Engine (engine_name engine) common.IsEnabled) = false ->
  quiet P (call_IsEnabled engine).
Proof. apply quiet_event. Qed.

Lemma quiet_call_HealthCheck (P : Event -> bool) (engine : common_Engine) :
  P (Ev_Engine (engine_name engine) common.HealthCheck) = false ->
  quiet P (call_HealthCheck engine).
Proof. apply quiet_event. Qed.

Lemma quiet_ConnectedSubnet (P : Event -> bool) (nodeID : NodeID) (subnetID : ID) :
  P (Ev_ConnectedSubnet nodeID subnetID) = false ->
  quiet P (subnetConnector_ConnectedSubnet nodeID subnetID).
Proof. apply quiet_event. Qed.

(** One step of a proof that a computation is quiet. *)
Ltac quiet_step :=
  match goal with
  | |- quiet _ (bind _ _) => apply quiet_bind; [| intros ?]
  | |- quiet _ (ret _) => apply quiet_ret
  | |- quiet _ get_h => apply quiet_get_h
  | |- quiet _ h_clock_Time => apply quiet_h_clock_Time
  | |- quiet _ (emit _) => apply quiet_emit; reflexivity
  | |- quiet _ (call _ _) => apply quiet_call; reflexivity
  | |- quiet _ (call_IsEnabled _) => apply quiet_call_IsEnabled; reflexivity
  | |- quiet _ (call_HealthCheck _) => apply quiet_call_HealthCheck; reflexivity
  | |- quiet _ (subnetConnector_ConnectedSubnet _ _) =>
      apply quiet_ConnectedSubnet; reflexivity
  | |- quiet _ (modify_h _) =>
      apply quiet_modify_h; intros ?;
      repeat match goal with
             | q : QueueName |- _ => destruct q
             | c : Counter |- _ => destruct c
             end; split; reflexivity
  | |- quiet _ (match ?x with _ => _ end) => destruct x
  | |- quiet _ (let _ := _ in _) => cbv zeta
  end.

Ltac quiet_unfold :=
  unfold Log, ctx_Lock_Lock, ctx_Lock_Unlock, ctx_State_Get, call_Halt,
    OnFinishedHandling, Inc, GetEngineManager, Log_invalid_field,
    MessageQueue_Push, MessageQueue_Shutdown, Pool_Send, Pool_Shutdown.

Ltac quiet_auto := repeat (progress quiet_unfold || quiet_step).

Lemma quiet_Stop : quiet is_marked Stop.
Proof. unfold Stop. quiet_auto. Qed.

Lemma quiet_StopWithError (err : error) : quiet is_marked (StopWithError err).
Proof. unfold StopWithError. quiet_auto. apply quiet_Stop. Qed.

Lemma quiet_Push (msg : Message) : quiet is_marked (Push msg).
Proof.
  rewrite Push_is_async. destruct (is_async_op (msg_Op msg)); quiet_auto.
Qed.

Lemma quiet_HealthCheck : quiet is_marked HealthCheck.
Proof. unfold HealthCheck. quiet_auto. Qed.

Lemma quiet_popUnexpiredMsg_from (queue : QueueName) (expired : Counter)
    (queue_closed : bool) (msgs : list Message) :
  quiet is_marked (popUnexpiredMsg_from queue expired msgs queue_closed).
Proof.
  induction msgs as [| msg msgs IH]; cbn [popUnexpiredMsg_from].
  - apply quiet_ret.
  - quiet_auto. exact IH.
Qed.

Lemma quiet_popUnexpiredMsg (queue : QueueName) (expired : Counter) :
  quiet is_marked (popUnexpiredMsg queue expired).
Proof.
  unfold popUnexpiredMsg. quiet_auto. apply quiet_popUnexpiredMsg_from.
Qed.

(** [handleSyncMsg] is no part of the shutdown routine. *)
Lemma quiet_handleSyncMsg (msg : Message) : quiet is_terminal (handleSyncMsg msg).
Proof.
  unfold handleSyncMsg, handleSyncMsg_engine, handleSyncMsg_switch. quiet_auto.
Qed.

Lemma quiet_executeAsyncMsg (msg : Message) : quiet is_marked (executeAsyncMsg msg).
Proof. unfold executeAsyncMsg. quiet_auto. Qed.

Lemma quiet_handleChanMsg (msg : InboundMessage) : quiet is_marked (handleChanMsg msg).
Proof. unfold handleChanMsg. quiet_auto. Qed.

Lemma quiet_handleAsyncMsg_task (msg : Message) :
  quiet is_marked (handleAsyncMsg_task msg).
Proof.
  unfold handleAsyncMsg_task. quiet_auto.
  - apply quiet_executeAsyncMsg.
  - apply quiet_StopWithError.
Qed.

Lemma quiet_dispatchSync_turn : quiet is_terminal dispatchSync_turn.
Proof.
  unfold dispatchSync_turn. quiet_auto.
  - apply (quiet_weaken _ is_marked); [exact marked_terminal |].
    apply quiet_popUnexpiredMsg.
  - apply quiet_handleSyncMsg.
  - apply (quiet_weaken _ is_marked); [exact marked_terminal |].
    apply quiet_StopWithError.
Qed.

Lemma quiet_dispatchAsync : quiet is_marked dispatchAsync.
Proof.
  unfold dispatchAsync, dispatchAsync_turn, handleAsyncMsg. quiet_auto.
  apply quiet_popUnexpiredMsg.
Qed.

Lemma quiet_dispatchChans_turn (c : SelectCase) :
  quiet is_marked (dispatchChans_turn c).
Proof.
  unfold dispatchChans_turn. quiet_auto;
    auto using quiet_handleChanMsg, quiet_StopWithError.
Qed.

Lemma quiet_Pool_run (i : nat) : quiet is_marked (Pool_run i).
Proof. unfold Pool_run. quiet_auto. apply quiet_handleAsyncMsg_task. Qed.

Lemma quiet_RegisterTimeout_fires : quiet is_marked RegisterTimeout_fires.
Proof. unfold RegisterTimeout_fires. quiet_auto. Qed.

Lemma quiet_set_ctx_State (state : EngineState) :
  quiet is_marked (modify_h (set_ctx_State state)).
Proof. quiet_auto. Qed.

(** [shutdown] closes [h.closed], once, whatever it finds: no engine, an
    engine whose [Shutdown] fails, or one whose [Shutdown] succeeds. *)
Lemma shutdown_closes_once (w : World) :
  let w' := snd (shutdown w) in
  numDispatchersClosed (h w') = numDispatchersClosed (h w)
  /\ closed (h w') = S (closed (h w))
  /\ exists l,
       events w' = events w ++ l /\ closes l = 1
       /\ filter is_sync_dispatch l = [].
Proof.
  unfold shutdown. run.
  match goal with
  | |- context [Engine_Get ?a ?b] => destruct (Engine_Get a b) as [engine |]
  end; run;
    [destruct (engine_returns engine (events w) common.Shutdown); run |];
    destruct (onStopped (h w)); run;
    (split; [reflexivity |]); (split; [reflexivity |]);
    eexists; (split; [trace; reflexivity |]); split; reflexivity.
Qed.

Lemma closeDispatcher_spec (w : World) :
  let w' := snd (closeDispatcher w) in
  let n' := int_wrap (numDispatchersClosed (h w) + 1) in
  numDispatchersClosed (h w') = n'
  /\ exists l,
       events w' = events w ++ l
       /\ filter is_sync_dispatch l = []
       /\ if (n' <? numDispatchersToClose)%Z
          then closed (h w') = closed (h w) /\ terminal l = []
          else closed (h w') = S (closed (h w)) /\ closes l = 1.
Proof.
  unfold closeDispatcher. run.
  destruct (_ <? _)%Z; run.
  - split; [reflexivity |]. eexists. split; [trace; reflexivity |].
    split; [reflexivity |]. split; reflexivity.
  - match goal with
    | |- context [shutdown ?w1] =>
        destruct (shutdown_closes_once w1) as (Hn & Hc & l & Hl & Hcl & Hsd);
        destruct (shutdown w1) as [u w2]
    end.
    cbn [fst snd h events] in *. split; [exact Hn |].
    exists (Ev_Lock :: l ++ [Ev_Unlock]). split; [| split].
    + rewrite Hl. trace. reflexivity.
    + cbn [filter is_sync_dispatch]. rewrite filter_app, Hsd. reflexivity.
    + split; [exact Hc |]. cbn [closes]. rewrite closes_app, Hcl. reflexivity.
Qed.

Lemma dispatchers_returned_le (gs : Goroutines) : dispatchers_returned gs <= 3.
Proof.
  unfold dispatchers_returned, has_returned.
  destruct (go_dispatchSync gs), (go_dispatchAsync gs), (go_dispatchChans gs);
    cbn; lia.
Qed.

Lemma quiet_run {A : Type} {P : Event -> bool} {m : M A} {w w' : World} {a : A} :
  quiet P m -> m w = (a, w') -> quiet_since P w w'.
Proof. intros Hq E. specialize (Hq w). rewrite E in Hq. exact Hq. Qed.

(** The goroutines after a step of a dispatcher: the others are where
    they were. *)
Ltac goroutines s :=
  destruct s as [? [? ? ?]];
  unfold others_go_on, other_returns, dispatchers_started, dispatchers_returned,
    set_go_dispatchSync, set_go_dispatchAsync, set_go_dispatchChans in *;
  cbn in *; subst; cbn; repeat split; intros;
  first [ reflexivity | tauto | lia | intuition congruence ].

(** The steps of the handler, by what they do to the shutdown: a turn of
    the sync dispatcher; the return of another dispatcher, which calls
    [closeDispatcher]; and every other step, which is no part of the
    shutdown routine and dispatches no sync message. *)
Lemma step_cases (s s' : System) :
  step s s' ->
  (go_dispatchSync (go s) = running
   /\ exists t w1,
        dispatchSync_turn (world s) = (t, w1)
        /\ ((t <> Return /\ s' = mkSystem w1 (go s))
            \/ (t = Return
                /\ s' = mkSystem (snd (closeDispatcher w1))
                                 (set_go_dispatchSync returned (go s)))))
  \/ (exists w1,
        quiet_since is_marked (world s) w1
        /\ world s' = snd (closeDispatcher w1)
        /\ other_returns (go s) (go s'))
  \/ (quiet_since is_marked (world s) (world s')
      /\ others_go_on (go s) (go s')).
Proof.
  intros Hstep.
  destruct Hstep as [s g w' Hrun E | s g w' Hrun E | s g w' Hrun Hpool E
                    | s c g w' Hrun Hready E | s i w' E | s msg w' E | s w' E
                    | s w' E | s r w' E | s state w' E].
  - (* dispatchSync *)
    left. split; [exact Hrun |].
    unfold dispatchSync, bind in E.
    destruct (dispatchSync_turn (world s)) as [t w1].
    exists t, w1. split; [reflexivity |].
    destruct t; [left | right | left];
      try (destruct (closeDispatcher w1) as [[] w2]);
      injection E as <- <-; (split; [congruence || reflexivity |]);
      try reflexivity;
      destruct s as [w [a b c]]; cbn in *; subst; reflexivity.
  - (* dispatchAsync *)
    right. right. cbn [world go].
    split; [exact (quiet_run quiet_dispatchAsync E) |].
    assert (Hg : g = running \/ g = in_Pool_Shutdown).
    { unfold dispatchAsync, bind in E.
      destruct (dispatchAsync_turn (world s)) as [[] w1];
        [| destruct (Pool_Shutdown w1) |]; injection E as <- <-; auto. }
    destruct Hg as [-> | ->]; goroutines s.
  - (* the deferred function of dispatchAsync *)
    right. left. exists (world s). cbn [world go].
    split; [apply quiet_since_refl |].
    unfold dispatchAsync_deferred, bind in E.
    destruct (closeDispatcher (world s)) as [[] w2].
    injection E as <- <-. split; [reflexivity |]. goroutines s.
  - (* dispatchChans *)
    unfold dispatchChans, bind in E.
    destruct (dispatchChans_turn c (world s)) as [t w1] eqn:Et.
    pose proof (quiet_run (quiet_dispatchChans_turn c) Et) as Hq.
    destruct t.
    + injection E as <- <-. right. right. cbn [world go].
      split; [exact Hq |]. goroutines s.
    + destruct (closeDispatcher w1) as [[] w2] eqn:Ec.
      injection E as <- <-. right. left. exists w1. cbn [world go].
      split; [exact Hq |]. rewrite Ec. split; [reflexivity |]. goroutines s.
    + injection E as <- <-. right. right. cbn [world go].
      split; [exact Hq |]. goroutines s.
  - right. right. split; [exact (quiet_run (quiet_Pool_run i) E) |].
    cbn [go]. unfold others_go_on. auto.
  - right. right. split; [exact (quiet_run (quiet_Push msg) E) |].
    cbn [go]. unfold others_go_on. auto.
  - right. right. split; [exact (quiet_run quiet_RegisterTimeout_fires E) |].
    cbn [go]. unfold others_go_on. auto.
  - right. right. split; [exact (quiet_run quiet_Stop E) |].
    cbn [go]. unfold others_go_on. auto.
  - right. right. split; [exact (quiet_run quiet_HealthCheck E) |].
    cbn [go]. unfold others_go_on. auto.
  - right. right. split; [exact (quiet_run (quiet_set_ctx_State state) E) |].
    cbn [go]. unfold others_go_on. auto.
Qed.

(** A step that is no part of the shutdown routine, and after which as
    many dispatchers have returned as before. *)
Lemma shutdown_invariant_quiet (s0 s : System) (w' : World) (gs' : Goroutines) :
  shutdown_invariant s0 s ->
  quiet_since is_terminal (world s) w' ->
  dispatchers_started gs' ->
  dispatchers_returned gs' = dispatchers_returned (go s) ->
  shutdown_invariant s0 (mkSystem w' gs').
Proof.
  intros (Hgo & Hn & l & Hl & Hcl & Hlt & Heq) (Qn & Qc & l' & Ql & Qt) Hgs' Hret.
  unfold shutdown_invariant. cbn [world go]. rewrite Hret.
  split; [exact Hgs' |]. split; [congruence |].
  exists (l ++ l'). split; [rewrite Ql, Hl, app_assoc; reflexivity |].
  split; [rewrite closes_app, (terminal_nil_closes l' Qt), Qc; lia |].
  split.
  - intros Hlt'. destruct (Hlt Hlt') as [H0 Ht].
    split; [congruence |]. rewrite terminal_app, Ht. exact Qt.
  - intros Heq'. rewrite Qc. auto.
Qed.

(** A dispatcher returns: it has run its loop to the end, which is no part
    of the shutdown routine, and then calls [closeDispatcher]. *)
Lemma shutdown_invariant_closeDispatcher (s0 s : System) (w1 : World)
    (gs' : Goroutines) :
  shutdown_invariant s0 s ->
  quiet_since is_terminal (world s) w1 ->
  dispatchers_started gs' ->
  dispatchers_returned gs' = S (dispatchers_returned (go s)) ->
  shutdown_invariant s0 (mkSystem (snd (closeDispatcher w1)) gs').
Proof.
  intros (Hgo & Hn & l & Hl & Hcl & Hlt & Heq) (Qn & Qc & l' & Ql & Qt) Hgs' Hret.
  pose proof (dispatchers_returned_le gs') as Hle.
  destruct (closeDispatcher_spec w1) as (Cn & l'' & Cl & _ & Cc).
  assert (Hlt3 : dispatchers_returned (go s) < 3) by lia.
  destruct (Hlt Hlt3) as [H0 Ht].
  assert (Hn' : int_wrap (numDispatchersClosed (h w1) + 1)
                = Z.of_nat (dispatchers_returned gs')).
  { rewrite Qn, Hn, Hret.
    destruct (dispatchers_returned (go s)) as [| [| [| k]]]; try reflexivity; lia. }
  rewrite Hn' in Cn, Cc.
  unfold shutdown_invariant. cbn [world go].
  split; [exact Hgs' |]. split; [exact Cn |].
  exists (l ++ l' ++ l''). split.
  { rewrite Cl, Ql, Hl, <- !app_assoc. reflexivity. }
  unfold numDispatchersToClose in Cc.
  destruct (Z.ltb_spec (Z.of_nat (dispatchers_returned gs')) 3) as [Hlt' | Hge].
  - destruct Cc as [Cc Ct].
    split; [rewrite !closes_app, Hcl, (terminal_nil_closes l' Qt),
              (terminal_nil_closes l'' Ct); lia |].
    split; [| lia].
    intros _. split; [congruence |].
    rewrite !terminal_app, Ht, Ct. unfold terminal. rewrite Qt. reflexivity.
  - destruct Cc as [Cc Ct].
    split; [rewrite !closes_app, Hcl, (terminal_nil_closes l' Qt), Ct; lia |].
    split; [lia |]. intros _. congruence.
Qed.

Lemma started_shutdown_invariant (s0 : System) :
  started s0 -> shutdown_invariant s0 s0.
Proof.
  intros (Hgo & Hn & Hc). unfold shutdown_invariant. rewrite Hgo, Hn, Hc.
  split; [unfold dispatchers_started; cbn; auto |]. split; [reflexivity |].
  exists []. split; [symmetry; apply app_nil_r |].
  split; [reflexivity |]. split; [auto |]. cbn. lia.
Qed.

Lemma step_shutdown_invariant (s0 s s' : System) :
  shutdown_invariant s0 s -> step s s' -> shutdown_invariant s0 s'.
Proof.
  intros Hinv Hstep. pose proof Hinv as (Hgo & _).
  destruct (step_cases s s' Hstep)
    as [(Hrun & t & w1 & Et & [[Ht ->] | [-> ->]])
       | [(w1 & Hq & Hw & Hret & Hn & Hst) | (Hq & Hsync & Hn & Hst)]].
  - apply (shutdown_invariant_quiet s0 s); auto.
    exact (quiet_run quiet_dispatchSync_turn Et).
  - apply (shutdown_invariant_closeDispatcher s0 s); auto.
    + exact (quiet_run quiet_dispatchSync_turn Et).
    + goroutines s.
    + goroutines s.
  - destruct s' as [w' gs']. cbn [world go] in *. subst w'.
    apply (shutdown_invariant_closeDispatcher s0 s); auto.
    exact (quiet_since_weaken is_marked is_terminal _ _ marked_terminal Hq).
  - destruct s' as [w' gs']. cbn [world go] in *.
    apply (shutdown_invariant_quiet s0 s); auto.
    exact (quiet_since_weaken is_marked is_terminal _ _ marked_terminal Hq).
Qed.

Lemma steps_shutdown_invariant (s0 s : System) :
  started s0 -> steps s0 s -> shutdown_invariant s0 s.
Proof.
  intros Hs Hsteps. induction Hsteps as [s | s s' s'' _ IH Hstep].
  - apply started_shutdown_invariant. exact Hs.
  - eapply step_shutdown_invariant; [exact (IH Hs) | exact Hstep].
Qed.

(** Once the sync dispatcher has returned it stays so, and no sync message
    is dispatched any more. *)
Lemma steps_dispatchSync_returned (s s' : System) :
  go_dispatchSync (go s) = returned ->
  steps s s' ->
  go_dispatchSync (go s') = returned
  /\ exists l,
       events (world s') = events (world s) ++ l
       /\ filter is_sync_dispatch l = [].
Proof.
  intros Hret Hsteps. induction Hsteps as [s | s s' s'' _ IH Hstep].
  - split; [exact Hret |]. exists []. split; [symmetry; apply app_nil_r | reflexivity].
  - destruct (IH Hret) as (Hret' & l & Hl & Hf).
    destruct (step_cases s' s'' Hstep)
      as [(Hrun & _) | [(w1 & Hq & Hw & Hsync & _) | (Hq & Hsync & _)]].
    + congruence.
    + split; [congruence |].
      destruct Hq as (_ & _ & l1 & Hl1 & Hf1).
      destruct (closeDispatcher_spec w1) as (_ & l2 & Hl2 & Hf2 & _).
      exists (l ++ l1 ++ l2). split.
      * rewrite Hw, Hl2, Hl1, Hl, <- !app_assoc. reflexivity.
      * rewrite !filter_app, Hf, Hf2,
          (filter_nil_weaken is_marked is_sync_dispatch l1 marked_sync_dispatch Hf1).
        reflexivity.
    + split; [congruence |].
      destruct Hq as (_ & _ & l1 & Hl1 & Hf1).
      exists (l ++ l1). split.
      * rewrite Hl1, Hl, <- app_assoc. reflexivity.
      * rewrite filter_app, Hf,
          (filter_nil_weaken is_marked is_sync_dispatch l1 marked_sync_dispatch Hf1).
        reflexivity.
Qed.

(** A [Start] that succeeds leaves the handler [started]: it starts the
    three dispatchers and runs no part of the shutdown routine.  A [Start]
    that fails starts none and runs [shutdown] itself. *)
Lemma Start_spec (w w' : World) (gs : Goroutines) :
  Start w = (Returns gs, w') ->
  (gs = three_dispatchers
   /\ numDispatchersClosed (h w') = numDispatchersClosed (h w)
   /\ closed (h w') = closed (h w))
  \/ (gs = no_goroutine /\ closed (h w') = S (closed (h w))).
Proof.
  assert (Hgear : quiet is_marked selectStartingGear)
    by (unfold selectStartingGear; quiet_auto).
  unfold Start. unfold bind at 1. cbn [ctx_Lock_Lock emit]. unfold bind at 1.
  match goal with
  | |- context [selectStartingGear ?w1] =>
      destruct (selectStartingGear w1) as [gear w2] eqn:Eg;
      destruct (quiet_run Hgear Eg) as (Hn & Hc & _); cbn [h] in Hn, Hc
  end.
  destruct gear as [[[gear |] [err |]] | reason]; run;
    repeat match goal with
           | |- context [shutdown ?w1] =>
               pose proof (shutdown_closes_once w1) as (_ & Hs & _);
               destruct (shutdown w1) as [[] w3]; cbn [fst snd h] in Hs
           | |- context [match ?x with _ => _ end] => destruct x; run
           end;
    intros E; try discriminate E; injection E as <- <-; cbn [h];
    first [ left; repeat split; congruence | right; split; congruence ].
Qed.

Lemma Start_started (w w' : World) :
  numDispatchersClosed (h w) = 0%Z ->
  closed (h w) = 0 ->
  Start w = (Returns three_dispatchers, w') ->
  started (mkSystem w' three_dispatchers).
Proof.
  intros Hn Hc E. destruct (Start_spec w w' three_dispatchers E)
    as [(_ & Hn' & Hc') | (Hgs & _)]; [| discriminate Hgs].
  repeat split; cbn [world h]; congruence.
Qed.

(** C2.  Once [Start] has started the three dispatchers, the terminal shutdown
    routine runs only when the three have reported closed, and [h.closed]
    (what [Stopped()] returns) is closed exactly once.  In every state the
    handler reaches, the count of closed dispatchers is the number of
    dispatchers that have returned; while fewer than three have, [h.closed]
    was not closed and no event of the shutdown routine (the [Shutdown] of
    an engine, the launch of [onStopped], the closing of [h.closed]) has
    occurred; when the three have, [h.closed] was closed once.  And
    [shutdown] closes [h.closed] once whatever it finds: no current
    engine, an engine whose [Shutdown] fails, or one whose [Shutdown]
    succeeds. *)
Theorem shutdown_once_after_three_dispatchers (s0 s : System) :
  started s0 ->
  steps s0 s ->
  let n := dispatchers_returned (go s) in
  let l := since (world s0) (world s) in
  numDispatchersClosed (h (world s)) = Z.of_nat n
  /\ (n < 3 -> closed (h (world s)) = 0 /\ terminal l = [])
  /\ (n = 3 -> closed (h (world s)) = 1 /\ closes l = 1)
  /\ (forall w,
        closed (h (snd (shutdown w))) = S (closed (h w))
        /\ closes (since w (snd (shutdown w))) = 1).
Proof.
  intros Hs Hsteps n l.
  destruct (steps_shutdown_invariant s0 s Hs Hsteps)
    as (_ & Hn & l' & Hl & Hcl & Hlt & Heq).
  assert (El : l = l') by (apply since_app; exact Hl). rewrite El.
  split; [exact Hn |]. split; [exact Hlt |]. split.
  - intros H3. specialize (Heq H3). split; [exact Heq | congruence].
  - intros w. destruct (shutdown_closes_once w) as (_ & Hc & l0 & Hl0 & Hc0 & _).
    split; [exact Hc |]. rewrite (since_app w _ l0 Hl0). exact Hc0.
Qed.

(** *** An engine error in the sync dispatcher *)

(** The type switch returns what the engine method it calls returns. *)
Lemma handleSyncMsg_switch_result (engine : common_Engine) (nodeID : NodeID)
    (op : Op) (body : Payload) (w : World) :
  let sw := handleSyncMsg_switch engine nodeID op body w in
  calls (since w (snd sw)) = []
  \/ exists pre c,
       since w (snd sw) = pre ++ [Ev_Engine (engine_name engine) c]
       /\ calls pre = []
       /\ fst sw = engine_returns engine (events w ++ pre) c.
Proof.
  unfold handleSyncMsg_switch; destruct body; run;
    repeat match goal with
           | |- context [match ?x with _ => _ end] => destruct x; run
           end;
    (erewrite since_app;
     [| cbn [events]; trace; try reflexivity; symmetry; apply app_nil_r]);
    cbn [calls]; auto; right;
    first [ exists []; eexists; split; [reflexivity |];
            split; [reflexivity |]; rewrite app_nil_r; reflexivity
          | eexists [_]; eexists; split; [reflexivity |];
            split; reflexivity ].
Qed.

(** The events of [handleSyncMsg] around the type switch. *)
Lemma handleSyncMsg_events (msg : Message) (w : World) (engine : common_Engine) :
  fst (handleSyncMsg_engine msg w) = inr engine ->
  let sw := handleSyncMsg_switch engine (msg_NodeID msg) (msg_Op msg)
              (msg_Message msg) (sync_locked msg w) in
  exists epilogue,
    events (snd (handleSyncMsg msg w)) = events (snd sw) ++ epilogue
    /\ calls epilogue = [].
Proof.
  intros E sw. unfold handleSyncMsg. run. trace.
  change (mkWorld (h w) (clock w) (S (S (clock_reads w))) _) with (sync_locked msg w).
  rewrite (handleSyncMsg_engine_inr msg w (sync_locked msg w) engine eq_refl E).
  fold sw. destruct sw as [r w3].
  destruct (_ && _); run; cbn [fst snd]; eexists;
    (split; [trace; reflexivity | reflexivity]).
Qed.

(** Where the one engine call of a trace is. *)
Lemma call_position (a b a' b' : Trace) (n n' : string) (c c' : common.EngineCall) :
  calls a = [] -> calls b = [] ->
  a ++ Ev_Engine n c :: b = a' ++ Ev_Engine n' c' :: b' ->
  a = a' /\ c = c'.
Proof.
  revert a'. induction a as [| x a IH]; intros a' Ha Hb E.
  - destruct a' as [| x' a']; cbn [app] in E.
    + inversion E. auto.
    + inversion E as [[Hx Hb']]. rewrite Hb', calls_app in Hb. cbn [calls] in Hb.
      destruct (calls a'); discriminate Hb.
  - destruct a' as [| x' a']; cbn [app] in E.
    + inversion E as [[Hx Hb']]. rewrite Hx in Ha. discriminate Ha.
    + inversion E as [[Hx Hb']].
      destruct (IH a') as [-> ->]; auto.
      destruct x; cbn [calls] in Ha; auto. discriminate Ha.
Qed.

(** When the engine method that [handleSyncMsg] calls returns an error,
    [handleSyncMsg] returns that error. *)
Lemma handleSyncMsg_engine_error (msg : Message) (w : World) (engine : common_Engine)
    (pre post : Trace) (c : common.EngineCall) :
  fst (handleSyncMsg_engine msg w) = inr engine ->
  since w (snd (handleSyncMsg msg w)) = pre ++ Ev_Engine (engine_name engine) c :: post ->
  fst (handleSyncMsg msg w) = engine_returns engine (events w ++ pre) c.
Proof.
  intros E Hsince.
  destruct (handleSyncMsg_with_engine msg w engine E) as (Hr & Hcalls & _).
  destruct (handleSyncMsg_events msg w engine E) as (epilogue & Hev & Hep).
  destruct (handleSyncMsg_switch_frame engine (msg_NodeID msg) (msg_Op msg)
              (msg_Message msg) (sync_locked msg w)) as (_ & _ & _ & l & Hl).
  cbv zeta in *. rewrite Hr.
  set (sw := handleSyncMsg_switch engine (msg_NodeID msg) (msg_Op msg)
               (msg_Message msg) (sync_locked msg w)) in *.
  rewrite (since_app _ _ l Hl) in Hcalls.
  destruct (handleSyncMsg_switch_result engine (msg_NodeID msg) (msg_Op msg)
              (msg_Message msg) (sync_locked msg w))
    as [Hnone | (pre' & c' & Hsw & Hpre' & Hres)]; fold sw in Hnone || fold sw in Hsw, Hres.
  - rewrite (since_app _ _ l Hl) in Hnone.
    rewrite Hsince, Hnone, calls_app in Hcalls. cbn [calls] in Hcalls.
    destruct (calls pre); discriminate Hcalls.
  - rewrite (since_app _ _ l Hl) in Hsw. subst l.
    rewrite Hl in Hev. unfold sync_locked in Hev at 1. cbn [events] in Hev.
    rewrite <- !app_assoc in Hev.
    rewrite (since_app w _ _ Hev) in Hsince. cbn [app] in Hsince.
    match type of Hsince with
    | ?e1 :: ?e2 :: ?e3 :: ?e4 :: pre' ++ ?call :: epilogue = _ =>
        change (([e1; e2; e3; e4] ++ pre') ++ call :: epilogue
                = pre ++ Ev_Engine (engine_name engine) c :: post) in Hsince
    end.
    apply call_position in Hsince; [| rewrite calls_app, Hpre'; reflexivity | exact Hep].
    destruct Hsince as [<- <-]. rewrite Hres. unfold sync_locked. cbn [events].
    rewrite <- app_assoc. reflexivity.
Qed.

(** [Stop] runs its function once: it shuts both queues down and closes
    [closingChan]; a later call does nothing. *)
Lemma Stop_spec (w : World) :
  let w' := snd (Stop w) in
  closeOnce (h w') = true
  /\ (closeOnce (h w) = true -> w' = w)
  /\ (closeOnce (h w) = false ->
      mq_closed (syncMessageQueue (h w')) = true
      /\ mq_closed (asyncMessageQueue (h w')) = true
      /\ closingChan (h w') = true
      /\ exists l,
           events w' = events w ++ Ev_QueueShutdown syncQueue
                         :: Ev_QueueShutdown asyncQueue :: Ev_close_closingChan :: l).
Proof.
  unfold Stop, MessageQueue_Shutdown. run.
  destruct (closeOnce (h w)) eqn:E; run.
  - split; [exact E |]. split; [reflexivity | discriminate].
  - match goal with
    | |- context [Engine_Get ?a ?b] => destruct (Engine_Get a b)
    end; run; (split; [reflexivity |]); (split; [discriminate |]); intros _;
      repeat (split; [reflexivity |]); eexists; trace; reflexivity.
Qed.

(** *** The lock and the completion of a message *)

Lemma unlocked_app_quiet (held : bool) (l u : Trace) :
  lock_ops l = [] ->
  unlocked held (l ++ u) = (if held then [] else l) ++ unlocked held u.
Proof.
  induction l as [| e l IH]; intros Hl.
  - destruct held; reflexivity.
  - unfold lock_ops in *. cbn [filter] in Hl.
    destruct e; cbn [is_lock_op] in Hl; try discriminate Hl;
      cbn [app unlocked]; rewrite (IH Hl); destruct held; reflexivity.
Qed.

Lemma lock_ops_app (t u : Trace) : lock_ops (t ++ u) = lock_ops t ++ lock_ops u.
Proof. apply filter_app. Qed.

(** A trace in which the lock is taken once: before, under the lock,
    after. *)
Lemma lock_bracket (pre l post : Trace) :
  lock_ops pre = [] -> lock_ops l = [] -> lock_ops post = [] ->
  lock_ops (pre ++ Ev_Lock :: l ++ Ev_Unlock :: post) = [Ev_Lock; Ev_Unlock]
  /\ unlocked false (pre ++ Ev_Lock :: l ++ Ev_Unlock :: post) = pre ++ post.
Proof.
  intros Hpre Hl Hpost. split.
  - rewrite lock_ops_app. cbn [lock_ops filter is_lock_op].
    fold (lock_ops (l ++ Ev_Unlock :: post)). rewrite lock_ops_app.
    cbn [lock_ops filter is_lock_op]. fold (lock_ops post).
    rewrite Hpre, Hl, Hpost. reflexivity.
  - rewrite (unlocked_app_quiet false pre _ Hpre). cbn [unlocked].
    rewrite (unlocked_app_quiet true l _ Hl). cbn [unlocked app].
    rewrite <- (app_nil_r post) at 1.
    rewrite (unlocked_app_quiet false post [] Hpost). cbn [unlocked].
    rewrite app_nil_r. reflexivity.
Qed.

Lemma dispatch_events_lock_ops (l : Trace) :
  forallb is_dispatch_event l = true -> lock_ops l = [].
Proof.
  induction l as [| e l IH]; [reflexivity |]. cbn [forallb]. intros H.
  apply andb_prop in H as [He Hl]. unfold lock_ops. cbn [filter].
  destruct e; try discriminate He; exact (IH Hl).
Qed.

Lemma dispatch_events_completions (l : Trace) :
  forallb is_dispatch_event l = true -> completions l = [].
Proof.
  induction l as [| e l IH]; [reflexivity |]. cbn [forallb]. intros H.
  apply andb_prop in H as [He Hl].
  destruct e; try discriminate He; exact (IH Hl).
Qed.

Lemma dispatch_events_observed (hist : Histogram) (l : Trace) :
  forallb is_dispatch_event l = true -> observed hist l = [].
Proof.
  induction l as [| e l IH]; [reflexivity |]. cbn [forallb]. intros H.
  apply andb_prop in H as [He Hl].
  destruct e; try discriminate He; exact (IH Hl).
Qed.

Lemma dispatch_events_warning (l : Trace) :
  forallb is_dispatch_event l = true -> filter is_warning l = [].
Proof.
  induction l as [| e l IH]; [reflexivity |]. cbn [forallb]. intros H.
  apply andb_prop in H as [He Hl]. cbn [filter].
  destruct e as [lvl ? ? | | | | | | | | | | | | | | | | |];
    try discriminate He; try exact (IH Hl).
  destruct lvl; try discriminate He; exact (IH Hl).
Qed.

(** The type switch of [handleSyncMsg] reads the handler and the trace,
    and adds debug lines and calls to the trace. *)
Lemma handleSyncMsg_switch_trace (engine : common_Engine) (nodeID : NodeID)
    (op : Op) (body : Payload) (w : World) :
  let w' := snd (handleSyncMsg_switch engine nodeID op body w) in
  h w' = h w /\ clock w' = clock w /\ clock_reads w' = clock_reads w
  /\ exists l, events w' = events w ++ l /\ forallb is_dispatch_event l = true.
Proof.
  cbv zeta. destruct (handleSyncMsg_switch engine nodeID op body w) as [r w'] eqn:E.
  unfold handleSyncMsg_switch in E. destruct body; run_in E;
    repeat match type of E with
           | context [match ?x with _ => _ end] => destruct x; run_in E
           end;
    ran E; repeat split; eexists;
    (split; [trace; try reflexivity; symmetry; apply app_nil_r |]);
    reflexivity.
Qed.

(** The part of [handleSyncMsg] that runs under the lock. *)
Lemma handleSyncMsg_locked_trace (msg : Message) (w : World) :
  let m := (e <- handleSyncMsg_engine msg ;;
            match e with
            | inl _ => ret None
            | inr engine =>
                handleSyncMsg_switch engine (msg_NodeID msg) (msg_Op msg) (msg_Message msg)
            end) in
  let w' := snd (m w) in
  h w' = h w /\ clock w' = clock w /\ clock_reads w' = clock_reads w
  /\ exists l, events w' = events w ++ l /\ forallb is_dispatch_event l = true.
Proof.
  cbv zeta. unfold bind.
  destruct (handleSyncMsg_engine msg w) as [[[] | engine] w1] eqn:E.
  - assert (E1 : fst (handleSyncMsg_engine msg w) = inl tt) by (rewrite E; reflexivity).
    destruct (handleSyncMsg_engine_inl msg w E1) as [fields Hw].
    rewrite E in Hw. cbn [snd] in Hw. subst w1. cbn [ret snd h clock clock_reads events].
    repeat split. eexists. split; reflexivity.
  - assert (E1 : fst (handleSyncMsg_engine msg w) = inr engine) by (rewrite E; reflexivity).
    pose proof (handleSyncMsg_engine_inr msg w w engine eq_refl E1) as Hw.
    rewrite E in Hw. injection Hw as ->.
    apply handleSyncMsg_switch_trace.
Qed.

(** [handleSyncMsg], around the part that runs under the lock. *)
Lemma handleSyncMsg_trace (msg : Message) (w : World) :
  let w' := snd (handleSyncMsg msg w) in
  let op := msg_Op msg in
  let t0 := clock w (clock_reads w) in
  let t1 := clock w (S (clock_reads w)) in
  let t2 := clock w (S (S (clock_reads w))) in
  h w' = h w /\ clock w' = clock w /\ clock_reads w' = 3 + clock_reads w
  /\ exists l,
       forallb is_dispatch_event l = true
       /\ events w'
          = events w ++ [Ev_Log Debug "forwarding sync message to consensus" [Op_String op];
             Ev_Log Verbo "forwarding sync message to consensus" [Op_String op];
             Ev_StartProcessing (msg_NodeID msg) t0]
            ++ Ev_Lock :: l
            ++ Ev_Unlock
            :: [Ev_StopProcessing (msg_NodeID msg) t2;
                Ev_Observe op msgHandlingTime (Time_Sub t1 t0);
                Ev_Observe op processingTime (Time_Sub t2 t0);
                Ev_OnFinishedHandling (msg_InboundMessage msg);
                Ev_Log Debug "finished handling sync message" [Op_String op]]
            ++ (if (syncProcessingTimeWarnLimit <? Time_Sub t2 t0)%Z
                   && State_eqb (es_State (ctx_State (h w))) NormalOp
                then [Ev_Log Warn "handling sync message took longer than expected"
                        [Op_String op]]
                else []).
Proof.
  cbv zeta. destruct (handleSyncMsg msg w) as [r w'] eqn:E. cbn [snd].
  unfold handleSyncMsg in E. run_in E.
  match type of E with
  | context [handleSyncMsg_engine msg ?w1] =>
      pose proof (handleSyncMsg_locked_trace msg w1) as H;
      cbv zeta in H; unfold bind in H;
      destruct (handleSyncMsg_engine msg w1) as [[[] | engine] w2]
  end;
  [ unfold ret in H
  | destruct (handleSyncMsg_switch engine (msg_NodeID msg) (msg_Op msg)
                (msg_Message msg) w2) as [r3 w3] ];
  destruct H as (Hh & Hc & Hr & l & Hl & Hd);
  cbn [fst snd h clock clock_reads events] in Hh, Hc, Hr, Hl;
  rewrite ?Hc, ?Hr in E;
  destruct (_ && _); run_in E; ran E;
    (split; [exact Hh |]); (split; [reflexivity |]);
    (split; [reflexivity |]);
    exists l; (split; [exact Hd |]);
    rewrite Hl; trace; reflexivity.
Qed.

(** X1.  Whatever the message and the state of the chain (the message is
    dropped, handled, or its handling fails), [handleSyncMsg] leaves the
    fields of the handler as they are (an engine that changes the state of
    the chain while it is called does so in a step of its own,
    [step_State]), reads the clock three times, and takes [h.ctx.Lock]
    once and releases it: its trace is what it does
    before it takes the lock, [Lock], what it does under the lock,
    [Unlock], and what it does after.  It calls an engine or the subnet
    connector only under the lock, and it runs the completion callback of
    the message exactly once, after it has released the lock: not before
    it takes the lock and not under it. *)
Theorem handleSyncMsg_lock_and_completion (msg : Message) (w : World) :
  let w' := snd (handleSyncMsg msg w) in
  let t := since w w' in
  h w' = h w
  /\ clock_reads w' = 3 + clock_reads w
  /\ lock_ops t = [Ev_Lock; Ev_Unlock]
  /\ filter is_consensus_call (unlocked false t) = []
  /\ completions t = [msg_InboundMessage msg]
  /\ completions (unlocked false t) = [msg_InboundMessage msg]
  /\ exists before locked after,
       t = before ++ Ev_Lock :: locked ++ Ev_Unlock :: after
       /\ lock_ops before = [] /\ lock_ops locked = [] /\ lock_ops after = []
       /\ filter is_consensus_call before = []
       /\ filter is_consensus_call after = []
       /\ completions before = []
       /\ completions locked = []
       /\ completions after = [msg_InboundMessage msg].
Proof.
  cbv zeta.
  destruct (handleSyncMsg_trace msg w) as (Hh & _ & Hr & l & Hd & Ht).
  cbv zeta in Ht. rewrite (since_app _ _ _ Ht).
  pose proof (dispatch_events_lock_ops l Hd) as Hlock.
  pose proof (dispatch_events_completions l Hd) as Hcompl.
  match goal with
  | |- context [?pre ++ Ev_Lock :: l ++ Ev_Unlock :: ?post] =>
      assert (Hpost : lock_ops post = [] /\ filter is_consensus_call post = []
                      /\ completions post = [msg_InboundMessage msg])
        by (destruct (_ && _); repeat split; reflexivity);
      destruct Hpost as (Hpost & Hcalls & Hdone);
      destruct (lock_bracket pre l post eq_refl Hlock Hpost) as [-> ->];
      set (after := post) in *
  end.
  rewrite !completions_app. cbn [completions]. rewrite completions_app, Hcompl.
  cbn [completions]. rewrite Hdone.
  rewrite !filter_app, Hcalls.
  split; [exact Hh |]. split; [exact Hr |].
  repeat (split; [reflexivity |]).
  eexists _, l, after. split; [reflexivity |].
  split; [reflexivity |]. split; [exact Hlock |]. split; [exact Hpost |].
  split; [reflexivity |]. split; [exact Hcalls |].
  split; [reflexivity |]. split; [exact Hcompl | exact Hdone].
Qed.


(** [handleChanMsg], around the part that runs under the lock. *)
Lemma handleChanMsg_trace (msg : InboundMessage) (w : World) :
  let w' := snd (handleChanMsg msg w) in
  let op := im_Op msg in
  let t0 := clock w (clock_reads w) in
  let t1 := clock w (S (clock_reads w)) in
  let t2 := clock w (S (S (clock_reads w))) in
  h w' = h w /\ clock w' = clock w /\ clock_reads w' = 3 + clock_reads w
  /\ exists l,
       forallb is_dispatch_event l = true
       /\ events w'
          = events w ++ [Ev_Log Debug "forwarding chan message to consensus" [Op_String op];
             Ev_Log Verbo "forwarding chan message to consensus" [Op_String op]]
            ++ Ev_Lock :: l
            ++ Ev_Unlock
            :: [Ev_Observe op msgHandlingTime (Time_Sub t1 t0);
                Ev_Observe op processingTime (Time_Sub t2 t0);
                Ev_OnFinishedHandling msg;
                Ev_Log Debug "finished handling chan message" [Op_String op]]
            ++ (if (syncProcessingTimeWarnLimit <? Time_Sub t2 t0)%Z
                   && State_eqb (es_State (ctx_State (h w))) NormalOp
                then [Ev_Log Warn "handling chan message took longer than expected"
                        [Op_String op]]
                else []).
Proof.
  cbv zeta. destruct (handleChanMsg msg w) as [r w'] eqn:E. cbn [snd].
  unfold handleChanMsg in E. run_in E.
  destruct (Engine_Get _ _) as [engine |]; run_in E;
    [destruct (im_Message msg); run_in E |];
    repeat match type of E with
           | context [match Engine_Get ?a ?b with _ => _ end] =>
               destruct (Engine_Get a b); run_in E
           | context [match engine_returns ?e ?t ?c with _ => _ end] =>
               destruct (engine_returns e t c); run_in E
           | context [if EngineType_eqb ?a ?b then _ else _] =>
               destruct (EngineType_eqb a b); run_in E
           end;
    destruct (_ && _); run_in E; ran E;
    repeat (split; [reflexivity |]); trace;
    first [ exists []; split; reflexivity
          | eexists [_]; split; [| reflexivity]; reflexivity
          | eexists [_; _]; split; [| reflexivity]; reflexivity ].
Qed.

(** X2.  Whatever the message and the state of the chain, [handleChanMsg]
    leaves the fields of the handler as they are (an engine that changes
    the state of the chain while it is called does so in a step of its
    own, [step_State]), reads the clock three times, and takes
    [h.ctx.Lock] once and releases it: its trace is what
    it does before it takes the lock, [Lock], what it does under the lock,
    [Unlock], and what it does after.  It calls an engine only under the
    lock, and it runs the completion callback of the message exactly once,
    after it has released the lock: not before it takes the lock and not
    under it. *)
Theorem handleChanMsg_lock_and_completion (msg : InboundMessage) (w : World) :
  let w' := snd (handleChanMsg msg w) in
  let t := since w w' in
  h w' = h w
  /\ clock_reads w' = 3 + clock_reads w
  /\ lock_ops t = [Ev_Lock; Ev_Unlock]
  /\ filter is_consensus_call (unlocked false t) = []
  /\ completions t = [msg]
  /\ completions (unlocked false t) = [msg]
  /\ exists before locked after,
       t = before ++ Ev_Lock :: locked ++ Ev_Unlock :: after
       /\ lock_ops before = [] /\ lock_ops locked = [] /\ lock_ops after = []
       /\ filter is_consensus_call before = []
       /\ filter is_consensus_call after = []
       /\ completions before = []
       /\ completions locked = []
       /\ completions after = [msg].
Proof.
  cbv zeta.
  destruct (handleChanMsg_trace msg w) as (Hh & _ & Hr & l & Hd & Ht).
  cbv zeta in Ht. rewrite (since_app _ _ _ Ht).
  pose proof (dispatch_events_lock_ops l Hd) as Hlock.
  pose proof (dispatch_events_completions l Hd) as Hcompl.
  match goal with
  | |- context [?pre ++ Ev_Lock :: l ++ Ev_Unlock :: ?post] =>
      assert (Hpost : lock_ops post = [] /\ filter is_consensus_call post = []
                      /\ completions post = [msg])
        by (destruct (_ && _); repeat split; reflexivity);
      destruct Hpost as (Hpost & Hcalls & Hdone);
      destruct (lock_bracket pre l post eq_refl Hlock Hpost) as [-> ->];
      set (after := post) in *
  end.
  rewrite !completions_app. cbn [completions]. rewrite completions_app, Hcompl.
  cbn [completions]. rewrite Hdone.
  rewrite !filter_app, Hcalls.
  split; [exact Hh |]. split; [exact Hr |].
  repeat (split; [reflexivity |]).
  eexists _, l, after. split; [reflexivity |].
  split; [reflexivity |]. split; [exact Hlock |]. split; [exact Hpost |].
  split; [reflexivity |]. split; [exact Hcalls |].
  split; [reflexivity |]. split; [exact Hcompl | exact Hdone].
Qed.

(** [executeAsyncMsg], around the call of the engine. *)
Lemma executeAsyncMsg_trace (msg : Message) (w : World) :
  let w' := snd (executeAsyncMsg msg w) in
  let op := msg_Op msg in
  let t0 := clock w (clock_reads w) in
  let t1 := clock w (S (clock_reads w)) in
  h w' = h w /\ clock w' = clock w /\ clock_reads w' = 2 + clock_reads w
  /\ exists l,
       (l = [] \/ exists engine c,
                    current_engine w = Some engine
                    /\ l = [Ev_Engine (engine_name engine) c])
       /\ events w'
          = events w ++ [Ev_Log Debug "forwarding async message to consensus" [Op_String op];
             Ev_Log Verbo "forwarding async message to consensus" [Op_String op];
             Ev_StartProcessing (msg_NodeID msg) t0]
            ++ l
            ++ [Ev_StopProcessing (msg_NodeID msg) t1;
                Ev_Observe op processingTime (Time_Sub t1 t0);
                Ev_Observe op msgHandlingTime (Time_Sub t1 t0);
                Ev_OnFinishedHandling (msg_InboundMessage msg);
                Ev_Log Debug "finished handling async message" [Op_String op]].
Proof.
  cbv zeta. destruct (executeAsyncMsg msg w) as [r w'] eqn:E. cbn [snd].
  unfold executeAsyncMsg in E. unfold current_engine. run_in E.
  destruct (Engine_Get _ _) as [engine |]; run_in E;
    [destruct (msg_Message msg); run_in E |];
    ran E; repeat (split; [reflexivity |]); trace;
    first [ exists []; split; [left; reflexivity | reflexivity]
          | eexists [_]; split;
            [right; exists engine; eexists; split; reflexivity | reflexivity] ].
Qed.

(** X3.  Whatever the message and the state of the chain,
    [executeAsyncMsg] leaves the fields of the handler as they are, never
    touches [h.ctx.Lock], reads the clock twice, runs the completion
    callback of the message exactly once, and calls at most one engine
    method, on the engine registered for the current type and state. *)
Theorem executeAsyncMsg_without_lock (msg : Message) (w : World) :
  let w' := snd (executeAsyncMsg msg w) in
  let t := since w w' in
  h w' = h w
  /\ clock_reads w' = 2 + clock_reads w
  /\ lock_ops t = []
  /\ completions t = [msg_InboundMessage msg]
  /\ (calls t = []
      \/ exists engine c,
           current_engine w = Some engine
           /\ calls t = [(engine_name engine, c)]).
Proof.
  cbv zeta.
  destruct (executeAsyncMsg_trace msg w) as (Hh & _ & Hr & l & Hl & Ht).
  cbv zeta in Ht. rewrite (since_app _ _ _ Ht).
  split; [exact Hh |]. split; [exact Hr |].
  destruct Hl as [-> | (engine & c & Hcur & ->)].
  - repeat split; try reflexivity. left; reflexivity.
  - repeat split; try reflexivity. right. exists engine, c. split; [exact Hcur | reflexivity].
Qed.

(** *** Processing times *)


Lemma observed_app (hist : Histogram) (t u : Trace) :
  observed hist (t ++ u) = observed hist t ++ observed hist u.
Proof.
  induction t as [| e t IH]; [reflexivity |].
  destruct e as [| | | | | ? hist' ? | | | | | | | | | | | |]; cbn [app observed];
    try exact IH.
  destruct hist', hist; cbn [app]; rewrite IH; reflexivity.
Qed.

(** When the slow-message warning is due. *)
Lemma slow_warning_due (d : Duration) (state : State) (e : Event) :
  filter is_warning
    (if (syncProcessingTimeWarnLimit <? d)%Z && State_eqb state NormalOp
     then [e] else []) <> []
  -> (syncProcessingTimeWarnLimit < d)%Z /\ state = NormalOp.
Proof.
  destruct (syncProcessingTimeWarnLimit <? d)%Z eqn:Ed; cbn [andb];
    [| intros H; contradiction H; reflexivity].
  apply Z.ltb_lt in Ed.
  destruct state; cbn [State_eqb]; intros H;
    try (contradiction H; reflexivity).
  split; [exact Ed | reflexivity].
Qed.

(** X4.  The times of a message.  [handleSyncMsg] and [handleChanMsg]
    report to the histograms of the operation the time until the lock was
    acquired (second clock reading minus first) and the whole processing
    time (third reading minus first), once each, the differences being
    those of [Time.Sub]: the difference of the two readings when it fits a
    [Duration], and the largest or the smallest [Duration] when it does
    not; they log a warning
    exactly when the processing time is above 30 seconds and the chain was
    in normal operation when the handling began (at exactly 30 seconds
    there is none).  [executeAsyncMsg] takes no lock: it reports the same
    duration (second reading minus first) to both histograms, and never
    warns. *)
Theorem processing_times_and_slow_warning (w : World) :
  let t0 := clock w (clock_reads w) in
  let t1 := clock w (S (clock_reads w)) in
  let t2 := clock w (S (S (clock_reads w))) in
  let slow :=
    (syncProcessingTimeWarnLimit < Time_Sub t2 t0)%Z
    /\ es_State (ctx_State (h w)) = NormalOp in
  (forall msg,
     let t := since w (snd (handleSyncMsg msg w)) in
     observed msgHandlingTime t = [Time_Sub t1 t0]
     /\ observed processingTime t = [Time_Sub t2 t0]
     /\ (filter is_warning t <> [] <-> slow))
  /\ (forall msg,
        let t := since w (snd (handleChanMsg msg w)) in
        observed msgHandlingTime t = [Time_Sub t1 t0]
        /\ observed processingTime t = [Time_Sub t2 t0]
        /\ (filter is_warning t <> [] <-> slow))
  /\ (forall msg,
        let t := since w (snd (executeAsyncMsg msg w)) in
        observed msgHandlingTime t = [Time_Sub t1 t0]
        /\ observed processingTime t = [Time_Sub t1 t0]
        /\ filter is_warning t = [])
  /\ (forall t u : Time,
        (minDuration <= Time_Sub t u <= maxDuration)%Z
        /\ ((minDuration <= t - u <= maxDuration)%Z -> Time_Sub t u = (t - u)%Z)).
Proof.
  cbv zeta. split; [| split; [| split]]; [intros msg | intros msg | intros msg |].
  4: { intros t u. unfold Time_Sub, minDuration, maxDuration.
       destruct (_ <? t - u)%Z eqn:E1; [apply Z.ltb_lt in E1; lia |].
       apply Z.ltb_ge in E1.
       destruct (t - u <? _)%Z eqn:E2; [apply Z.ltb_lt in E2 | apply Z.ltb_ge in E2];
         lia. }
  - destruct (handleSyncMsg_trace msg w) as (_ & _ & _ & l & Hd & Ht).
    cbv zeta in Ht. rewrite (since_app _ _ _ Ht).
    rewrite !observed_app. cbn [observed].
    rewrite !observed_app, !(dispatch_events_observed _ l Hd).
    rewrite !filter_app. cbn [filter is_warning].
    rewrite !filter_app, (dispatch_events_warning l Hd). cbn [filter is_warning app].
    split; [destruct (_ && _); reflexivity |].
    split; [destruct (_ && _); reflexivity |].
    split; [apply slow_warning_due |].
    intros [Hlt Hn]. apply Z.ltb_lt in Hlt. rewrite Hlt, Hn. discriminate.
  - destruct (handleChanMsg_trace msg w) as (_ & _ & _ & l & Hd & Ht).
    cbv zeta in Ht. rewrite (since_app _ _ _ Ht).
    rewrite !observed_app. cbn [observed].
    rewrite !observed_app, !(dispatch_events_observed _ l Hd).
    rewrite !filter_app. cbn [filter is_warning].
    rewrite !filter_app, (dispatch_events_warning l Hd). cbn [filter is_warning app].
    split; [destruct (_ && _); reflexivity |].
    split; [destruct (_ && _); reflexivity |].
    split; [apply slow_warning_due |].
    intros [Hlt Hn]. apply Z.ltb_lt in Hlt. rewrite Hlt, Hn. discriminate.
  - destruct (executeAsyncMsg_trace msg w) as (_ & _ & _ & l & Hl & Ht).
    cbv zeta in Ht. rewrite (since_app _ _ _ Ht).
    destruct Hl as [-> | (engine & c & _ & ->)]; repeat split; reflexivity.
Qed.

(** *** Requests that do not decode, connected subnets *)


(** X5.  A request whose payload does not decode is dropped in silence.
    For a sync message that has an engine: a [GetAccepted] whose
    identifiers [getIDs] rejects, and a [GetAncestors], a [Get] or a
    [PullQuery] whose identifier [ids.ToID] rejects, cause no engine call
    and no error (the chain goes on); but a [GetAcceptedStateSummary]
    with a repeated height is answered by calling
    [GetAcceptedStateSummaryFailed] on the engine, with the node and the
    request of the message, and the handler returns what that call
    returns. *)
Theorem handleSyncMsg_undecodable_request (msg : Message) (w : World)
    (engine : common_Engine) :
  fst (handleSyncMsg_engine msg w) = inr engine ->
  let dropped : Prop :=
    fst (handleSyncMsg msg w) = None
    /\ calls (since w (snd (handleSyncMsg msg w))) = [] in
  (forall RequestId ContainerIds,
     msg_Message msg = p2p_GetAccepted RequestId ContainerIds ->
     getIDs ContainerIds = None -> dropped)
  /\ (forall RequestId ContainerId,
        msg_Message msg = p2p_GetAncestors RequestId ContainerId ->
        ids_ToID ContainerId = None -> dropped)
  /\ (forall RequestId ContainerId,
        msg_Message msg = p2p_Get RequestId ContainerId ->
        ids_ToID ContainerId = None -> dropped)
  /\ (forall RequestId ContainerId,
        msg_Message msg = p2p_PullQuery RequestId ContainerId ->
        ids_ToID ContainerId = None -> dropped)
  /\ (forall RequestId Heights,
        msg_Message msg = p2p_GetAcceptedStateSummary RequestId Heights ->
        utils_IsUnique Heights = false ->
        let c := common.GetAcceptedStateSummaryFailed (msg_NodeID msg) RequestId in
        calls (since w (snd (handleSyncMsg msg w))) = [(engine_name engine, c)]
        /\ fst (handleSyncMsg msg w)
           = engine_returns engine
               (events (sync_locked msg w)
                  ++ [Ev_Log Debug "message with invalid field"
                        [Op_String GetAcceptedStateSummaryOp; "Heights"]])
               c).
Proof.
  intros E dropped.
  destruct (handleSyncMsg_with_engine msg w engine E) as (Hr & Hc & _).
  subst dropped. cbv beta zeta. rewrite Hr, Hc. clear Hr Hc.
  generalize (sync_locked msg w) as w1. intros w1.
  destruct (handleSyncMsg_switch engine (msg_NodeID msg) (msg_Op msg)
              (msg_Message msg) w1) as [r w'] eqn:Es.
  cbn [fst snd]. unfold handleSyncMsg_switch in Es.
  split; [| split; [| split; [| split]]];
    intros *; intros Hbody Hdec; rewrite Hbody in Es;
    run_in Es; rewrite Hdec in Es; cbn [negb] in Es; run_in Es; ran Es;
    (erewrite since_app; [| cbn [events]; trace; reflexivity]);
    split; reflexivity.
Qed.

(** X6.  A [ConnectedSubnet] message goes to the subnet connector, not to
    an engine; but only when the chain has an engine for the message: the
    connector is called once, with the node and the subnet of the message,
    under the lock, no engine is called, and the handler returns what the
    connector returns.  When the message has no engine it is dropped like
    every other sync message, and the connector is not told. *)
Theorem handleSyncMsg_ConnectedSubnet (msg : Message) (w : World) (SubnetID : ID) :
  msg_Message msg = message_ConnectedSubnet SubnetID ->
  let r := handleSyncMsg msg w in
  let t := since w (snd r) in
  (forall engine,
     fst (handleSyncMsg_engine msg w) = inr engine ->
     filter is_consensus_call t = [Ev_ConnectedSubnet (msg_NodeID msg) SubnetID]
     /\ fst r = subnetConnector (h w) (events (sync_locked msg w)) (msg_NodeID msg) SubnetID)
  /\ (fst (handleSyncMsg_engine msg w) = inl tt ->
      filter is_consensus_call t = [] /\ fst r = None).
Proof.
  intros Hbody r t. subst r t.
  destruct (handleSyncMsg msg w) as [r w'] eqn:Eh. cbn [fst snd].
  unfold handleSyncMsg in Eh. run_in Eh. rewrite <- !app_assoc in Eh. cbn [app] in Eh.
  change (mkWorld (h w) (clock w) (S (S (clock_reads w))) _)
    with (sync_locked msg w) in Eh.
  split.
  - intros engine E.
    rewrite (handleSyncMsg_engine_inr msg w (sync_locked msg w) engine eq_refl E) in Eh.
    rewrite Hbody in Eh. unfold handleSyncMsg_switch, sync_locked in Eh. run_in Eh.
    unfold sync_locked. cbn [events].
    destruct (_ && _); run_in Eh; ran Eh;
      (erewrite since_app; [| cbn [events]; trace; reflexivity]);
      split; reflexivity.
  - intros E.
    rewrite <- (handleSyncMsg_engine_fst msg w (sync_locked msg w) eq_refl) in E.
    destruct (handleSyncMsg_engine_inl msg (sync_locked msg w) E) as [fields Hw].
    destruct (handleSyncMsg_engine msg (sync_locked msg w)) as [e w2].
    cbn [fst snd] in E, Hw. subst e w2. unfold sync_locked in Eh. run_in Eh.
    destruct (_ && _); run_in Eh; ran Eh;
      (erewrite since_app; [| cbn [events]; trace; reflexivity]);
      split; reflexivity.
Qed.

(** *** The three type switches *)


(** The payloads that a type switch refuses. *)
Lemma handleSyncMsg_switch_refuses (engine : common_Engine) (nodeID : NodeID)
    (op : Op) (body : Payload) (w : World) :
  match body with
  | p2p_AppRequest _ _ | p2p_AppResponse _ _ | message_AppRequestFailed _
  | p2p_AppGossip _ | message_CrossChainAppRequest _ _ _
  | message_CrossChainAppResponse _ _ _ | message_CrossChainAppRequestFailed _ _
  | message_VMMessage _ | message_GossipRequest | message_Timeout
  | OtherPayload _ =>
      handleSyncMsg_switch engine nodeID op body w = (Some (unhandled_sync_msg op), w)
  | _ => True
  end.
Proof. destruct body; try exact I; destruct w; reflexivity. Qed.

Lemma executeAsyncMsg_refuses (msg : Message) (w : World) (engine : common_Engine) :
  current_engine w = Some engine ->
  match msg_Message msg with
  | p2p_AppRequest _ _ | p2p_AppResponse _ _ | message_AppRequestFailed _
  | p2p_AppGossip _ | message_CrossChainAppRequest _ _ _
  | message_CrossChainAppResponse _ _ _
  | message_CrossChainAppRequestFailed _ _ => True
  | _ =>
      fst (executeAsyncMsg msg w) = Some (unhandled_async_msg (msg_Op msg))
      /\ calls (since w (snd (executeAsyncMsg msg w))) = []
  end.
Proof.
  intros Hcur. unfold current_engine in Hcur.
  destruct (executeAsyncMsg msg w) as [r w'] eqn:E. cbn [fst snd].
  unfold executeAsyncMsg in E. run_in E. rewrite Hcur in E.
  destruct (msg_Message msg); try exact I; run_in E; ran E;
    (erewrite since_app; [| cbn [events]; trace; reflexivity]);
    split; reflexivity.
Qed.

Lemma handleChanMsg_refuses (msg : InboundMessage) (w : World) (engine : common_Engine) :
  current_engine w = Some engine ->
  match im_Message msg with
  | message_VMMessage _ | message_GossipRequest | message_Timeout => True
  | _ =>
      fst (handleChanMsg msg w) = Some (unhandled_chan_msg (im_Op msg))
      /\ calls (since w (snd (handleChanMsg msg w))) = []
  end.
Proof.
  intros Hcur. unfold current_engine in Hcur.
  destruct (handleChanMsg msg w) as [r w'] eqn:E. cbn [fst snd].
  unfold handleChanMsg in E. run_in E. rewrite Hcur in E.
  destruct (im_Message msg); try exact I; run_in E;
    destruct (_ && _); run_in E; ran E;
    (erewrite since_app; [| cbn [events]; trace; reflexivity]);
    split; reflexivity.
Qed.

(** X7.  No payload type is known to two of the three type switches.  For
    a message that has an engine: if [executeAsyncMsg] or [handleChanMsg]
    handles the payload of the message (does not refuse it as unhandled)
    then [handleSyncMsg] refuses it, with the error "attempt to submit
    unhandled sync msg" and without any engine call; and likewise for the
    other two.  A refusal is an error, which the dispatchers treat as
    fatal, not a drop. *)
Theorem payload_known_to_one_switch (msg : Message) (w : World)
    (engine current : common_Engine) :
  fst (handleSyncMsg_engine msg w) = inr engine ->
  current_engine w = Some current ->
  let op := msg_Op msg in
  let s := handleSyncMsg msg w in
  let a := executeAsyncMsg msg w in
  let c := handleChanMsg (msg_InboundMessage msg) w in
  (fst a <> Some (unhandled_async_msg op) \/ fst c <> Some (unhandled_chan_msg op) ->
   fst s = Some (unhandled_sync_msg op) /\ calls (since w (snd s)) = [])
  /\ (fst s <> Some (unhandled_sync_msg op) \/ fst c <> Some (unhandled_chan_msg op) ->
      fst a = Some (unhandled_async_msg op) /\ calls (since w (snd a)) = [])
  /\ (fst s <> Some (unhandled_sync_msg op) \/ fst a <> Some (unhandled_async_msg op) ->
      fst c = Some (unhandled_chan_msg op) /\ calls (since w (snd c)) = []).
Proof.
  intros E Hcur op s a c.
  destruct (handleSyncMsg_with_engine msg w engine E) as (Hr & Hc & _).
  cbv zeta in Hr, Hc. subst s. rewrite Hr, Hc. clear Hr Hc.
  pose proof (handleSyncMsg_switch_refuses engine (msg_NodeID msg) (msg_Op msg)
                (msg_Message msg) (sync_locked msg w)) as Hs.
  pose proof (executeAsyncMsg_refuses msg w current Hcur) as Ha.
  pose proof (handleChanMsg_refuses (msg_InboundMessage msg) w current Hcur) as Hch.
  change (im_Message (msg_InboundMessage msg)) with (msg_Message msg) in Hch.
  change (im_Op (msg_InboundMessage msg)) with op in Hch.
  fold op in Hs, Ha. fold a in Ha. fold c in Hch.
  assert (Hnil : calls (since (sync_locked msg w) (sync_locked msg w)) = []).
  { rewrite (since_app _ _ [] (eq_sym (app_nil_r _))). reflexivity. }
  destruct (msg_Message msg);
    try rewrite Hs; cbn [fst snd];
    (split; [| split]);
    (intros [H | H]; try tauto);
    try (split; [reflexivity | exact Hnil]);
    contradiction H; tauto.
Qed.

(** *** Stop, timeouts and Start *)


(** X8.  [Stop] runs its function once.  The first call shuts the sync
    queue and then the async queue down (the messages they hold stay
    queued), closes [closingChan], and halts the bootstrapper of the
    current engine type, whatever the lifecycle state of the chain (if
    there is none it logs an error); it takes no lock and touches no
    other field.  Every later call does nothing: [Stop] after [Stop] is
    [Stop]. *)
Theorem Stop_once (w : World) :
  let w' := snd (Stop w) in
  snd (Stop w') = w'
  /\ closeOnce (h w') = true
  /\ (closeOnce (h w) = true -> w' = w)
  /\ (closeOnce (h w) = false ->
      since w w' = Stop_events w
      /\ stopped_fields (h w') = (true, true, true, true)
      /\ other_fields (h w') = other_fields (h w)
      /\ clock_reads w' = clock_reads w).
Proof.
  cbv zeta.
  assert (Hlater : forall w0, closeOnce (h w0) = true -> snd (Stop w0) = w0).
  { intros w0 H0. destruct (Stop w0) as [u w1] eqn:E. unfold Stop in E.
    run_in E. rewrite H0 in E. run_in E. injection E as _ <-. reflexivity. }
  assert (Hdone : closeOnce (h (snd (Stop w))) = true).
  { destruct (closeOnce (h w)) eqn:H0; [rewrite (Hlater w H0); exact H0 |].
    destruct (Stop w) as [u w1] eqn:E. unfold Stop, MessageQueue_Shutdown in E.
    run_in E. rewrite H0 in E. run_in E.
    destruct (Engine_Get _ _); run_in E; injection E as _ <-; reflexivity. }
  split; [apply Hlater; exact Hdone |].
  split; [exact Hdone |].
  split; [apply Hlater |].
  intros H0. destruct (Stop w) as [u w1] eqn:E. cbn [snd].
  unfold Stop, MessageQueue_Shutdown in E. run_in E. rewrite H0 in E. run_in E.
  unfold Stop_events.
  destruct (Engine_Get _ _); run_in E; injection E as _ <-;
    cbn [h clock_reads events];
    (erewrite since_app; [| cbn [events]; trace; reflexivity]);
    repeat split; reflexivity.
Qed.

(** [StopWithError] leaves [h.timeouts] alone, dispatches no message and
    completes none. *)
Lemma StopWithError_frame (err : error) (w : World) :
  let w' := snd (StopWithError err w) in
  timeouts (h w') = timeouts (h w)
  /\ exists l, events w' = events w ++ l
               /\ filter is_message_dispatch l = [] /\ completions l = [].
Proof.
  cbv zeta. destruct (StopWithError err w) as [u w'] eqn:E. cbn [snd].
  unfold StopWithError, Stop, MessageQueue_Shutdown in E. run_in E.
  destruct (closeOnce (h w)); run_in E;
    [| destruct (Engine_Get _ _); run_in E]; injection E as _ <-;
    cbn [h events]; (split; [reflexivity |]);
    eexists; (split; [trace; reflexivity |]); split; reflexivity.
Qed.

Lemma RegisterTimeout_fires_iter (n : nat) (w : World) :
  Nat.iter (S n) (fun w => snd (RegisterTimeout_fires w)) w
  = mkWorld (set_timeouts true (h w)) (clock w) (clock_reads w) (events w).
Proof.
  induction n as [| n IH].
  - reflexivity.
  - change (Nat.iter (S (S n)) ?f w) with (f (Nat.iter (S n) f w)).
    rewrite IH. reflexivity.
Qed.

Lemma is_message_dispatch_app (t u : Trace) :
  filter is_message_dispatch (t ++ u)
  = filter is_message_dispatch t ++ filter is_message_dispatch u.
Proof. apply filter_app. Qed.

(** X9.  Timeouts are coalesced.  However many timeouts have fired since
    the chans dispatcher last looked, one or a hundred, [h.timeouts]
    holds one value: the dispatcher can take it, handles one [Timeout]
    message (when the chain has a current engine: calls its [Timeout]
    once, and no other method through which a message reaches an engine),
    and then finds the channel empty. *)
Theorem RegisterTimeout_coalesces (n : nat) (w : World) :
  let w1 := Nat.iter (S n) (fun w => snd (RegisterTimeout_fires w)) w in
  let w2 := snd (dispatchChans_turn recv_timeouts w1) in
  events w1 = events w
  /\ can_proceed recv_timeouts (h w1) = true
  /\ can_proceed recv_timeouts (h w2) = false
  /\ completions (since w1 w2) = [message_InternalTimeout (ctx_NodeID (h w))]
  /\ (forall engine,
        current_engine w = Some engine ->
        filter is_message_dispatch (since w1 w2)
        = [Ev_Engine (engine_name engine) common.Timeout]).
Proof.
  cbv zeta. rewrite RegisterTimeout_fires_iter.
  split; [reflexivity |]. split; [reflexivity |].
  set (w1 := mkWorld _ _ _ _).
  destruct (dispatchChans_turn recv_timeouts w1) as [t w2] eqn:E. cbn [snd].
  unfold dispatchChans_turn in E. unfold bind at 1 in E. cbn [get_h] in E.
  unfold bind at 1 in E. unfold bind at 1 in E. cbn [modify_h ret] in E.
  unfold bind at 1 in E.
  match type of E with
  | context [handleChanMsg ?m ?w0] =>
      set (msg := m) in *; set (w0' := w0) in *
  end.
  assert (Hcur : current_engine w0' = current_engine w) by reflexivity.
  assert (Hev : events w0' = events w1) by reflexivity.
  assert (Hto : timeouts (h w0') = false) by reflexivity.
  assert (Hmsg : msg = message_InternalTimeout (ctx_NodeID (h w))) by reflexivity.
  clearbody w0' msg.
  assert (Hchan :
    h (snd (handleChanMsg msg w0')) = h w0'
    /\ exists l, events (snd (handleChanMsg msg w0')) = events w0' ++ l
                 /\ completions l = [msg]
                 /\ (forall engine, current_engine w = Some engine ->
                      filter is_message_dispatch l
                      = [Ev_Engine (engine_name engine) common.Timeout])).
  { subst msg. unfold current_engine in Hcur.
    destruct (handleChanMsg _ w0') as [r w3] eqn:Ec. cbn [snd].
    unfold handleChanMsg in Ec. run_in Ec. rewrite Hcur in Ec.
    destruct (Engine_Get _ _) as [engine |] eqn:Eeng;
      cbn [im_Message message_InternalTimeout] in Ec; run_in Ec;
      destruct (_ && _); run_in Ec; injection Ec as _ <-; cbn [h events];
      (split; [reflexivity |]); eexists; (split; [trace; reflexivity |]);
      (split; [reflexivity |]); intros engine' He; unfold current_engine in He;
      rewrite Eeng in He; try discriminate He; injection He as <-; reflexivity. }
  destruct Hchan as (Hh & l & Hl & Hc & Hd).
  destruct (handleChanMsg msg w0') as [[err |] w3]; cbn [snd] in Hh, Hl;
    cbn [bind ret] in E.
  - unfold bind in E.
    match type of E with
    | context [StopWithError ?e w3] =>
        destruct (StopWithError_frame e w3) as (Ht & l' & Hl' & Hf' & Hc');
        destruct (StopWithError e w3) as [u w5]; cbn [snd] in Ht, Hl'
    end.
    unfold ret in E. injection E as _ <-.
    split; [cbn [can_proceed]; rewrite Ht, Hh; exact Hto |].
    rewrite (since_app w1 w5 (l ++ l')) by (rewrite Hl', Hl, Hev; symmetry; apply app_assoc).
    rewrite completions_app, Hc, Hc', Hmsg. split; [reflexivity |].
    intros engine He. rewrite is_message_dispatch_app, Hf', (Hd engine He).
    reflexivity.
  - unfold ret in E. injection E as _ <-.
    split; [cbn [can_proceed]; rewrite Hh; exact Hto |].
    rewrite (since_app w1 w3 l) by (rewrite Hl, Hev; reflexivity).
    rewrite Hc, Hmsg. split; [reflexivity |]. exact Hd.
Qed.


Lemma lock_ops_nil_app (t u : Trace) :
  lock_ops t = [] -> lock_ops u = [] -> lock_ops (t ++ u) = [].
Proof. intros Ht Hu. rewrite lock_ops_app, Ht, Hu. reflexivity. Qed.





(** *** Frames *)

Lemma frame_since_refl {T : Type} (P : Event -> bool) (F : handler -> T) (w : World) :
  frame_since P F w w.
Proof.
  split; [reflexivity |]. exists []. split; [symmetry; apply app_nil_r | reflexivity].
Qed.

Lemma frame_since_trans {T : Type} (P : Event -> bool) (F : handler -> T)
    (w1 w2 w3 : World) :
  frame_since P F w1 w2 -> frame_since P F w2 w3 -> frame_since P F w1 w3.
Proof.
  intros (Hf & l & Hl & Ht) (Hf' & l' & Hl' & Ht').
  split; [congruence |].
  exists (l ++ l'). split.
  - rewrite Hl', Hl, app_assoc. reflexivity.
  - rewrite filter_app, Ht, Ht'. reflexivity.
Qed.

Lemma frame_since_weaken {T U : Type} (P Q : Event -> bool) (F : handler -> T)
    (G : handler -> U) (w w' : World) :
  (forall e, Q e = true -> P e = true) ->
  (forall x y, F x = F y -> G x = G y) ->
  frame_since P F w w' -> frame_since Q G w w'.
Proof.
  intros HPQ HFG (Hf & l & Hl & Ht). split; [apply HFG; exact Hf |].
  exists l. split; [exact Hl | exact (filter_nil_weaken P Q l HPQ Ht)].
Qed.

Lemma frame_weaken {A T U : Type} (P Q : Event -> bool) (F : handler -> T)
    (G : handler -> U) (m : M A) :
  (forall e, Q e = true -> P e = true) ->
  (forall x y, F x = F y -> G x = G y) ->
  frame P F m -> frame Q G m.
Proof. intros HPQ HFG Hm w. exact (frame_since_weaken P Q F G _ _ HPQ HFG (Hm w)). Qed.

Lemma frame_ret {A T : Type} (P : Event -> bool) (F : handler -> T) (a : A) :
  frame P F (ret a).
Proof. intros w. apply frame_since_refl. Qed.

Lemma frame_bind {A B T : Type} (P : Event -> bool) (F : handler -> T)
    (m : M A) (k : A -> M B) :
  frame P F m -> (forall a, frame P F (k a)) -> frame P F (bind m k).
Proof.
  intros Hm Hk w. unfold bind. specialize (Hm w).
  destruct (m w) as [a w1]. cbn [snd] in Hm.
  eapply frame_since_trans; [exact Hm | apply Hk].
Qed.

Lemma frame_event {A T : Type} (P : Event -> bool) (F : handler -> T) (e : Event)
    (f : World -> A) :
  P e = false ->
  frame P F (fun w => (f w, mkWorld (h w) (clock w) (clock_reads w) (events w ++ [e]))).
Proof.
  intros He w. split; [reflexivity |]. exists [e]. split; [reflexivity |].
  cbn [filter]. rewrite He. reflexivity.
Qed.

Lemma frame_emit {T : Type} (P : Event -> bool) (F : handler -> T) (e : Event) :
  P e = false -> frame P F (emit e).
Proof. apply frame_event. Qed.

Lemma frame_modify_h {T : Type} (P : Event -> bool) (F : handler -> T)
    (f : handler -> handler) :
  (forall x, F (f x) = F x) -> frame P F (modify_h f).
Proof.
  intros Hf w. split; [apply Hf |].
  exists []. split; [symmetry; apply app_nil_r | reflexivity].
Qed.

Lemma frame_get_h {T : Type} (P : Event -> bool) (F : handler -> T) : frame P F get_h.
Proof. intros w. apply frame_since_refl. Qed.

Lemma frame_h_clock_Time {T : Type} (P : Event -> bool) (F : handler -> T) :
  frame P F h_clock_Time.
Proof.
  intros w. split; [reflexivity |].
  exists []. split; [symmetry; apply app_nil_r | reflexivity].
Qed.

Lemma frame_call {T : Type} (P : Event -> bool) (F : handler -> T)
    (engine : common_Engine) (c : common.EngineCall) :
  P (Ev_Engine (engine_name engine) c) = false -> frame P F (call engine c).
Proof. apply frame_event. Qed.

Lemma frame_call_IsEnabled {T : Type} (P : Event -> bool) (F : handler -> T)
    (engine : common_Engine) :
  P (Ev_Engine (engine_name engine) common.IsEnabled) = false ->
  frame P F (call_IsEnabled engine).
Proof. apply frame_event. Qed.

Lemma frame_call_HealthCheck {T : Type} (P : Event -> bool) (F : handler -> T)
    (engine : common_Engine) :
  P (Ev_Engine (engine_name engine) common.HealthCheck) = false ->
  frame P F (call_HealthCheck engine).
Proof. apply frame_event. Qed.

Lemma frame_ConnectedSubnet {T : Type} (P : Event -> bool) (F : handler -> T)
    (nodeID : NodeID) (subnetID : ID) :
  P (Ev_ConnectedSubnet nodeID subnetID) = false ->
  frame P F (subnetConnector_ConnectedSubnet nodeID subnetID).
Proof. apply frame_event. Qed.

Lemma frame_run {A T : Type} {P : Event -> bool} {F : handler -> T} {m : M A}
    {w w' : World} {a : A} :
  frame P F m -> m w = (a, w') -> frame_since P F w w'.
Proof. intros Hq E. specialize (Hq w). rewrite E in Hq. exact Hq. Qed.

(** One step of a proof that a computation keeps a frame. *)
Ltac frame_step :=
  match goal with
  | |- frame _ _ (bind _ _) => apply frame_bind; [| intros ?]
  | |- frame _ _ (ret _) => apply frame_ret
  | |- frame _ _ get_h => apply frame_get_h
  | |- frame _ _ h_clock_Time => apply frame_h_clock_Time
  | |- frame _ _ (emit _) => apply frame_emit; reflexivity
  | |- frame _ _ (call _ _) => apply frame_call; reflexivity
  | |- frame _ _ (call_IsEnabled _) => apply frame_call_IsEnabled; reflexivity
  | |- frame _ _ (call_HealthCheck _) => apply frame_call_HealthCheck; reflexivity
  | |- frame _ _ (subnetConnector_ConnectedSubnet _ _) =>
      apply frame_ConnectedSubnet; reflexivity
  | |- frame _ _ (modify_h _) =>
      apply frame_modify_h; intros ?;
      repeat match goal with
             | q : QueueName |- _ => destruct q
             | c : Counter |- _ => destruct c
             end; reflexivity
  | |- frame _ _ (match ?x with _ => _ end) => destruct x
  | |- frame _ _ (let _ := _ in _) => cbv zeta
  end.

Ltac frame_auto := repeat (progress quiet_unfold || frame_step).

(** The handler's own code never writes its configuration. *)
Lemma frame_popUnexpiredMsg_from_configuration (queue : QueueName)
    (expired : Counter) (queue_closed : bool) (msgs : list Message) :
  frame no_event (fun x => (configuration x, ctx_State x))
    (popUnexpiredMsg_from queue expired msgs queue_closed).
Proof.
  induction msgs as [| msg msgs IH]; cbn [popUnexpiredMsg_from].
  - apply frame_ret.
  - frame_auto. exact IH.
Qed.

Lemma frame_closeDispatcher_configuration :
  frame no_event (fun x => (configuration x, ctx_State x)) closeDispatcher.
Proof. unfold closeDispatcher, shutdown. frame_auto. Qed.

Lemma frame_Stop_configuration :
  frame no_event (fun x => (configuration x, ctx_State x)) Stop.
Proof. unfold Stop. frame_auto. Qed.

Lemma step_configuration (s s' : System) :
  step s s' ->
  configuration (h (world s')) = configuration (h (world s))
  /\ (ctx_State (h (world s')) = ctx_State (h (world s))
      \/ exists state, modify_h (set_ctx_State state) (world s) = (tt, world s')).
Proof.
  assert (Hpop : forall q c, frame no_event (fun x => (configuration x, ctx_State x))
                               (popUnexpiredMsg q c)).
  { intros q c. unfold popUnexpiredMsg. frame_auto.
    apply frame_popUnexpiredMsg_from_configuration. }
  assert (Hswe : forall err, frame no_event (fun x => (configuration x, ctx_State x))
                               (StopWithError err)).
  { intros err. unfold StopWithError. frame_auto. apply frame_Stop_configuration. }
  assert (Hall : forall (A : Type) (m : M A) (w w' : World) (a : A),
             frame no_event (fun x => (configuration x, ctx_State x)) m ->
             m w = (a, w') ->
             configuration (h w') = configuration (h w)
             /\ (ctx_State (h w') = ctx_State (h w)
                 \/ exists state, modify_h (set_ctx_State state) w = (tt, w'))).
  { intros A m w w' a Hm E. destruct (frame_run Hm E) as (Hf & _).
    injection Hf as H1 H2 H3 H4 H5. unfold configuration.
    split; [congruence | left; exact H5]. }
  intros Hstep. destruct Hstep as
    [s g w' _ E | s g w' _ E | s g w' _ _ E | s c g w' _ _ E | s i w' E
    | s msg w' E | s w' E | s w' E | s r w' E | s state w' E]; cbn [world].
  - eapply (fun H => Hall _ _ _ _ _ H E).
    unfold dispatchSync, dispatchSync_turn, handleSyncMsg,
      handleSyncMsg_engine, handleSyncMsg_switch; frame_auto;
      auto using frame_closeDispatcher_configuration.
  - eapply (fun H => Hall _ _ _ _ _ H E).
    unfold dispatchAsync, dispatchAsync_turn, handleAsyncMsg;
      frame_auto; auto.
  - eapply (fun H => Hall _ _ _ _ _ H E).
    unfold dispatchAsync_deferred; frame_auto;
      auto using frame_closeDispatcher_configuration.
  - eapply (fun H => Hall _ _ _ _ _ H E).
    unfold dispatchChans, dispatchChans_turn, handleChanMsg;
      frame_auto; auto using frame_closeDispatcher_configuration.
  - eapply (fun H => Hall _ _ _ _ _ H E).
    unfold Pool_run, handleAsyncMsg_task, executeAsyncMsg;
      frame_auto; auto.
  - eapply (fun H => Hall _ _ _ _ _ H E).
    rewrite Push_is_async;
      destruct (is_async_op (msg_Op msg)); frame_auto.
  - eapply (fun H => Hall _ _ _ _ _ H E).
    unfold RegisterTimeout_fires; frame_auto.
  - exact (Hall _ _ _ _ _ frame_Stop_configuration E).
  - eapply (fun H => Hall _ _ _ _ _ H E).
    unfold HealthCheck; frame_auto.
  - split; [| right; exists state; exact E].
    injection E as <-. reflexivity.
Qed.

(** X11.  The handler never writes its configuration.  In every run of the
    handler (the dispatchers, the workers, [Push], [Stop], timeouts,
    health checks, engines changing the state of the chain) the engine
    manager, the node, the [onStopped] callback and the subnet connector
    stay what they were: the handler only reads the registry of engines.
    And in every step, the type and state of the chain stay what they
    were unless the step is an engine changing them: the handler's own
    code never moves the chain to another state. *)
Theorem handler_reads_its_configuration (s s' : System) :
  steps s s' ->
  configuration (h (world s')) = configuration (h (world s))
  /\ (forall s'', step s' s'' ->
      ctx_State (h (world s'')) = ctx_State (h (world s'))
      \/ exists state, modify_h (set_ctx_State state) (world s') = (tt, world s'')).
Proof.
  intros Hsteps. split.
  - induction Hsteps as [s | s s' s'' _ IH Hstep]; [reflexivity |].
    destruct (step_configuration s' s'' Hstep) as [Hc _]. congruence.
  - intros s'' Hstep. exact (proj2 (step_configuration s' s'' Hstep)).
Qed.


(** *** Stopping *)

Lemma stop_since_refl (w : World) : stop_since w w.
Proof.
  exists []. split; [symmetry; apply app_nil_r |]. left. split; reflexivity.
Qed.

Lemma stop_since_trans (w1 w2 w3 : World) :
  stop_since w1 w2 -> stop_since w2 w3 -> stop_since w1 w3.
Proof.
  intros (l & Hl & H12) (l' & Hl' & H23).
  exists (l ++ l'). split; [rewrite Hl', Hl, app_assoc; reflexivity |].
  rewrite filter_app.
  destruct H12 as [(Hf & Hc) | (H0 & Hf & Hc)],
           H23 as [(Hf' & Hc') | (H0' & Hf' & Hc')]; rewrite Hc, Hc'.
  - left. split; [congruence | reflexivity].
  - right. split; [| split; [exact Hf' | reflexivity]].
    unfold stopped_fields in Hf. congruence.
  - right. split; [exact H0 |]. split; [congruence | reflexivity].
  - unfold stopped_fields in Hf. congruence.
Qed.

Lemma stop_since_frame (w w' : World) :
  frame_since is_close_closingChan stopped_fields w w' -> stop_since w w'.
Proof. intros (Hf & l & Hl & Hc). exists l. split; [exact Hl |]. left. auto. Qed.

Lemma stops_frame {A : Type} (m : M A) :
  frame is_close_closingChan stopped_fields m -> stops m.
Proof. intros Hm w. apply stop_since_frame, Hm. Qed.

Lemma stops_bind {A B : Type} (m : M A) (k : A -> M B) :
  stops m -> (forall a, stops (k a)) -> stops (bind m k).
Proof.
  intros Hm Hk w. unfold bind. specialize (Hm w).
  destruct (m w) as [a w1]. cbn [snd] in Hm.
  eapply stop_since_trans; [exact Hm | apply Hk].
Qed.

Lemma stops_ret {A : Type} (a : A) : stops (ret a).
Proof. intros w. apply stop_since_refl. Qed.

Lemma stops_run {A : Type} {m : M A} {w w' : World} {a : A} :
  stops m -> m w = (a, w') -> stop_since w w'.
Proof. intros Hq E. specialize (Hq w). rewrite E in Hq. exact Hq. Qed.

Lemma stops_Stop : stops Stop.
Proof.
  intros w. destruct (Stop w) as [u w'] eqn:E. cbn [snd].
  unfold Stop, MessageQueue_Shutdown in E. run_in E.
  destruct (closeOnce (h w)) eqn:H0; run_in E.
  - injection E as _ <-. apply stop_since_refl.
  - destruct (Engine_Get _ _); run_in E; injection E as _ <-;
      eexists; (split; [cbn [events]; trace; reflexivity |]);
      right; (split; [exact H0 |]); split; reflexivity.
Qed.

Lemma stops_StopWithError (err : error) : stops (StopWithError err).
Proof.
  unfold StopWithError. apply stops_bind; [| intros _; apply stops_Stop].
  apply stops_frame. frame_auto.
Qed.

(** One turn of the loop of [popUnexpiredMsg]. *)
Lemma popUnexpiredMsg_from_step (queue : QueueName) (expired : Counter)
    (queue_closed : bool) (msg : Message) (msgs : list Message) (w : World) :
  let x := set_queue queue (mkMessageQueue msgs queue_closed) (h w) in
  popUnexpiredMsg_from queue expired (msg :: msgs) queue_closed w
  = if Time_After (clock w (clock_reads w)) (msg_Expiration msg)
    then popUnexpiredMsg_from queue expired msgs queue_closed
           (mkWorld (set_counter expired (S (get_counter expired x)) x)
                    (clock w) (S (clock_reads w))
                    (events w ++ expired_events expired msg))
    else (Popped msg, mkWorld x (clock w) (S (clock_reads w)) (events w)).
Proof.
  cbv zeta. cbn [popUnexpiredMsg_from]. run.
  destruct (Time_After _ _); run; [| reflexivity].
  unfold expired_events. rewrite <- !app_assoc. reflexivity.
Qed.

(** [popUnexpiredMsg] writes the messages of its queue and its counter,
    and adds the events of the messages it drops. *)
Lemma frame_popUnexpiredMsg_from {T : Type} (P : Event -> bool) (F : handler -> T)
    (queue : QueueName) (expired : Counter) (queue_closed : bool)
    (msgs : list Message) :
  (forall x rest,
     F (set_queue queue (mkMessageQueue rest (mq_closed (get_queue queue x))) x) = F x) ->
  (forall x n, F (set_counter expired n x) = F x) ->
  (forall msg, filter P (expired_events expired msg) = []) ->
  forall w,
    mq_closed (get_queue queue (h w)) = queue_closed ->
    frame_since P F w (snd (popUnexpiredMsg_from queue expired msgs queue_closed w)).
Proof.
  intros Hq Hc HP.
  induction msgs as [| msg msgs IH]; intros w Hw.
  - apply frame_since_refl.
  - rewrite popUnexpiredMsg_from_step. subst queue_closed.
    destruct (Time_After _ _).
    + eapply frame_since_trans; [| apply IH].
      * split; [cbn [h]; rewrite Hc, Hq; reflexivity |].
        eexists. split; [reflexivity | apply HP].
      * cbn [h]. rewrite get_queue_set_counter, get_queue_set_queue. reflexivity.
    + split; [cbn [snd h]; apply Hq |].
      exists []. split; [symmetry; apply app_nil_r | reflexivity].
Qed.

Lemma frame_popUnexpiredMsg {T : Type} (P : Event -> bool) (F : handler -> T)
    (queue : QueueName) (expired : Counter) :
  (forall x rest,
     F (set_queue queue (mkMessageQueue rest (mq_closed (get_queue queue x))) x) = F x) ->
  (forall x n, F (set_counter expired n x) = F x) ->
  (forall msg, filter P (expired_events expired msg) = []) ->
  frame P F (popUnexpiredMsg queue expired).
Proof.
  intros Hq Hc HP w. unfold popUnexpiredMsg, bind, get_h.
  apply frame_popUnexpiredMsg_from; auto.
Qed.

(** [MessageQueue.Push] writes the messages of its queue, or runs the
    completion callback of the message. *)
Lemma frame_MessageQueue_Push {T : Type} (P : Event -> bool) (F : handler -> T)
    (q : QueueName) (msg : Message) :
  (forall x rest,
     F (set_queue q (mkMessageQueue rest (mq_closed (get_queue q x))) x) = F x) ->
  P (Ev_QueuePush q msg) = false ->
  P (Ev_OnFinishedHandling (msg_InboundMessage msg)) = false ->
  frame P F (MessageQueue_Push q msg).
Proof.
  intros Hq HP1 HP2 w. destruct (MessageQueue_Push q msg w) as [u w'] eqn:E.
  cbn [snd]. unfold MessageQueue_Push in E. run_in E.
  destruct (mq_closed (get_queue q (h w))) eqn:Hc; run_in E; injection E as _ <-.
  - split; [reflexivity |]. eexists. split; [cbn [events]; trace; reflexivity |].
    cbn [filter]. rewrite HP1, HP2. reflexivity.
  - split; [cbn [h]; rewrite <- Hc; apply Hq |].
    eexists. split; [reflexivity |]. cbn [filter]. rewrite HP1. reflexivity.
Qed.

Lemma stopped_fields_set_queue (q : QueueName) (rest : list Message) (x : handler) :
  stopped_fields (set_queue q (mkMessageQueue rest (mq_closed (get_queue q x))) x)
  = stopped_fields x.
Proof. destruct q; reflexivity. Qed.

Lemma stopped_fields_set_counter (c : Counter) (n : nat) (x : handler) :
  stopped_fields (set_counter c n x) = stopped_fields x.
Proof. destruct c; reflexivity. Qed.

Lemma stops_popUnexpiredMsg (queue : QueueName) (expired : Counter) :
  stops (popUnexpiredMsg queue expired).
Proof.
  apply stops_frame, frame_popUnexpiredMsg.
  - intros; apply stopped_fields_set_queue.
  - intros; apply stopped_fields_set_counter.
  - reflexivity.
Qed.

Lemma stops_Push (msg : Message) : stops (Push msg).
Proof.
  rewrite Push_is_async. apply stops_frame, frame_MessageQueue_Push.
  - intros; apply stopped_fields_set_queue.
  - reflexivity.
  - reflexivity.
Qed.

Lemma stops_closeDispatcher : stops closeDispatcher.
Proof. apply stops_frame. unfold closeDispatcher, shutdown. frame_auto. Qed.

Lemma stops_handleSyncMsg (msg : Message) : stops (handleSyncMsg msg).
Proof.
  apply stops_frame.
  unfold handleSyncMsg, handleSyncMsg_engine, handleSyncMsg_switch. frame_auto.
Qed.

Lemma stops_handleChanMsg (msg : InboundMessage) : stops (handleChanMsg msg).
Proof. apply stops_frame. unfold handleChanMsg. frame_auto. Qed.

Lemma stops_handleAsyncMsg_task (msg : Message) : stops (handleAsyncMsg_task msg).
Proof.
  unfold handleAsyncMsg_task. apply stops_bind.
  - apply stops_frame. unfold executeAsyncMsg. frame_auto.
  - intros [err |]; [apply stops_StopWithError | apply stops_ret].
Qed.

(** One step of a proof that a computation stops at most once. *)
Ltac stops_step :=
  match goal with
  | |- stops (bind _ _) => apply stops_bind; [| intros ?]
  | |- stops (ret _) => apply stops_ret
  | |- stops (StopWithError _) => apply stops_StopWithError
  | |- stops (popUnexpiredMsg _ _) => apply stops_popUnexpiredMsg
  | |- stops closeDispatcher => apply stops_closeDispatcher
  | |- stops (handleSyncMsg _) => apply stops_handleSyncMsg
  | |- stops (handleChanMsg _) => apply stops_handleChanMsg
  | |- stops (handleAsyncMsg_task _) => apply stops_handleAsyncMsg_task
  | |- stops (match ?x with _ => _ end) => destruct x
  | |- stops _ => apply stops_frame; solve [frame_auto]
  end.

Lemma step_stop_since (s s' : System) :
  step s s' -> stop_since (world s) (world s').
Proof.
  intros Hstep. destruct Hstep as
    [s g w' _ E | s g w' _ E | s g w' _ _ E | s c g w' _ _ E | s i w' E
    | s msg w' E | s w' E | s w' E | s r w' E | s state w' E]; cbn [world];
    eapply (fun H => stops_run H E).
  - unfold dispatchSync, dispatchSync_turn. repeat stops_step.
  - unfold dispatchAsync, dispatchAsync_turn, handleAsyncMsg. repeat stops_step.
  - unfold dispatchAsync_deferred. repeat stops_step.
  - unfold dispatchChans, dispatchChans_turn. repeat stops_step.
  - unfold Pool_run. repeat stops_step.
  - apply stops_Push.
  - unfold RegisterTimeout_fires. repeat stops_step.
  - apply stops_Stop.
  - unfold HealthCheck. repeat stops_step.
  - repeat stops_step.
Qed.

Lemma steps_stop_since (s s' : System) :
  steps s s' -> stop_since (world s) (world s').
Proof.
  intros Hsteps. induction Hsteps as [s | s s' s'' _ IH Hstep].
  - apply stop_since_refl.
  - eapply stop_since_trans; [exact IH | apply step_stop_since; exact Hstep].
Qed.

(** X12.  [closingChan] is closed at most once, and what [Stop] has set
    stays set.  In every run of the handler, either the four things that
    only [Stop] writes ([closeOnce], whether [closingChan] is closed,
    whether the sync and the async queue are shut down) are at the end
    what they were at the start and [closingChan] was not closed during
    the run; or [Stop] had not run before, all four are set at the end,
    and [closingChan] was closed exactly once during the run.  So a closed
    channel is never closed again (which would panic), and a queue that
    was shut down never reopens. *)
Theorem closingChan_closed_at_most_once (s s' : System) :
  steps s s' ->
  let l := since (world s) (world s') in
  (stopped_fields (h (world s')) = stopped_fields (h (world s))
   /\ filter is_close_closingChan l = [])
  \/ (closeOnce (h (world s)) = false
      /\ stopped_fields (h (world s')) = (true, true, true, true)
      /\ filter is_close_closingChan l = [Ev_close_closingChan]).
Proof.
  intros Hsteps l. destruct (steps_stop_since s s' Hsteps) as (l' & Hl & H).
  subst l. rewrite (since_app _ _ l' Hl). exact H.
Qed.


(** *** Shutting down *)

Lemma steps_trans (s1 s2 s3 : System) : steps s1 s2 -> steps s2 s3 -> steps s1 s3.
Proof.
  intros H12 H23. induction H23 as [s | s s' s'' _ IH Hstep]; [exact H12 |].
  eapply steps_step; [apply IH; exact H12 | exact Hstep].
Qed.

Lemma steps_one (s s' : System) : step s s' -> steps s s'.
Proof. intros H. eapply steps_step; [apply steps_refl | exact H]. Qed.

Lemma stopping_step (s s' : System) :
  stopping (world s) -> step s s' -> stopping (world s').
Proof.
  unfold stopping. intros Hs Hstep.
  destruct (step_stop_since s s' Hstep) as (l & _ & [(Hf & _) | (H0 & _)]).
  - congruence.
  - unfold stopped_fields in Hs. congruence.
Qed.

(** What [popUnexpiredMsg] returns on a queue that was shut down: a
    message, leaving fewer in the queue, or "not ok". *)
Lemma popUnexpiredMsg_shut_down (queue : QueueName) (expired : Counter) (w : World) :
  mq_closed (get_queue queue (h w)) = true ->
  match fst (popUnexpiredMsg queue expired w) with
  | Popped _ =>
      List.length (mq_msgs (get_queue queue (h (snd (popUnexpiredMsg queue expired w)))))
      < List.length (mq_msgs (get_queue queue (h w)))
  | NotOk => True
  | Blocks => False
  end.
Proof.
  intros Hc. unfold popUnexpiredMsg, bind, get_h.
  destruct (popUnexpiredMsg_from_spec queue expired (mq_closed (get_queue queue (h w)))
              (mq_msgs (get_queue queue (h w))) w eq_refl)
    as (dropped & rest & Hsplit & _ & _ & _ & Hres).
  destruct (fst (popUnexpiredMsg_from _ _ _ _ _)).
  - destruct Hres as (rest' & Hr & _ & Hq). rewrite Hq, Hsplit, Hr, length_app.
    cbn [List.length]. lia.
  - exact I.
  - destruct Hres as (_ & Hfalse & _). congruence.
Qed.

(** A turn of the sync dispatcher on a queue that was shut down: it
    returns, or it has taken at least one message off the queue. *)
Lemma dispatchSync_shut_down (w : World) :
  mq_closed (syncMessageQueue (h w)) = true ->
  fst (dispatchSync w) = returned
  \/ (fst (dispatchSync w) = running
      /\ List.length (mq_msgs (syncMessageQueue (h (snd (dispatchSync w)))))
         < List.length (mq_msgs (syncMessageQueue (h w)))).
Proof.
  intros Hc. pose proof (popUnexpiredMsg_shut_down syncQueue expired w Hc) as Hpop.
  unfold dispatchSync, dispatchSync_turn, bind, ret.
  destruct (popUnexpiredMsg syncQueue expired w) as [[msg | |] w1];
    cbn [fst snd get_queue] in Hpop.
  - destruct (handleSyncMsg_trace msg w1) as (Hh & _).
    destruct (handleSyncMsg msg w1) as [[err |] w2]; cbn [snd] in Hh.
    + left.
      match goal with
      | |- context [StopWithError ?e ?w0] => destruct (StopWithError e w0) as [u w3]
      end.
      destruct (closeDispatcher w3). reflexivity.
    + right. cbn [fst snd]. split; [reflexivity |]. rewrite Hh. exact Hpop.
  - left. destruct (closeDispatcher w1). reflexivity.
  - contradiction.
Qed.

(** A turn of the async dispatcher on a queue that was shut down: it goes
    on to shut the pool down, or it has taken at least one message off
    the queue. *)
Lemma dispatchAsync_shut_down (w : World) :
  mq_closed (asyncMessageQueue (h w)) = true ->
  fst (dispatchAsync w) = in_Pool_Shutdown
  \/ (fst (dispatchAsync w) = running
      /\ List.length (mq_msgs (asyncMessageQueue (h (snd (dispatchAsync w)))))
         < List.length (mq_msgs (asyncMessageQueue (h w)))).
Proof.
  intros Hc. pose proof (popUnexpiredMsg_shut_down asyncQueue asyncExpired w Hc) as Hpop.
  unfold dispatchAsync, dispatchAsync_turn, bind, ret.
  destruct (popUnexpiredMsg asyncQueue asyncExpired w) as [[msg | |] w1];
    cbn [fst snd get_queue] in Hpop.
  - right. unfold handleAsyncMsg, Pool_Send. run. split; [reflexivity | exact Hpop].
  - left. unfold Pool_Shutdown. run. reflexivity.
  - contradiction.
Qed.

(** A worker takes the first task off the pool. *)
Lemma Pool_run_first (msg : Message) (tasks : list Message) (w : World) :
  pool_of (h w) = msg :: tasks ->
  pool_of (h (snd (Pool_run 0 w))) = tasks.
Proof.
  intros Hp. unfold pool_of in Hp.
  assert (Hf : frame no_event pool_of (handleAsyncMsg_task msg)).
  { unfold handleAsyncMsg_task, executeAsyncMsg, StopWithError, Stop. frame_auto. }
  unfold Pool_run. unfold bind at 1. cbn [get_h]. rewrite Hp. cbn [nth_error].
  unfold bind. cbn [modify_h].
  match goal with
  | |- context [handleAsyncMsg_task msg ?w1] =>
      destruct (Hf w1) as (Hf1 & _); destruct (handleAsyncMsg_task msg w1) as [u w2]
  end.
  cbn [snd h] in *. rewrite Hf1. reflexivity.
Qed.

Lemma go_set_returned (gs : Goroutines) :
  (go_dispatchSync gs = returned -> set_go_dispatchSync returned gs = gs)
  /\ (go_dispatchAsync gs = returned -> set_go_dispatchAsync returned gs = gs)
  /\ (go_dispatchChans gs = returned -> set_go_dispatchChans returned gs = gs).
Proof. destruct gs; cbn; repeat split; intros ->; reflexivity. Qed.

(** Once the handler is stopping, the sync dispatcher can return. *)
Lemma dispatchSync_can_return (n : nat) :
  forall s,
    List.length (mq_msgs (syncMessageQueue (h (world s)))) <= n ->
    stopping (world s) ->
    go_dispatchSync (go s) = running ->
    exists s', steps s s' /\ stopping (world s')
               /\ go s' = set_go_dispatchSync returned (go s).
Proof.
  induction n as [| n IH]; intros s Hn Hs Hrun.
  all: assert (Hc : mq_closed (syncMessageQueue (h (world s))) = true)
         by (unfold stopping, stopped_fields in Hs; congruence).
  all: pose proof (dispatchSync_shut_down (world s) Hc) as Hturn.
  all: destruct (dispatchSync (world s)) as [g w'] eqn:E; cbn [fst snd] in Hturn.
  all: pose proof (step_dispatchSync s g w' Hrun E) as Hstep.
  all: pose proof (stopping_step _ _ Hs Hstep) as Hs'.
  all: destruct Hturn as [-> | [-> Hlt]];
    [ eexists; split; [apply steps_one; exact Hstep |]; split; [exact Hs' | reflexivity] | ].
  - lia.
  - destruct (IH (mkSystem w' (set_go_dispatchSync running (go s))))
      as (s' & Hsteps & Hs'' & Hgo); cbn [world go]; [lia | exact Hs' | |].
    { destruct (go s); reflexivity. }
    exists s'. split; [eapply steps_trans; [apply steps_one; exact Hstep | exact Hsteps] |].
    split; [exact Hs'' |]. rewrite Hgo. destruct (go s); reflexivity.
Qed.

(** Once the handler is stopping, the async dispatcher can shut the pool
    down. *)
Lemma dispatchAsync_can_shut_pool (n : nat) :
  forall s,
    List.length (mq_msgs (asyncMessageQueue (h (world s)))) <= n ->
    stopping (world s) ->
    go_dispatchAsync (go s) = running ->
    exists s', steps s s' /\ stopping (world s')
               /\ go s' = set_go_dispatchAsync in_Pool_Shutdown (go s).
Proof.
  induction n as [| n IH]; intros s Hn Hs Hrun.
  all: assert (Hc : mq_closed (asyncMessageQueue (h (world s))) = true)
         by (unfold stopping, stopped_fields in Hs; congruence).
  all: pose proof (dispatchAsync_shut_down (world s) Hc) as Hturn.
  all: destruct (dispatchAsync (world s)) as [g w'] eqn:E; cbn [fst snd] in Hturn.
  all: pose proof (step_dispatchAsync s g w' Hrun E) as Hstep.
  all: pose proof (stopping_step _ _ Hs Hstep) as Hs'.
  all: destruct Hturn as [-> | [-> Hlt]];
    [ eexists; split; [apply steps_one; exact Hstep |]; split; [exact Hs' | reflexivity] | ].
  - lia.
  - destruct (IH (mkSystem w' (set_go_dispatchAsync running (go s))))
      as (s' & Hsteps & Hs'' & Hgo); cbn [world go]; [lia | exact Hs' | |].
    { destruct (go s); reflexivity. }
    exists s'. split; [eapply steps_trans; [apply steps_one; exact Hstep | exact Hsteps] |].
    split; [exact Hs'' |]. rewrite Hgo. destruct (go s); reflexivity.
Qed.

(** The workers can run every task of the pool. *)
Lemma workers_can_drain_pool (tasks : list Message) :
  forall s,
    pool_of (h (world s)) = tasks ->
    stopping (world s) ->
    exists s', steps s s' /\ stopping (world s')
               /\ go s' = go s /\ pool_of (h (world s')) = [].
Proof.
  induction tasks as [| msg tasks IH]; intros s Hp Hs.
  - exists s. split; [apply steps_refl |]. auto.
  - destruct (Pool_run 0 (world s)) as [[] w'] eqn:E.
    pose proof (step_worker s 0 w' E) as Hstep.
    pose proof (Pool_run_first msg tasks (world s) Hp) as Hp'.
    rewrite E in Hp'. cbn [snd] in Hp'.
    destruct (IH (mkSystem w' (go s)) Hp' (stopping_step _ _ Hs Hstep))
      as (s' & Hsteps & Hs' & Hgo & Hnil).
    exists s'. split; [eapply steps_trans; [apply steps_one; exact Hstep | exact Hsteps] |].
    auto.
Qed.

(** Once the handler is stopping, the three dispatchers can return. *)
Lemma dispatchers_can_return (s : System) :
  dispatchers_started (go s) ->
  stopping (world s) ->
  exists s', steps s s' /\ dispatchers_returned (go s') = 3.
Proof.
  intros (Hsync & Hasync & Hchans) Hs.
  (* the chans dispatcher *)
  assert (H1 : exists s1, steps s s1 /\ stopping (world s1)
                          /\ go s1 = set_go_dispatchChans returned (go s)).
  { destruct Hchans as [Hrun | Hret].
    - destruct (dispatchChans recv_closingChan (world s)) as [g w'] eqn:E.
      assert (Hcan : can_proceed recv_closingChan (h (world s)) = true)
        by (unfold stopping, stopped_fields in Hs; cbn [can_proceed]; congruence).
      pose proof (step_dispatchChans s recv_closingChan g w' Hrun Hcan E) as Hstep.
      assert (Hg : g = returned).
      { unfold dispatchChans, dispatchChans_turn in E. run_in E.
        destruct (closeDispatcher (world s)). injection E as <- _. reflexivity. }
      subst g. eexists. split; [apply steps_one; exact Hstep |].
      split; [exact (stopping_step _ _ Hs Hstep) | reflexivity].
    - exists s. split; [apply steps_refl |]. split; [exact Hs |].
      symmetry. apply go_set_returned. exact Hret. }
  destruct H1 as (s1 & Hsteps1 & Hs1 & Hgo1).
  (* the sync dispatcher *)
  assert (H2 : exists s2, steps s1 s2 /\ stopping (world s2)
                          /\ go s2 = set_go_dispatchSync returned (go s1)).
  { destruct Hsync as [Hrun | Hret].
    - apply (dispatchSync_can_return _ s1 (le_n _) Hs1).
      rewrite Hgo1. exact Hrun.
    - exists s1. split; [apply steps_refl |]. split; [exact Hs1 |].
      symmetry. apply go_set_returned. rewrite Hgo1. exact Hret. }
  destruct H2 as (s2 & Hsteps2 & Hs2 & Hgo2).
  (* the async dispatcher *)
  assert (H3 : exists s3, steps s2 s3 /\ stopping (world s3)
                          /\ (go s3 = set_go_dispatchAsync in_Pool_Shutdown (go s2)
                              \/ go s3 = set_go_dispatchAsync returned (go s2))).
  { destruct Hasync as [Hrun | [Hshut | Hret]].
    - destruct (dispatchAsync_can_shut_pool _ s2 (le_n _) Hs2)
        as (s3 & Hsteps3 & Hs3 & Hgo3); [rewrite Hgo2, Hgo1; exact Hrun |].
      exists s3. auto.
    - exists s2. split; [apply steps_refl |]. split; [exact Hs2 |]. left.
      rewrite Hgo2, Hgo1. destruct (go s); cbn in *; subst; reflexivity.
    - exists s2. split; [apply steps_refl |]. split; [exact Hs2 |]. right.
      rewrite Hgo2, Hgo1. destruct (go s); cbn in *; subst; reflexivity. }
  destruct H3 as (s3 & Hsteps3 & Hs3 & Hgo3).
  assert (H4 : exists s4, steps s3 s4
                          /\ go s4 = set_go_dispatchAsync returned (go s2)).
  { destruct Hgo3 as [Hgo3 | Hgo3]; [| exists s3; split; [apply steps_refl | exact Hgo3]].
    destruct (workers_can_drain_pool _ s3 eq_refl Hs3)
      as (s4 & Hsteps4 & Hs4 & Hgo4 & Hnil).
    destruct (dispatchAsync_deferred (world s4)) as [g w'] eqn:E.
    assert (Hg : g = returned).
    { unfold dispatchAsync_deferred in E. unfold bind in E.
      destruct (closeDispatcher (world s4)). injection E as <- _. reflexivity. }
    subst g.
    assert (Hin : go_dispatchAsync (go s4) = in_Pool_Shutdown)
      by (rewrite Hgo4, Hgo3; reflexivity).
    pose proof (step_dispatchAsync_deferred s4 returned w' Hin Hnil E) as Hstep.
    eexists. split; [eapply steps_trans; [exact Hsteps4 | apply steps_one; exact Hstep] |].
    cbn [go]. rewrite Hgo4, Hgo3. reflexivity. }
  destruct H4 as (s4 & Hsteps4 & Hgo4).
  exists s4. split.
  - eapply steps_trans; [exact Hsteps1 |]. eapply steps_trans; [exact Hsteps2 |].
    eapply steps_trans; [exact Hsteps3 | exact Hsteps4].
  - rewrite Hgo4, Hgo2, Hgo1. reflexivity.
Qed.

(** X13.  Shutdown can always complete.  From every state that the handler
    reaches after [Start] has started the dispatchers, once [Stop] has
    run, there is a continuation of the run in which the three
    dispatchers return (the chans dispatcher through [closingChan], the
    sync and the async dispatcher after they have emptied their queues,
    the async one after the workers have run the tasks of the pool), and
    in which [h.closed] is then closed, once.  Nothing the handler has
    done before can block the shutdown. *)
Theorem shutdown_can_always_complete (s0 s : System) :
  started s0 ->
  steps s0 s ->
  stopping (world s) ->
  exists s',
    steps s s'
    /\ dispatchers_returned (go s') = 3
    /\ closed (h (world s')) = 1.
Proof.
  intros Hstarted Hsteps Hs.
  destruct (steps_shutdown_invariant s0 s Hstarted Hsteps) as (Hgo & _).
  destruct (dispatchers_can_return s Hgo Hs) as (s' & Hsteps' & H3).
  exists s'. split; [exact Hsteps' |]. split; [exact H3 |].
  destruct (steps_shutdown_invariant s0 s' Hstarted (steps_trans _ _ _ Hsteps Hsteps'))
    as (_ & _ & l & _ & _ & _ & Heq).
  exact (Heq H3).
Qed.

(** *** An engine error in the sync dispatcher, and the other dispatchers *)

Lemma steps_stopping (s s' : System) :
  stopping (world s) -> steps s s' -> stopping (world s').
Proof.
  intros Hs Hsteps. induction Hsteps as [s | s s' s'' _ IH Hstep]; [exact Hs |].
  exact (stopping_step s' s'' (IH Hs) Hstep).
Qed.

Lemma frame_closeDispatcher_stopped : frame no_event stopped_fields closeDispatcher.
Proof. unfold closeDispatcher, shutdown. frame_auto. Qed.

(** C5.  An engine error in the sync dispatcher.  When the engine method
    that [handleSyncMsg] calls returns an error, [handleSyncMsg] returns
    it; and when [handleSyncMsg] returns an error, the turn of
    [dispatchSync] calls [StopWithError], which logs at the fatal level and
    calls [Stop] ([Stop] has then run: unless it had run before, it shuts
    both queues down and closes [closingChan] here); the loop ends and
    [dispatchSync] returns through [closeDispatcher].  Once [dispatchSync]
    has returned it never runs again, and no sync message is dispatched
    any more.

    The other two dispatchers are only signalled, and the signal stays:
    once [Stop] has run, in every later state both queues are shut down
    and [closingChan] is closed.  A turn of the async dispatcher then
    either ends its loop or leaves its queue shorter, and it ends its loop
    when the queue is empty: it does not stop at once.  The chans
    dispatcher returns when its [select] takes [closingChan], which can
    proceed from then on, among the others.  And if the three dispatchers
    were started there is a continuation in which they have all
    returned. *)
Theorem dispatchSync_engine_error (w w1 : World) (msg : Message) :
  popUnexpiredMsg syncQueue expired w = (Popped msg, w1) ->
  let w2 := snd (handleSyncMsg msg w1) in
  (forall engine pre c post err,
     fst (handleSyncMsg_engine msg w1) = inr engine ->
     since w1 w2 = pre ++ Ev_Engine (engine_name engine) c :: post ->
     engine_returns engine (events w1 ++ pre) c = Some err ->
     fst (handleSyncMsg msg w1) = Some err)
  /\ (forall err,
        fst (handleSyncMsg msg w1) = Some err ->
        let w3 := snd (StopWithError (sync_error err msg) w2) in
        dispatchSync_turn w = (Return, w3)
        /\ dispatchSync w = (returned, snd (closeDispatcher w3))
        /\ (exists l, events w3 = events w2 ++ fatal_log :: l)
        /\ closeOnce (h w3) = true
        /\ (closeOnce (h w2) = false ->
            mq_closed (syncMessageQueue (h w3)) = true
            /\ mq_closed (asyncMessageQueue (h w3)) = true
            /\ closingChan (h w3) = true
            /\ stopping w3
            /\ stopping (snd (closeDispatcher w3))))
  /\ (forall s s',
        go_dispatchSync (go s) = returned ->
        steps s s' ->
        go_dispatchSync (go s') = returned
        /\ filter is_sync_dispatch (since (world s) (world s')) = [])
  /\ (forall s s',
        stopping (world s) ->
        steps s s' ->
        let async := dispatchAsync (world s') in
        let queued x := List.length (mq_msgs (asyncMessageQueue (h x))) in
        stopping (world s')
        /\ (fst async = in_Pool_Shutdown
            \/ (fst async = running /\ queued (snd async) < queued (world s')))
        /\ (mq_msgs (asyncMessageQueue (h (world s'))) = [] ->
            fst async = in_Pool_Shutdown)
        /\ can_proceed recv_closingChan (h (world s')) = true
        /\ fst (dispatchChans recv_closingChan (world s')) = returned
        /\ (dispatchers_started (go s') ->
            exists s'', steps s' s'' /\ dispatchers_returned (go s'') = 3)).
Proof.
  intros Hpop w2. split; [| split; [| split]].
  - intros engine pre c post err E Hsince Herr.
    rewrite (handleSyncMsg_engine_error msg w1 engine pre post c E Hsince).
    exact Herr.
  - intros err Herr w3.
    assert (Hturn : dispatchSync_turn w = (Return, w3)).
    { unfold dispatchSync_turn, bind. rewrite Hpop.
      subst w3 w2. destruct (handleSyncMsg msg w1) as [r w2]. cbn [fst snd] in *.
      rewrite Herr. unfold sync_error.
      destruct (StopWithError _ w2) as [[] w3]. reflexivity. }
    split; [exact Hturn |]. split.
    { unfold dispatchSync, bind. rewrite Hturn.
      destruct (closeDispatcher w3) as [[] w4]. reflexivity. }
    split; [apply StopWithError_events |].
    assert (Hstop : closeOnce (h w3) = true
                    /\ (closeOnce (h w2) = false ->
                        mq_closed (syncMessageQueue (h w3)) = true
                        /\ mq_closed (asyncMessageQueue (h w3)) = true
                        /\ closingChan (h w3) = true)).
    { subst w3. unfold StopWithError, bind, Log, emit.
      match goal with
      | |- context [Stop ?w0] =>
          destruct (Stop_spec w0) as (Hdone & _ & Hfirst);
          destruct (Stop w0) as [[] w3]
      end.
      cbn [fst snd h] in *. split; [exact Hdone |].
      intros Hnot. destruct (Hfirst Hnot) as (Hs & Ha & Hc & _). auto. }
    destruct Hstop as [Hdone Hfirst]. split; [exact Hdone |].
    intros Hnot. destruct (Hfirst Hnot) as (Hs & Ha & Hc).
    split; [exact Hs |]. split; [exact Ha |]. split; [exact Hc |].
    assert (Hstopping : stopping w3).
    { unfold stopping, stopped_fields. rewrite Hdone, Hs, Ha, Hc. reflexivity. }
    split; [exact Hstopping |].
    destruct (frame_closeDispatcher_stopped w3) as [Hf _].
    unfold stopping. rewrite Hf. exact Hstopping.
  - intros s s' Hret Hsteps.
    destruct (steps_dispatchSync_returned s s' Hret Hsteps) as (Hret' & l & Hl & Hf).
    split; [exact Hret' |]. rewrite (since_app _ _ l Hl). exact Hf.
  - intros s s' Hs Hsteps async queued.
    pose proof (steps_stopping s s' Hs Hsteps) as Hs'.
    assert (Hfields := Hs'). unfold stopping, stopped_fields in Hfields.
    injection Hfields as _ Hchan _ Hasync.
    pose proof (dispatchAsync_shut_down (world s') Hasync) as Ha.
    split; [exact Hs' |]. split; [exact Ha |]. split.
    { intros Hempty. destruct Ha as [Ha | [_ Hlt]]; [exact Ha |].
      subst queued. cbv beta in Hlt. rewrite Hempty in Hlt. inversion Hlt. }
    split; [exact Hchan |]. split.
    { unfold dispatchChans, dispatchChans_turn, bind, get_h, ret.
      destruct (closeDispatcher (world s')). reflexivity. }
    intros Hgo. exact (dispatchers_can_return s' Hgo Hs').
Qed.


(** *** The ledger of messages *)

Lemma dispatch_events_balance (l : Trace) :
  forallb is_dispatch_event l = true -> filter is_balance_event l = [].
Proof.
  induction l as [| e l IH]; [reflexivity |]. cbn [forallb]. intros H.
  apply andb_prop in H as [He Hl]. cbn [filter].
  destruct e as [lvl ? ? | | | | | | | | | | | | | | | | |];
    try discriminate He; try exact (IH Hl).
  destruct lvl; try discriminate He; exact (IH Hl).
Qed.

Ltac cons_to_app :=
  repeat match goal with
         | |- context [?x :: ?l] =>
             lazymatch l with
             | [] => fail
             | _ => change (x :: l) with ([x] ++ l)
             end
         end.

Ltac perm := rewrite ?map_app; cbn [map]; cons_to_app; aac_reflexivity.

Lemma pushed_app (t u : Trace) : pushed (t ++ u) = pushed t ++ pushed u.
Proof.
  induction t as [| e t IH]; [reflexivity |].
  destruct e; cbn [pushed app]; rewrite IH; reflexivity.
Qed.

Lemma chan_announcements_app (t u : Trace) :
  chan_announcements (t ++ u) = chan_announcements t ++ chan_announcements u.
Proof.
  induction t as [| e t IH]; [reflexivity |].
  destruct e as [lvl msg fields | | | | | | | | | | | | | | | | |];
    cbn [chan_announcements app]; try exact IH.
  destruct lvl; try exact IH.
  destruct (String.eqb msg _); rewrite IH; reflexivity.
Qed.

Lemma ledger_events_nil (l : Trace) :
  filter is_balance_event l = [] ->
  completions l = [] /\ pushed l = [] /\ chan_announcements l = [].
Proof.
  induction l as [| e l IH]; [auto |]. cbn [filter].
  destruct (is_balance_event e) eqn:E; [discriminate |]. intros Hl.
  destruct (IH Hl) as (Hc & Hp & Hm).
  destruct e as [lvl msg ? | | | | | | | | | | | | | | | | |];
    cbn [completions pushed chan_announcements is_balance_event is_push
         is_chan_message orb] in *;
    try discriminate E; auto.
  destruct lvl; cbn in E |- *; auto.
  rewrite E. auto.
Qed.

Lemma length_pushed (l : Trace) : List.length (pushed l) = List.length (filter is_push l).
Proof.
  induction l as [| e l IH]; [reflexivity |].
  destruct e; cbn [pushed filter is_push List.length]; rewrite ?IH; reflexivity.
Qed.

Lemma length_chan_announcements (l : Trace) :
  List.length (chan_announcements l) = List.length (filter is_chan_message l).
Proof.
  induction l as [| e l IH]; [reflexivity |].
  destruct e as [lvl msg fields | | | | | | | | | | | | | | | | |];
    cbn [chan_announcements filter is_chan_message]; try exact IH.
  destruct lvl; try exact IH.
  destruct (String.eqb msg _); cbn [List.length]; rewrite IH; reflexivity.
Qed.

Lemma length_held_messages (x : handler) : List.length (held_messages x) = held x.
Proof.
  unfold held_messages, held. rewrite length_map, !length_app. lia.
Qed.

Lemma ledger_since_refl (given : list InboundMessage) (w : World) :
  ledger_since given given [] w w.
Proof.
  split; [reflexivity |]. split; [constructor |].
  exists []. split; [symmetry; apply app_nil_r |]. split; [reflexivity |].
  cbn [completions pushed]. aac_reflexivity.
Qed.

Lemma ledger_since_trans (given taken taken' made made' : list InboundMessage)
    (w1 w2 w3 : World) :
  ledger_since given taken made w1 w2 ->
  ledger_since taken taken' made' w2 w3 ->
  ledger_since given taken' (made ++ made') w1 w3.
Proof.
  intros (Hn & Hm & l & Hl & Ha & H) (Hn' & Hm' & l' & Hl' & Ha' & H').
  split; [congruence |]. split.
  { apply Forall_app. split; [exact Hm |]. rewrite <- Hn. exact Hm'. }
  exists (l ++ l'). split; [rewrite Hl', Hl, app_assoc; reflexivity |].
  split; [rewrite map_app, chan_announcements_app; congruence |].
  rewrite completions_app, pushed_app.
  transitivity (completions l ++ (completions l' ++ held_messages (h w3) ++ taken'));
    [aac_reflexivity |].
  rewrite H'.
  transitivity ((completions l ++ held_messages (h w2) ++ taken) ++ pushed l' ++ made');
    [aac_reflexivity |].
  rewrite H. aac_reflexivity.
Qed.

(** Messages in flight that the computation does not touch. *)
Lemma ledger_since_carry (carried given taken made : list InboundMessage)
    (w w' : World) :
  ledger_since given taken made w w' ->
  ledger_since (carried ++ given) (carried ++ taken) made w w'.
Proof.
  intros (Hn & Hm & l & Hl & Ha & H).
  split; [exact Hn |]. split; [exact Hm |].
  exists l. split; [exact Hl |]. split; [exact Ha |].
  transitivity (carried ++ (completions l ++ held_messages (h w') ++ taken));
    [aac_reflexivity |].
  rewrite H. aac_reflexivity.
Qed.

Lemma ledger_since_frame (w w' : World) :
  frame_since is_balance_event ledger_fields w w' -> ledger_since [] [] [] w w'.
Proof.
  intros (Hf & l & Hl & Hn).
  unfold ledger_fields, holdings in Hf. injection Hf as H0 H1 H2 H3.
  split; [exact H0 |]. split; [constructor |].
  exists l. split; [exact Hl |].
  destruct (ledger_events_nil l Hn) as (-> & -> & ->).
  split; [reflexivity |].
  unfold held_messages. rewrite H1, H2, H3. aac_reflexivity.
Qed.

Lemma ledger_run {A : Type} {m : M A} {w w' : World} {a : A} :
  frame is_balance_event ledger_fields m -> m w = (a, w') -> ledger_since [] [] [] w w'.
Proof.
  intros Hm E. apply ledger_since_frame. exact (frame_run Hm E).
Qed.

Lemma dispatch_events_ledger (l : Trace) :
  forallb is_dispatch_event l = true ->
  completions l = [] /\ pushed l = [] /\ chan_announcements l = [].
Proof.
  intros H. apply ledger_events_nil, dispatch_events_balance, H.
Qed.

Lemma frame_Stop_ledger : frame is_balance_event ledger_fields Stop.
Proof. unfold Stop. frame_auto. Qed.

Lemma frame_StopWithError_ledger (err : error) :
  frame is_balance_event ledger_fields (StopWithError err).
Proof. unfold StopWithError. frame_auto. apply frame_Stop_ledger. Qed.

Lemma frame_closeDispatcher_ledger : frame is_balance_event ledger_fields closeDispatcher.
Proof. unfold closeDispatcher, shutdown. frame_auto. Qed.

(** [handleSyncMsg] completes the message it is given. *)
Lemma ledger_handleSyncMsg (msg : Message) (w : World) :
  ledger_since [msg_InboundMessage msg] [] [] w (snd (handleSyncMsg msg w)).
Proof.
  destruct (handleSyncMsg_trace msg w) as (Hh & _ & _ & l & Hd & Ht).
  cbv zeta in Ht.
  destruct (dispatch_events_ledger l Hd) as (Hc & Hp & Hm).
  unfold ledger_since. rewrite Hh. split; [reflexivity |]. split; [constructor |].
  eexists. split; [exact Ht |].
  rewrite !chan_announcements_app, !completions_app, !pushed_app.
  cbn [chan_announcements completions pushed String.eqb Ascii.eqb Bool.eqb].
  rewrite !chan_announcements_app, !completions_app, !pushed_app, Hc, Hp, Hm.
  split; [destruct (_ && _); reflexivity |].
  destruct (_ && _); cbn [completions pushed app]; perm.
Qed.

(** [handleChanMsg] announces the message it is given, and completes
    it. *)
Lemma ledger_handleChanMsg (msg : InboundMessage) (w : World) :
  made_by_dispatchChans (ctx_NodeID (h w)) msg ->
  ledger_since [] [] [msg] w (snd (handleChanMsg msg w)).
Proof.
  intros Hmade.
  destruct (handleChanMsg_trace msg w) as (Hh & _ & _ & l & Hd & Ht).
  cbv zeta in Ht.
  destruct (dispatch_events_ledger l Hd) as (Hc & Hp & Hm).
  unfold ledger_since. rewrite Hh. split; [reflexivity |].
  split; [constructor; [exact Hmade | constructor] |].
  eexists. split; [exact Ht |].
  rewrite !chan_announcements_app, !completions_app, !pushed_app.
  cbn [chan_announcements completions pushed String.eqb Ascii.eqb Bool.eqb].
  rewrite !chan_announcements_app, !completions_app, !pushed_app, Hc, Hp, Hm.
  split; [destruct (_ && _); reflexivity |].
  destruct (_ && _); cbn [completions pushed app]; perm.
Qed.

(** [executeAsyncMsg] completes the message it is given. *)
Lemma ledger_executeAsyncMsg (msg : Message) (w : World) :
  ledger_since [msg_InboundMessage msg] [] [] w (snd (executeAsyncMsg msg w)).
Proof.
  destruct (executeAsyncMsg_trace msg w) as (Hh & _ & _ & l & Hl & Ht).
  cbv zeta in Ht. unfold ledger_since. rewrite Hh.
  split; [reflexivity |]. split; [constructor |].
  eexists. split; [exact Ht |].
  destruct Hl as [-> | (engine & c & _ & ->)];
    (split; [reflexivity |]); cbn [completions pushed app]; perm.
Qed.
Lemma held_messages_set_counter (c : Counter) (n : nat) (x : handler) :
  held_messages (set_counter c n x) = held_messages x.
Proof. destruct c; reflexivity. Qed.

Lemma ctx_NodeID_set_queue (q : QueueName) (v : MessageQueue) (x : handler) :
  ctx_NodeID (set_queue q v x) = ctx_NodeID x.
Proof. destruct q; reflexivity. Qed.

Lemma ctx_NodeID_set_counter (c : Counter) (n : nat) (x : handler) :
  ctx_NodeID (set_counter c n x) = ctx_NodeID x.
Proof. destruct c; reflexivity. Qed.

(** Taking the first message off a queue. *)
Lemma held_messages_pop (q : QueueName) (msg : Message) (rest : list Message)
    (closed : bool) (x : handler) :
  mq_msgs (get_queue q x) = msg :: rest ->
  Permutation (held_messages x)
              ([msg_InboundMessage msg]
                 ++ held_messages (set_queue q (mkMessageQueue rest closed) x)).
Proof.
  destruct q; unfold held_messages, pool_of; cbn; intros ->; perm.
Qed.

(** Putting a message at the end of a queue. *)
Lemma held_messages_push (q : QueueName) (msg : Message) (closed : bool)
    (x : handler) :
  Permutation (held_messages
                 (set_queue q (mkMessageQueue (mq_msgs (get_queue q x) ++ [msg]) closed) x))
              (held_messages x ++ [msg_InboundMessage msg]).
Proof.
  destruct q; unfold held_messages, pool_of; cbn; perm.
Qed.

(** [popUnexpiredMsg] completes the messages it drops, and takes the
    message it returns off the queue. *)
Lemma ledger_popUnexpiredMsg_from (queue : QueueName) (expired : Counter)
    (queue_closed : bool) (msgs : list Message) :
  forall w,
    mq_msgs (get_queue queue (h w)) = msgs ->
    ledger_since []
      (match fst (popUnexpiredMsg_from queue expired msgs queue_closed w) with
       | Popped msg => [msg_InboundMessage msg]
       | _ => []
       end)
      [] w (snd (popUnexpiredMsg_from queue expired msgs queue_closed w)).
Proof.
  induction msgs as [| msg msgs IH]; intros w Hw.
  - cbn [popUnexpiredMsg_from ret fst snd].
    destruct queue_closed; apply ledger_since_refl.
  - rewrite popUnexpiredMsg_from_step.
    destruct (Time_After _ _).
    + match goal with
      | |- context [popUnexpiredMsg_from _ _ _ _ ?w1] =>
          assert (H1 : ledger_since [] [] [] w w1);
          [| specialize (IH w1);
             destruct (popUnexpiredMsg_from queue expired msgs queue_closed w1) as [r w2] ]
      end.
      * split; [cbn [h]; rewrite ctx_NodeID_set_counter, ctx_NodeID_set_queue;
                reflexivity |].
        split; [constructor |].
        eexists. split; [reflexivity |]. split; [destruct expired; reflexivity |].
        cbn [h]. rewrite held_messages_set_counter.
        rewrite (held_messages_pop queue msg msgs queue_closed (h w) Hw).
        destruct expired; cbn [expired_events completions pushed app]; perm.
      * cbn [fst snd] in *.
        refine (ledger_since_trans [] [] _ [] [] _ _ _ H1 _). apply IH.
        cbn [h]. rewrite get_queue_set_counter, get_queue_set_queue. reflexivity.
    + cbn [fst snd].
      split; [cbn [h]; rewrite ctx_NodeID_set_queue; reflexivity |].
      split; [constructor |].
      exists []. split; [symmetry; apply app_nil_r |]. split; [reflexivity |].
      cbn [h completions pushed].
      rewrite (held_messages_pop queue msg msgs queue_closed (h w) Hw). perm.
Qed.

Lemma ledger_popUnexpiredMsg (queue : QueueName) (expired : Counter) (w : World) :
  ledger_since []
    (match fst (popUnexpiredMsg queue expired w) with
     | Popped msg => [msg_InboundMessage msg]
     | _ => []
     end)
    [] w (snd (popUnexpiredMsg queue expired w)).
Proof.
  unfold popUnexpiredMsg, bind, get_h. apply ledger_popUnexpiredMsg_from. reflexivity.
Qed.

(** [MessageQueue.Push] queues the message or completes it. *)
Lemma ledger_MessageQueue_Push (q : QueueName) (msg : Message) (w : World) :
  ledger_since [] [] [] w (snd (MessageQueue_Push q msg w)).
Proof.
  destruct (MessageQueue_Push q msg w) as [u w'] eqn:E. cbn [snd].
  unfold MessageQueue_Push in E. run_in E.
  destruct (mq_closed (get_queue q (h w))); run_in E; injection E as _ <-;
    (split; [cbn [h]; rewrite ?ctx_NodeID_set_queue; reflexivity |]);
    (split; [constructor |]);
    eexists; (split; [cbn [events]; trace; reflexivity |]);
    (split; [reflexivity |]); cbn [h completions pushed app].
  - perm.
  - rewrite held_messages_push. perm.
Qed.
Lemma ledger_since_frame0 {A : Type} (m : M A) (w : World) :
  frame is_balance_event ledger_fields m -> ledger_since [] [] [] w (snd (m w)).
Proof. intros Hm. apply ledger_since_frame, Hm. Qed.

Lemma ledger_since_trans0 (made : list InboundMessage) (w1 w2 w3 : World) :
  ledger_since [] [] made w1 w2 -> ledger_since [] [] [] w2 w3 ->
  ledger_since [] [] made w1 w3.
Proof.
  intros H1 H2. rewrite <- (app_nil_r made).
  exact (ledger_since_trans [] [] [] made [] w1 w2 w3 H1 H2).
Qed.

(** A turn of the sync dispatcher. *)
Lemma ledger_dispatchSync (w : World) : ledger_since [] [] [] w (snd (dispatchSync w)).
Proof.
  pose proof (ledger_popUnexpiredMsg syncQueue expired w) as Hpop.
  unfold dispatchSync, dispatchSync_turn, bind, ret.
  destruct (popUnexpiredMsg syncQueue expired w) as [[msg | |] w1]; cbn [fst snd] in *.
  - pose proof (ledger_handleSyncMsg msg w1) as Hh.
    pose proof (ledger_since_trans [] _ [] [] [] _ _ _ Hpop Hh) as H2.
    cbn [app] in H2.
    destruct (handleSyncMsg msg w1) as [[err |] w2]; cbn [snd] in *; [| exact H2].
    match goal with
    | |- context [StopWithError ?e ?w0] =>
        pose proof (ledger_since_frame0 _ w0 (frame_StopWithError_ledger e)) as Hs;
        destruct (StopWithError e w0) as [u w3]
    end.
    pose proof (ledger_since_frame0 _ w3 frame_closeDispatcher_ledger) as Hc.
    destruct (closeDispatcher w3) as [u' w4]. cbn [snd] in *.
    exact (ledger_since_trans0 _ _ _ _ (ledger_since_trans0 _ _ _ _ H2 Hs) Hc).
  - pose proof (ledger_since_frame0 _ w1 frame_closeDispatcher_ledger) as Hc.
    destruct (closeDispatcher w1) as [u' w4]. cbn [snd] in *.
    exact (ledger_since_trans0 _ _ _ _ Hpop Hc).
  - exact Hpop.
Qed.

(** The async dispatcher hands the message to the pool. *)
Lemma ledger_Pool_Send (msg : Message) (w : World) :
  ledger_since [msg_InboundMessage msg] [] [] w (snd (Pool_Send msg w)).
Proof.
  unfold Pool_Send. run.
  split; [reflexivity |]. split; [constructor |].
  eexists. split; [reflexivity |]. split; [reflexivity |].
  unfold held_messages, pool_of. cbn. perm.
Qed.

(** A turn of the async dispatcher: the message goes to the pool. *)
Lemma ledger_dispatchAsync (w : World) : ledger_since [] [] [] w (snd (dispatchAsync w)).
Proof.
  pose proof (ledger_popUnexpiredMsg asyncQueue asyncExpired w) as Hpop.
  unfold dispatchAsync, dispatchAsync_turn, bind, ret.
  destruct (popUnexpiredMsg asyncQueue asyncExpired w) as [[msg | |] w1];
    cbn [fst snd] in *.
  - unfold handleAsyncMsg.
    pose proof (ledger_since_trans [] _ [] [] [] _ _ _ Hpop (ledger_Pool_Send msg w1)) as H.
    cbn [app] in H. destruct (Pool_Send msg w1). exact H.
  - assert (Hf : frame is_balance_event ledger_fields Pool_Shutdown)
      by (unfold Pool_Shutdown; frame_auto).
    pose proof (ledger_since_frame0 _ w1 Hf) as Hs.
    destruct (Pool_Shutdown w1). exact (ledger_since_trans0 _ _ _ _ Hpop Hs).
  - exact Hpop.
Qed.

(** A turn of the chans dispatcher: it makes one message, or none when
    it takes [closingChan]. *)
Lemma ledger_dispatchChans (c : SelectCase) (w : World) :
  exists made, ledger_since [] [] made w (snd (dispatchChans c w)).
Proof.
  unfold dispatchChans, dispatchChans_turn.
  destruct c; cbv [bind ret get_h modify_h]; cbn [h clock clock_reads events fst snd].
  1: { exists []. pose proof (ledger_since_frame0 _ w frame_closeDispatcher_ledger) as Hc.
       destruct (closeDispatcher w). exact Hc. }
  all: match goal with
       | |- context [handleChanMsg ?m ?w0] =>
           exists [m];
           assert (H0 : ledger_since [] [] [] w w0)
             by (split; [reflexivity |]; split; [constructor |];
                 exists []; split; [symmetry; apply app_nil_r |];
                 split; [reflexivity |]; cbn [h completions pushed];
                 unfold held_messages, pool_of; cbn; aac_reflexivity);
           assert (Hmade : made_by_dispatchChans (ctx_NodeID (h w0)) m)
             by (unfold made_by_dispatchChans; cbn [h]; eauto);
           pose proof (ledger_since_trans [] [] [] [] [m] _ _ _ H0
                         (ledger_handleChanMsg m w0 Hmade)) as Hh;
           cbn [app] in Hh;
           destruct (handleChanMsg m w0) as [[err |] w2]
       end; cbn [snd] in *; try exact Hh.
  all: match goal with
       | |- context [StopWithError ?e ?w1] =>
           pose proof (ledger_since_frame0 _ w1 (frame_StopWithError_ledger e)) as Hs;
           destruct (StopWithError e w1) as [u w3]
       end;
       pose proof (ledger_since_frame0 _ w3 frame_closeDispatcher_ledger) as Hc;
       destruct (closeDispatcher w3) as [u' w4]; cbn [snd] in *;
       exact (ledger_since_trans0 _ _ _ _ (ledger_since_trans0 _ _ _ _ Hh Hs) Hc).
Qed.

Lemma Permutation_remove_nth {A : Type} (i : nat) (l : list A) (a : A) :
  nth_error l i = Some a ->
  Permutation l ([a] ++ firstn i l ++ skipn (S i) l).
Proof.
  revert i. induction l as [| b l IH]; intros [| i] H; try discriminate H.
  - injection H as ->. reflexivity.
  - cbn [nth_error] in H. specialize (IH i H).
    cbn [firstn skipn app] in *. rewrite IH at 1. apply perm_swap.
Qed.

(** A worker runs a task: the message leaves the pool and is completed. *)
Lemma ledger_Pool_run (i : nat) (w : World) : ledger_since [] [] [] w (snd (Pool_run i w)).
Proof.
  unfold Pool_run. unfold bind at 1. cbn [get_h].
  destruct (nth_error _ i) as [msg |] eqn:En; [| apply ledger_since_refl].
  unfold bind at 1. cbn [modify_h].
  match goal with
  | |- context [handleAsyncMsg_task msg ?w1] =>
      assert (H1 : ledger_since [] [msg_InboundMessage msg] [] w w1)
  end.
  { split; [reflexivity |]. split; [constructor |].
    exists []. split; [symmetry; apply app_nil_r |]. split; [reflexivity |].
    pose proof (Permutation_map msg_InboundMessage
                  (Permutation_remove_nth i _ msg En)) as Hp.
    rewrite !map_app in Hp. cbn [map] in Hp.
    cbn [h completions pushed]. unfold held_messages, pool_of. cbn -[skipn firstn].
    rewrite !map_app, Hp. aac_reflexivity. }
  refine (ledger_since_trans [] _ [] [] [] _ _ _ H1 _).
  unfold handleAsyncMsg_task, bind.
  match goal with
  | |- context [executeAsyncMsg msg ?w1] =>
      pose proof (ledger_executeAsyncMsg msg w1) as He;
      destruct (executeAsyncMsg msg w1) as [[err |] w2]
  end; cbn [snd] in *; [| exact He].
  refine (ledger_since_trans _ [] [] [] [] _ _ _ He _).
  apply ledger_since_frame0, frame_StopWithError_ledger.
Qed.

Lemma step_ledger (s s' : System) :
  step s s' -> exists made, ledger_since [] [] made (world s) (world s').
Proof.
  intros Hstep. destruct Hstep as
    [s g w' _ E | s g w' _ E | s g w' _ _ E | s c g w' _ _ E | s i w' E
    | s msg w' E | s w' E | s w' E | s r w' E | s state w' E]; cbn [world].
  4: { destruct (ledger_dispatchChans c (world s)) as [made H].
       exists made. rewrite E in H. exact H. }
  all: exists [].
  - pose proof (ledger_dispatchSync (world s)) as H. rewrite E in H. exact H.
  - pose proof (ledger_dispatchAsync (world s)) as H. rewrite E in H. exact H.
  - eapply (fun H => ledger_run H E). unfold dispatchAsync_deferred. frame_auto.
    apply frame_closeDispatcher_ledger.
  - pose proof (ledger_Pool_run i (world s)) as H. rewrite E in H. exact H.
  - rewrite Push_is_async in E.
    pose proof (ledger_MessageQueue_Push
                  (if is_async_op (msg_Op msg) then asyncQueue else syncQueue)
                  msg (world s)) as H.
    rewrite E in H. exact H.
  - eapply (fun H => ledger_run H E). unfold RegisterTimeout_fires. frame_auto.
  - exact (ledger_run frame_Stop_ledger E).
  - eapply (fun H => ledger_run H E). unfold HealthCheck. frame_auto.
  - eapply (fun H => ledger_run H E). frame_auto.
Qed.

Lemma steps_ledger (s s' : System) :
  steps s s' -> exists made, ledger_since [] [] made (world s) (world s').
Proof.
  intros Hsteps. induction Hsteps as [s | s s' s'' _ [made IH] Hstep].
  - exists []. apply ledger_since_refl.
  - destruct (step_ledger s' s'' Hstep) as [made' H].
    exists (made ++ made'). exact (ledger_since_trans [] [] [] _ _ _ _ _ IH H).
Qed.

(** X14.  No message is lost and none is completed twice.  In every run
    of the handler, the messages whose completion callback has run,
    together with the messages the handler holds at the end (in the sync
    queue, in the async queue and in the worker pool), are, up to their
    order and each as often as it occurs, the messages the handler held
    at the start, the messages handed to [Push] and the messages made by
    the chans dispatcher: one for each line with which [handleChanMsg]
    announces a message, of the operation the line names, and each a
    notification of the VM, a gossip request or a timeout of the node of
    the handler.  So a message that came in is, at every moment, either
    still held or has had its completion callback run exactly once,
    whatever happened to it: handled, expired, refused by a queue that was
    shut down, or met by an error.  In particular the numbers agree. *)
Theorem messages_are_completed_once (s s' : System) :
  steps s s' ->
  let l := since (world s) (world s') in
  (exists made,
     Permutation (completions l ++ held_messages (h (world s')))
                 (held_messages (h (world s)) ++ pushed l ++ made)
     /\ Forall (made_by_dispatchChans (ctx_NodeID (h (world s)))) made
     /\ map announced made = chan_announcements l)
  /\ List.length (completions l) + held (h (world s'))
     = held (h (world s)) + List.length (filter is_push l)
       + List.length (filter is_chan_message l).
Proof.
  intros Hsteps l.
  destruct (steps_ledger s s' Hsteps) as (made & _ & Hmade & l' & Hl & Ha & H).
  subst l. rewrite (since_app _ _ l' Hl).
  rewrite app_nil_r in H. cbn [app] in H.
  split; [exists made; auto |].
  apply Permutation_length in H. rewrite !length_app in H.
  rewrite !length_held_messages, length_pushed in H.
  rewrite <- length_chan_announcements, <- Ha, length_map. lia.
Qed.

End Handling.

(** * Properties of the default validators *)

Section DefaultValidators.

Context {imports : Imports}.

Lemma NodeID_eqb_eq (a b : NodeID) : NodeID_eqb a b = true <-> a = b.
Proof.
  revert b. induction a as [| x a IH]; intros [| y b]; cbn [NodeID_eqb];
    try (split; [discriminate | discriminate]); [tauto |].
  rewrite andb_true_iff, IH. split.
  - intros [Hx ->]. apply Byte.byte_dec_bl in Hx. congruence.
  - intros E. injection E as -> ->. split; [apply Byte.byte_dec_lb |]; reflexivity.
Qed.

Lemma NodeID_eqb_refl (a : NodeID) : NodeID_eqb a a = true.
Proof. apply NodeID_eqb_eq. reflexivity. Qed.

Lemma map_get_set (m : vdrMap_t) (k k' : NodeID) (v : validator) :
  map_get (map_set m k v) k' = if NodeID_eqb k k' then Some v else map_get m k'.
Proof.
  induction m as [| [k0 v0] m IH]; cbn [map_set map_get]; [reflexivity |].
  destruct (NodeID_eqb k0 k) eqn:E0; cbn [map_get].
  - apply NodeID_eqb_eq in E0. subst k0. destruct (NodeID_eqb k k'); reflexivity.
  - rewrite IH. destruct (NodeID_eqb k0 k') eqn:E1; [| reflexivity].
    apply NodeID_eqb_eq in E1. subst k0.
    destruct (NodeID_eqb k k') eqn:E2; [| reflexivity].
    apply NodeID_eqb_eq in E2. subst k'. rewrite NodeID_eqb_refl in E0. discriminate.
Qed.

Lemma map_set_keys (m : vdrMap_t) (k : NodeID) (v : validator) (k' : NodeID) :
  In k' (map fst (map_set m k v)) <-> k' = k \/ In k' (map fst m).
Proof.
  induction m as [| [k0 v0] m IH]; cbn [map_set map fst In]; [intuition |].
  destruct (NodeID_eqb k0 k) eqn:E0; cbn [map fst In].
  - apply NodeID_eqb_eq in E0. subst k0. intuition.
  - rewrite IH. intuition.
Qed.

Lemma map_set_In (m : vdrMap_t) (k : NodeID) (v : validator) (k' : NodeID)
    (v' : validator) :
  In (k', v') (map_set m k v) -> (k', v') = (k, v) \/ In (k', v') m.
Proof.
  induction m as [| [k0 v0] m IH]; cbn [map_set In]; [intuition |].
  destruct (NodeID_eqb k0 k); cbn [In]; intuition.
Qed.

Lemma map_set_ok (m : vdrMap_t) (v : validator) :
  map_ok m -> map_ok (map_set m (Validator_ID v) v).
Proof.
  intros [Hnd Hk]. split.
  - clear Hk. induction m as [| [k0 v0] m IH]; cbn [map_set map fst].
    + constructor; [intros [] | constructor].
    + inversion Hnd as [| ? ? Hnotin Hnd']; subst.
      destruct (NodeID_eqb k0 (Validator_ID v)) eqn:E0; cbn [map fst].
      * apply NodeID_eqb_eq in E0. subst k0. constructor; assumption.
      * constructor; [| apply IH; exact Hnd'].
        rewrite map_set_keys. intros [E | Hin]; [| contradiction].
        subst k0. rewrite NodeID_eqb_refl in E0. discriminate.
  - intros k' v' Hin. apply map_set_In in Hin as [E | Hin].
    + injection E as -> ->. reflexivity.
    + exact (Hk _ _ Hin).
Qed.

Lemma map_get_In (m : vdrMap_t) (k : NodeID) (v : validator) :
  map_get m k = Some v -> In (k, v) m.
Proof.
  induction m as [| [k0 v0] m IH]; cbn [map_get In]; [discriminate |].
  destruct (NodeID_eqb k0 k) eqn:E0.
  - apply NodeID_eqb_eq in E0. intros E. injection E as ->. left. congruence.
  - intros H. right. exact (IH H).
Qed.

Lemma map_get_None (m : vdrMap_t) (k : NodeID) :
  map_get m k = None <-> ~ In k (map fst m).
Proof.
  induction m as [| [k0 v0] m IH]; cbn [map_get map fst In]; [tauto |].
  destruct (NodeID_eqb k0 k) eqn:E0.
  - apply NodeID_eqb_eq in E0. split; [discriminate | tauto].
  - rewrite IH. split; [| tauto]. intros H [E | Hin]; [| tauto].
    subst k0. rewrite NodeID_eqb_refl in E0. discriminate.
Qed.

(** What the loop of [initialize] leaves in the map. *)
Lemma fold_map_set (vdrs : list validator) :
  forall m,
    map_ok m ->
    let m' := fold_left (fun m vdr => map_set m (Validator_ID vdr) vdr) vdrs m in
    map_ok m'
    /\ (forall k, In k (map fst m')
                  <-> In k (map fst m) \/ exists v, In v vdrs /\ Validator_ID v = k)
    /\ (forall k v, In (k, v) m' -> In (k, v) m \/ In v vdrs).
Proof.
  induction vdrs as [| vdr vdrs IH]; intros m Hm; cbn [fold_left].
  - split; [exact Hm |]. split.
    + intros k. split; [tauto |]. intros [H | (v & [] & _)]. exact H.
    + tauto.
  - destruct (IH _ (map_set_ok m vdr Hm)) as (Hok & Hkeys & Hin).
    cbv zeta in *. split; [exact Hok |]. split.
    + intros k. rewrite Hkeys, map_set_keys. split.
      * intros [[-> | H] | (v & Hv & E)]; eauto.
        -- right. exists vdr. split; [left |]; reflexivity.
        -- right. exists v. split; [right |]; assumption.
      * intros [H | (v & [-> | Hv] & E)]; eauto.
    + intros k v H. destruct (Hin k v H) as [H1 | H1]; [| right; right; exact H1].
      apply map_set_In in H1 as [E | H1]; [| left; exact H1].
      injection E as -> ->. right. left. reflexivity.
Qed.

Lemma createValidators_from_spec (nodeIDs : list string) (w : Z) :
  forall vdrs,
    let named := filter (fun s => negb (String.eqb s "")) nodeIDs in
    let decode := fun s => ids_ShortFromPrefixedString s ids_NodeIDPrefix in
    match createValidators_from nodeIDs w vdrs with
    | Returns vdrs' =>
        exists shortIDs,
          map decode named = map Some shortIDs
          /\ vdrs' = vdrs ++ map (fun shortID => mkValidator shortID w) shortIDs
    | Panics reason =>
        exists pre s post,
          named = pre ++ s :: post
          /\ (forall s', In s' pre -> decode s' <> None)
          /\ decode s = None
          /\ reason = String.append "invalid validator node ID: " s
    end.
Proof.
  induction nodeIDs as [| s nodeIDs IH]; intros vdrs; cbn [createValidators_from filter].
  - exists []. split; [reflexivity | symmetry; apply app_nil_r].
  - destruct (String.eqb s "") eqn:Es; cbn [negb]; [apply IH |].
    destruct (ids_ShortFromPrefixedString s ids_NodeIDPrefix) as [shortID |] eqn:Ed.
    + specialize (IH (vdrs ++ [mkValidator shortID w])). cbv zeta in IH.
      destruct (createValidators_from nodeIDs w _) as [vdrs' | reason].
      * destruct IH as (shortIDs & Hdec & ->). exists (shortID :: shortIDs).
        cbn [map]. rewrite Hdec, Ed, <- app_assoc. split; reflexivity.
      * destruct IH as (pre & s0 & post & Hn & Hpre & Hs0 & Hr).
        exists (s :: pre), s0, post. cbn [app]. rewrite Hn.
        split; [reflexivity |]. split; [| split; assumption].
        intros s' [<- | Hin]; [congruence | exact (Hpre s' Hin)].
    + exists [], s. eexists. cbn [app]. split; [reflexivity |].
      split; [intros s' [] |]. split; [exact Ed | reflexivity].
Qed.

(** X15.  [createValidators] makes one validator for every node identifier
    that is not the empty string, in their order, with the decoded
    identifier and the given weight: empty strings are skipped (so an
    empty list of custom validators, or a stray comma, makes no
    validator).  It returns only if every non-empty string decodes; if
    one does not it panics, naming the first that fails. *)
Theorem createValidators_decodes (nodeIDs : list string) (w : Z) :
  let named := filter (fun s => negb (String.eqb s "")) nodeIDs in
  let decode := fun s => ids_ShortFromPrefixedString s ids_NodeIDPrefix in
  match createValidators nodeIDs w with
  | Returns vdrs =>
      map Some (map nodeID vdrs) = map decode named
      /\ (forall vdr, In vdr vdrs -> weight vdr = w)
      /\ List.length vdrs = List.length named
  | Panics reason =>
      exists pre s post,
        named = pre ++ s :: post
        /\ (forall s', In s' pre -> decode s' <> None)
        /\ decode s = None
        /\ reason = String.append "invalid validator node ID: " s
  end.
Proof.
  cbv zeta. unfold createValidators.
  pose proof (createValidators_from_spec nodeIDs w []) as H. cbv zeta in H.
  destruct (createValidators_from nodeIDs w []) as [vdrs | reason]; [| exact H].
  destruct H as (shortIDs & Hdec & ->). cbn [app].
  rewrite Hdec, !map_map. cbn [nodeID].
  split; [reflexivity |]. split.
  - intros vdr Hin. apply in_map_iff in Hin as (shortID & <- & _). reflexivity.
  - rewrite length_map. apply (f_equal (@List.length _)) in Hdec.
    rewrite !length_map in Hdec. congruence.
Qed.


(** What a first [initialize] that returns leaves. *)
Lemma initialize_first (networkID : Z) (timestamp : Time) (p p' : Package) :
  initialized (defaultValidators p) = false ->
  initialize networkID timestamp p = (Returns tt, p') ->
  exists vdrs p1,
    load_validators networkID timestamp p = (Returns vdrs, p1)
    /\ p' = mkPackage (mkDefaultValidatorSet true (fill_vdrMap vdrs))
                      (customValidatorsExpTime p1).
Proof.
  intros Hi. unfold initialize. rewrite Hi.
  destruct (load_validators networkID timestamp p) as [[vdrs | reason] p1];
    intros E; [| discriminate E].
  injection E as <-. exists vdrs, p1. split; reflexivity.
Qed.

Lemma fill_vdrMap_spec (vdrs : list validator) :
  map_ok (fill_vdrMap vdrs)
  /\ (forall k, In k (map fst (fill_vdrMap vdrs))
                <-> exists v, In v vdrs /\ Validator_ID v = k)
  /\ (forall k v, In (k, v) (fill_vdrMap vdrs) -> In v vdrs).
Proof.
  assert (H0 : map_ok []) by (split; [constructor | intros k v []]).
  destruct (fold_map_set vdrs [] H0) as (Hok & Hkeys & Hin).
  cbv zeta in *. fold (fill_vdrMap vdrs) in Hok, Hkeys, Hin.
  split; [exact Hok |]. split.
  - intros k. rewrite Hkeys. cbn [map In].
    split; [intros [[] | H]; exact H | intros H; right; exact H].
  - intros k v H. destruct (Hin k v H) as [[] | H1]. exact H1.
Qed.

Lemma map_ok_ids (m : vdrMap_t) :
  map_ok m -> map Validator_ID (map snd m) = map fst m.
Proof.
  intros [_ Hk]. induction m as [| [k v] m IH]; [reflexivity |].
  cbn [map fst snd]. rewrite (Hk k v (or_introl eq_refl)), IH; [reflexivity |].
  intros k' v' Hin. apply Hk. right. exact Hin.
Qed.

(** X16.  The first initialization fixes the default validator set.  When
    [InitializeDefaultValidators] returns on a package that was not
    initialized, the set holds the validators that were loaded for the
    network, by identifier: [IsDefaultValidator] holds of exactly the
    identifiers of the loaded validators; [DefaultValidatorList] lists
    loaded validators only, no two with the same identifier (of two
    loaded validators with the same identifier, one is kept), and every
    listed validator is a default validator.  From then on the three
    accessors return, and every later [InitializeDefaultValidators], for
    whatever network and time, changes nothing.  Before, they panic. *)
Theorem default_validators_fixed_by_first_initialize (networkID : Z)
    (timestamp : Time) (p p' : Package) :
  initialized (defaultValidators p) = false ->
  InitializeDefaultValidators networkID timestamp p = (Returns tt, p') ->
  (exists vdrs p1 l,
     load_validators networkID timestamp p = (Returns vdrs, p1)
     /\ (forall vdrID,
           IsDefaultValidator vdrID p'
           = Returns true <-> exists vdr, In vdr vdrs /\ Validator_ID vdr = vdrID)
     /\ (forall vdrID, exists b, IsDefaultValidator vdrID p' = Returns b)
     /\ DefaultValidatorList p' = Returns l
     /\ NoDup (map Validator_ID l)
     /\ (forall vdr, In vdr l ->
           In vdr vdrs /\ IsDefaultValidator (Validator_ID vdr) p' = Returns true))
  /\ (forall networkID' timestamp',
        InitializeDefaultValidators networkID' timestamp' p' = (Returns tt, p'))
  /\ (forall networkID' timestamp',
        exists l, ExpiredDefaultValidators networkID' timestamp' p' = Returns l)
  /\ DefaultValidatorList p = Panics errNotInitialized
  /\ (forall vdrID, IsDefaultValidator vdrID p = Panics errNotInitialized)
  /\ (forall networkID' timestamp',
        ExpiredDefaultValidators networkID' timestamp' p = Panics errNotInitialized).
Proof.
  intros Hi E. unfold InitializeDefaultValidators in *.
  destruct (initialize_first networkID timestamp p p' Hi E) as (vdrs & p1 & Hload & ->).
  destruct (fill_vdrMap_spec vdrs) as (Hok & Hkeys & Hin).
  unfold IsDefaultValidator, DefaultValidatorList, ExpiredDefaultValidators,
    isValidator, list_, expiredValidators, initialize.
  cbn [defaultValidators initialized vdrMap negb]. rewrite Hi. cbn [negb].
  split; [| split; [| split; [| split; [| split]]]]; try reflexivity; try (intros; reflexivity).
  - exists vdrs, p1, (map snd (fill_vdrMap vdrs)).
    split; [exact Hload |]. split; [| split; [| split; [| split]]].
    + intros vdrID. rewrite <- Hkeys.
      destruct (map_get (fill_vdrMap vdrs) vdrID) as [v |] eqn:Eg.
      * split; [intros _ | reflexivity].
        apply map_get_In in Eg. apply (in_map fst) in Eg. exact Eg.
      * split; [discriminate |]. intros Hk. apply map_get_None in Eg. contradiction.
    + intros vdrID. eexists. reflexivity.
    + reflexivity.
    + rewrite (map_ok_ids _ Hok). exact (proj1 Hok).
    + intros vdr Hl. apply in_map_iff in Hl as ([k v] & Ev & Hkv). cbn [snd] in Ev. subst v.
      split; [exact (Hin k vdr Hkv) |].
      destruct (map_get (fill_vdrMap vdrs) (Validator_ID vdr)) eqn:Eg; [reflexivity |].
      apply map_get_None in Eg. contradiction Eg.
      rewrite (proj2 Hok k vdr Hkv). apply (in_map fst) in Hkv. exact Hkv.
  - intros networkID' timestamp'.
    repeat match goal with
           | |- context [if ?b then _ else _] => destruct b
           end; eexists; reflexivity.
Qed.


End DefaultValidators.

(** * The statements on the scenarios *)

(** An app gossip goes to the async queue, a chits message to the sync
    queue. *)
Lemma Push_routes_by_op_witness :
  In (msg_Op an_app_gossip) async_ops
  /\ mq_msgs (asyncMessageQueue (h (snd (Push an_app_gossip
                                           (new_world snowman_normal snowman_manager)))))
     = [an_app_gossip]
  /\ ~ In (msg_Op bad_chits) async_ops
  /\ mq_msgs (syncMessageQueue (h (snd (Push bad_chits
                                          (new_world snowman_normal snowman_manager)))))
     = [bad_chits].
Proof.
  assert (Hin : In (msg_Op an_app_gossip) async_ops) by (cbn; tauto).
  assert (Hout : ~ In (msg_Op bad_chits) async_ops)
    by (cbn; intuition discriminate).
  split; [exact Hin |]. split; [| split; [exact Hout |]].
  - exact (proj1 (proj2 (proj2
      (proj1 (Push_routes_by_op an_app_gossip
                (new_world snowman_normal snowman_manager)) Hin)))).
  - exact (proj1 (proj2 (proj2
      (proj2 (Push_routes_by_op bad_chits
                (new_world snowman_normal snowman_manager)) Hout)))).
Defined.

(** The health of a Snowman chain in normal operation is that of its
    Snowman engine. *)
Lemma HealthCheck_current_engine_witness :
  Engine_Get (EngineManager_Get snowman_manager ENGINE_TYPE_SNOWMAN) NormalOp
  = Some (healthy_engine "snowman")
  /\ fst (HealthCheck (new_world snowman_normal snowman_manager))
     = (Some "snowman", None).
Proof.
  split; [reflexivity |].
  exact (proj1 (proj2 (HealthCheck_current_engine
                         (new_world snowman_normal snowman_manager))
                 (healthy_engine "snowman") eq_refl)).
Defined.

(** A chain whose state syncer is enabled starts with it, after [Clear] on
    the bootstrapper. *)
Lemma selectStartingGear_gear_witness :
  StateSyncer snowman_engines = Some (healthy_engine "syncer")
  /\ engine_IsEnabled (healthy_engine "syncer") [] = (true, None)
  /\ fst (selectStartingGear (new_world snowman_syncing snowman_manager))
     = Returns (Some (healthy_engine "syncer"), None)
  /\ since (new_world snowman_syncing snowman_manager)
           (snd (selectStartingGear (new_world snowman_syncing snowman_manager)))
     = [Ev_Engine "syncer" common.IsEnabled; Ev_Engine "bootstrapper" common.Clear].
Proof.
  split; [reflexivity |]. split; [reflexivity |].
  exact (proj2 (proj2 (selectStartingGear_gear
                         (new_world snowman_syncing snowman_manager)))
           snowman_engines (healthy_engine "syncer") (healthy_engine "bootstrapper")
           eq_refl eq_refl eq_refl eq_refl).
Defined.

(** On a linearized chain that runs Snowman, a request that asks for
    Avalanche goes to the Avalanche engine and a request that asks for a
    number that is no engine type goes to the Snowman engine; a request
    for Snowman on a chain that runs Avalanche is dropped, though the
    Snowman engines are registered already. *)
Lemma handleSyncMsg_engine_type_witness :
  let w := new_world snowman_normal linearized_manager in
  let honoured := a_get_accepted_frontier ENGINE_TYPE_AVALANCHE in
  let defaulted := a_get_accepted_frontier (ENGINE_TYPE_unrecognized 9%Z) in
  let w' := new_world avalanche_normal linearized_manager in
  let dropped := a_get_accepted_frontier ENGINE_TYPE_SNOWMAN in
  calls (since w (snd (handleSyncMsg getIDs_32 ToID_32 IsUnique_Z honoured w)))
  = [("avalanche", common.GetAcceptedFrontier node1 3%Z)]
  /\ calls (since w (snd (handleSyncMsg getIDs_32 ToID_32 IsUnique_Z defaulted w)))
     = [("snowman", common.GetAcceptedFrontier node1 3%Z)]
  /\ fst (handleSyncMsg getIDs_32 ToID_32 IsUnique_Z dropped w') = None
  /\ calls (since w' (snd (handleSyncMsg getIDs_32 ToID_32 IsUnique_Z dropped w'))) = [].
Proof.
  intros w honoured defaulted w' dropped.
  assert (Hpassed : forall msg,
             msg_Message msg = p2p_GetAcceptedFrontier 3%Z ->
             msg_NodeID msg = node1 ->
             (exists RequestId,
                msg_Message msg = p2p_GetStateSummaryFrontier RequestId
                /\ common.GetAcceptedFrontier node1 3%Z
                   = common.GetStateSummaryFrontier (msg_NodeID msg) RequestId)
             \/ (exists RequestId,
                   msg_Message msg = p2p_GetAcceptedFrontier RequestId
                   /\ common.GetAcceptedFrontier node1 3%Z
                      = common.GetAcceptedFrontier (msg_NodeID msg) RequestId)
             \/ (exists RequestId Container,
                   msg_Message msg = p2p_Put RequestId Container
                   /\ common.GetAcceptedFrontier node1 3%Z
                      = common.Put (msg_NodeID msg) RequestId Container)
             \/ (exists RequestId Container,
                   msg_Message msg = p2p_PushQuery RequestId Container
                   /\ common.GetAcceptedFrontier node1 3%Z
                      = common.PushQuery (msg_NodeID msg) RequestId Container)).
  { intros msg Hbody Hnode. right. left. exists 3%Z.
    split; [exact Hbody | rewrite Hnode; reflexivity]. }
  split; [| split].
  - assert (Hnot : ~ (msg_EngineType honoured = ENGINE_TYPE_SNOWMAN
                      /\ es_Type (ctx_State (h w)) = ENGINE_TYPE_AVALANCHE))
      by (intros [E _]; discriminate E).
    pose proof (proj1 (proj2 (handleSyncMsg_engine_type getIDs_32 ToID_32 IsUnique_Z
                                honoured w))
                  (or_introl eq_refl) Hnot) as H.
    cbv beta zeta in H.
    lazymatch type of H with
    | match ?x with _ => _ end =>
        assert (Hget : x = Some (healthy_engine "avalanche")) by reflexivity;
        rewrite Hget in H
    end.
    destruct H as (_ & _ & _ & _ & Hpass).
    exact (proj1 (Hpass _ (Hpassed honoured eq_refl eq_refl))).
  - assert (Ha : msg_EngineType defaulted <> ENGINE_TYPE_AVALANCHE) by discriminate.
    assert (Hs : msg_EngineType defaulted <> ENGINE_TYPE_SNOWMAN) by discriminate.
    pose proof (proj2 (proj2 (handleSyncMsg_engine_type getIDs_32 ToID_32 IsUnique_Z
                                defaulted w)) Ha Hs) as H.
    cbv beta zeta in H.
    lazymatch type of H with
    | match ?x with _ => _ end =>
        assert (Hget : x = Some (healthy_engine "snowman")) by reflexivity;
        rewrite Hget in H
    end.
    destruct H as (_ & _ & _ & _ & Hpass).
    exact (proj1 (Hpass _ (Hpassed defaulted eq_refl eq_refl))).
  - exact (proj2 (proj1 (handleSyncMsg_engine_type getIDs_32 ToID_32 IsUnique_Z
                           dropped w') eq_refl eq_refl)).
Defined.

(** Chits whose preferred identifier is one byte long: the Snowman engine
    is told that the query failed. *)
Lemma handleSyncMsg_undecodable_response_witness :
  let w := new_world snowman_normal snowman_manager in
  let c := common.QueryFailed node1 7%Z in
  undecodable_response getIDs_32 bad_chits ChitsOp c
  /\ fst (handleSyncMsg_engine bad_chits w) = inr (healthy_engine "snowman")
  /\ calls (since w (snd (handleSyncMsg getIDs_32 ToID_32 IsUnique_Z bad_chits w)))
     = [("snowman", c)].
Proof.
  intros w c.
  assert (Hbad : undecodable_response getIDs_32 bad_chits ChitsOp c).
  { right. right. right. exists 7%Z, [bad_id], [].
    split; [reflexivity |]. split; [left; reflexivity |]. split; reflexivity. }
  assert (Hnot : ~ (msg_EngineType bad_chits = ENGINE_TYPE_SNOWMAN
                    /\ es_Type (ctx_State (h w)) = ENGINE_TYPE_AVALANCHE))
    by (intros [E _]; discriminate E).
  pose proof (proj2 (handleSyncMsg_undecodable_response getIDs_32 ToID_32 IsUnique_Z
                       bad_chits w ChitsOp c Hbad) Hnot) as H.
  cbv beta zeta in H.
  lazymatch type of H with
  | match ?x with _ => _ end =>
      assert (Hget : x = Some (healthy_engine "snowman")) by reflexivity;
      rewrite Hget in H
  end.
  destruct H as (Hengine & Hcalls & _).
  split; [exact Hbad |]. split; [exact Hengine | exact Hcalls].
Defined.

(** Chits whose preferred identifier is one byte long, and which ask for
    Snowman on a chain that still runs Avalanche: the message is dropped,
    and no engine is told that the query failed. *)
Lemma undecodable_response_dropped :
  ~ undecodable_response_never_dropped getIDs_32 ToID_32 IsUnique_Z.
Proof.
  intros H.
  destruct (H (a_message ChitsOp (p2p_Chits 7%Z [bad_id] []) ENGINE_TYPE_SNOWMAN)
              (new_world avalanche_normal linearized_manager)
              ChitsOp (common.QueryFailed node1 7%Z)) as [engine Hin].
  - right. right. right. exists 7%Z, [bad_id], [].
    split; [reflexivity |]. split; [left; reflexivity |]. split; reflexivity.
  - vm_compute in Hin. exact Hin.
Qed.

(** A gossip request on a linearized chain: the Avalanche engine gossips,
    then the Snowman engine. *)
Lemma handleChanMsg_gossip_linearized_witness :
  let w := new_world snowman_normal linearized_manager in
  let msg := message_InternalGossipRequest node1 in
  calls (since w (snd (handleChanMsg msg w)))
  = [("avalanche", common.Gossip); ("snowman", common.Gossip)]
  /\ fst (handleChanMsg msg w) = None.
Proof.
  intros w msg.
  exact (handleChanMsg_gossip_linearized msg w (healthy_engine "snowman")
           (healthy_engine "avalanche") eq_refl eq_refl eq_refl eq_refl).
Defined.

(** Without any engine: the sync message is dropped, the async and the
    chan message are fatal. *)
Lemma missing_engine_by_kind_witness :
  let w := new_world snowman_normal empty_manager in
  no_current_engine w
  /\ fst (handleSyncMsg getIDs_32 ToID_32 IsUnique_Z bad_chits w) = None
  /\ fst (executeAsyncMsg an_app_gossip w) = Some (missing_engine_error snowman_normal)
  /\ In fatal_log (since w (snd (handleAsyncMsg_task an_app_gossip w)))
  /\ fst (dispatchChans_turn recv_gossiper_C w) = Return.
Proof.
  intros w.
  pose proof (missing_engine_by_kind getIDs_32 ToID_32 IsUnique_Z w) as [Hsync Hother].
  specialize (Hother eq_refl). destruct Hother as (Hasync & _ & Hchans).
  split; [reflexivity |].
  split; [exact (proj1 (Hsync bad_chits eq_refl)) |].
  split; [exact (proj1 (Hasync an_app_gossip)) |].
  split; [exact (proj2 (proj2 (proj2 (proj2 (Hasync an_app_gossip)))) ) |].
  refine (proj1 (Hchans recv_gossiper_C _)). discriminate.
Defined.

(** An async message and a chan message that find no engine are errors. *)
Lemma missing_engine_is_an_error :
  ~ missing_engine_never_an_error getIDs_32 ToID_32 IsUnique_Z.
Proof.
  intros H.
  destruct (H (new_world snowman_normal empty_manager) eq_refl) as (_ & Hasync & _).
  specialize (Hasync an_app_gossip). discriminate Hasync.
Qed.

(** The old frontier is gossiped at every gossip request, and the current
    engine does not gossip when the old one fails. *)
Lemma gossip_old_again_or_alone :
  ~ gossip_old_one_time /\ ~ gossip_old_and_current.
Proof.
  split.
  - intros H.
    apply (H (new_world snowman_normal linearized_manager)
             (healthy_engine "snowman") (healthy_engine "avalanche")).
    + repeat split.
    + left. reflexivity.
    + left. reflexivity.
  - intros H.
    specialize (H (new_world snowman_normal broken_avalanche_manager)
                  (healthy_engine "snowman") (failing_engine "avalanche")).
    discriminate H. repeat split.
Qed.

(** A run of the handler to its end: [Stop] is called, then the three
    dispatchers return one after the other; the last one runs the
    shutdown routine. *)
Lemma shutdown_once_after_three_dispatchers_witness :
  let s0 := mkSystem (new_world snowman_normal snowman_manager) three_dispatchers in
  exists s,
    started s0
    /\ steps getIDs_32 ToID_32 IsUnique_Z s0 s
    /\ dispatchers_returned (go s) = 3
    /\ closed (h (world s)) = 1
    /\ closes (since (world s0) (world s)) = 1
    /\ calls (since (world s0) (world s))
       = [("bootstrapper", common.Halt); ("snowman", common.Shutdown)].
Proof.
  intros s0.
  assert (Hstarted : started s0) by (repeat split).
  assert (Hrun : exists s,
             steps getIDs_32 ToID_32 IsUnique_Z s0 s
             /\ dispatchers_returned (go s) = 3
             /\ calls (since (world s0) (world s))
                = [("bootstrapper", common.Halt); ("snowman", common.Shutdown)]).
  { eexists. split.
    - eapply steps_step;
        [eapply steps_step;
         [eapply steps_step;
          [eapply steps_step;
           [eapply steps_step; [apply steps_refl |] |] |] |] |].
      + apply step_Stop. cbv. reflexivity.
      + eapply step_dispatchSync; [reflexivity | cbv; reflexivity].
      + eapply step_dispatchAsync; [reflexivity | cbv; reflexivity].
      + eapply step_dispatchAsync_deferred;
          [reflexivity | reflexivity | cbv; reflexivity].
      + eapply (step_dispatchChans _ _ _ _ recv_closingChan);
          [reflexivity | reflexivity | cbv; reflexivity].
    - split; reflexivity. }
  destruct Hrun as (s & Hsteps & Hn & Hcalls).
  exists s. split; [exact Hstarted |]. split; [exact Hsteps |].
  split; [exact Hn |].
  destruct (shutdown_once_after_three_dispatchers getIDs_32 ToID_32 IsUnique_Z
              s0 s Hstarted Hsteps) as (_ & _ & H3 & _).
  destruct (H3 Hn) as [Hclosed Hcloses].
  split; [exact Hclosed |]. split; [exact Hcloses | exact Hcalls].
Defined.

(** The engine rejects the [Put] that is pending: the sync dispatcher
    stops the chain and returns; the chans dispatcher then returns when
    it takes [closingChan]. *)
Lemma dispatchSync_engine_error_witness :
  let w1 := snd (popUnexpiredMsg syncQueue expired put_pending) in
  let w2 := snd (handleSyncMsg getIDs_32 ToID_32 IsUnique_Z a_put w1) in
  let w3 := snd (StopWithError (sync_error engine_failure a_put) w2) in
  let w4 := snd (closeDispatcher w3) in
  let s4 := mkSystem w4 (set_go_dispatchSync returned three_dispatchers) in
  popUnexpiredMsg syncQueue expired put_pending = (Popped a_put, w1)
  /\ since w1 w2
     = firstn 4 (since w1 w2)
         ++ Ev_Engine "snowman" (common.Put node1 1%Z []) :: skipn 5 (since w1 w2)
  /\ engine_returns put_rejecting_engine (events w1 ++ firstn 4 (since w1 w2))
                    (common.Put node1 1%Z []) = Some engine_failure
  /\ fst (handleSyncMsg getIDs_32 ToID_32 IsUnique_Z a_put w1) = Some engine_failure
  /\ dispatchSync_turn getIDs_32 ToID_32 IsUnique_Z put_pending = (Return, w3)
  /\ dispatchSync getIDs_32 ToID_32 IsUnique_Z put_pending = (returned, w4)
  /\ closeOnce (h w2) = false
  /\ closingChan (h w3) = true
  /\ stopping (world s4)
  /\ fst (dispatchAsync (world s4)) = in_Pool_Shutdown
  /\ fst (dispatchChans recv_closingChan (world s4)) = returned.
Proof.
  intros w1 w2 w3 w4 s4.
  assert (Hpop : popUnexpiredMsg syncQueue expired put_pending = (Popped a_put, w1))
    by (vm_compute; reflexivity).
  assert (Hres : fst (handleSyncMsg_engine a_put w1) = inr put_rejecting_engine)
    by (vm_compute; reflexivity).
  assert (Hsince : since w1 w2
                   = firstn 4 (since w1 w2)
                       ++ Ev_Engine (engine_name put_rejecting_engine)
                            (common.Put node1 1%Z [])
                       :: skipn 5 (since w1 w2))
    by (vm_compute; reflexivity).
  assert (Hrej : engine_returns put_rejecting_engine
                   (events w1 ++ firstn 4 (since w1 w2))
                   (common.Put node1 1%Z []) = Some engine_failure)
    by (vm_compute; reflexivity).
  assert (Hnot : closeOnce (h w2) = false) by (vm_compute; reflexivity).
  assert (Hempty : mq_msgs (asyncMessageQueue (h (world s4))) = [])
    by (vm_compute; reflexivity).
  assert (Hstopping : stopping (world s4)) by (vm_compute; reflexivity).
  destruct (dispatchSync_engine_error getIDs_32 ToID_32 IsUnique_Z
              put_pending w1 a_put Hpop) as (Herr & Hstop & _ & Hothers).
  pose proof (Herr put_rejecting_engine _ _ _ engine_failure Hres Hsince Hrej)
    as Hfail.
  destruct (Hstop engine_failure Hfail) as (Hturn & Hret & _ & _ & Hfirst).
  destruct (Hfirst Hnot) as (_ & _ & Hchan & _).
  destruct (Hothers s4 s4 Hstopping (steps_refl getIDs_32 ToID_32 IsUnique_Z s4))
    as (_ & _ & Hasync & _ & Hchans & _).
  split; [exact Hpop |]. split; [exact Hsince |]. split; [exact Hrej |].
  split; [exact Hfail |]. split; [exact Hturn |]. split; [exact Hret |].
  split; [exact Hnot |]. split; [exact Hchan |]. split; [exact Hstopping |].
  split; [exact (Hasync Hempty) | exact Hchans].
Defined.

(** After the engine error of the sync dispatcher, a timeout that was ready
    is still dispatched to the engine: [select] may take it though
    [closingChan] is closed. *)
Lemma dispatch_after_sync_error :
  ~ no_dispatch_after_sync_error getIDs_32 ToID_32 IsUnique_Z.
Proof.
  intros H.
  set (s0 := mkSystem put_pending three_dispatchers).
  set (s1 := mkSystem (snd (RegisterTimeout_fires put_pending)) three_dispatchers).
  set (w1 := snd (popUnexpiredMsg syncQueue expired (world s1))).
  set (w2 := snd (handleSyncMsg getIDs_32 ToID_32 IsUnique_Z a_put w1)).
  assert (Hstarted : started s0) by (repeat split).
  assert (Hsteps : steps getIDs_32 ToID_32 IsUnique_Z s0 s1).
  { eapply steps_step; [apply steps_refl |].
    apply (step_RegisterTimeout getIDs_32 ToID_32 IsUnique_Z s0). reflexivity. }
  assert (Hpop : popUnexpiredMsg syncQueue expired (world s1) = (Popped a_put, w1))
    by (vm_compute; reflexivity).
  assert (Hres : fst (handleSyncMsg_engine a_put w1) = inr put_rejecting_engine)
    by (vm_compute; reflexivity).
  assert (Hsince : since w1 w2
                   = firstn 4 (since w1 w2)
                       ++ Ev_Engine (engine_name put_rejecting_engine)
                            (common.Put node1 1%Z [])
                       :: skipn 5 (since w1 w2))
    by (vm_compute; reflexivity).
  assert (Hrej : engine_returns put_rejecting_engine
                   (events w1 ++ firstn 4 (since w1 w2))
                   (common.Put node1 1%Z []) = Some engine_failure)
    by (vm_compute; reflexivity).
  specialize (H s0 s1 a_put w1 put_rejecting_engine
                (firstn 4 (since w1 w2)) (skipn 5 (since w1 w2))
                (common.Put node1 1%Z []) engine_failure
                Hstarted Hsteps eq_refl Hpop Hres Hsince Hrej).
  set (s2 := mkSystem (snd (dispatchSync getIDs_32 ToID_32 IsUnique_Z (world s1)))
                      (set_go_dispatchSync
                         (fst (dispatchSync getIDs_32 ToID_32 IsUnique_Z (world s1)))
                         (go s1))) in H.
  set (s3 := mkSystem
               (snd (dispatchChans recv_timeouts (world s2)))
               (set_go_dispatchChans (fst (dispatchChans recv_timeouts (world s2)))
                                     (go s2))).
  assert (Hlater : steps getIDs_32 ToID_32 IsUnique_Z s2 s3).
  { eapply steps_step; [apply steps_refl |].
    apply (step_dispatchChans getIDs_32 ToID_32 IsUnique_Z s2 recv_timeouts).
    - vm_compute; reflexivity.
    - vm_compute; reflexivity.
    - destruct (dispatchChans recv_timeouts (world s2)); reflexivity. }
  specialize (H s3 Hlater).
  assert (Hcalled : filter is_message_dispatch
                      (since (snd (dispatchSync getIDs_32 ToID_32 IsUnique_Z (world s1)))
                             (world s3))
                    = [Ev_Engine "snowman" common.Timeout])
    by (vm_compute; reflexivity).
  rewrite Hcalled in H. discriminate H.
Qed.

(** An expired message in front of a live one: the first is dropped, with
    one completion and one count, the second is returned. *)
Lemma popUnexpiredMsg_drops_expired_example :
  let w := mkWorld (set_syncMessageQueue
                      (mkMessageQueue [an_expired_message; a_put] false)
                      (new_handler snowman_normal snowman_manager))
                   (fun _ => 0%Z) 0 [] in
  let r := popUnexpiredMsg syncQueue expired w in
  fst r = Popped a_put
  /\ completions (since w (snd r)) = [msg_InboundMessage an_expired_message]
  /\ metrics_expired (h (snd r)) = 1
  /\ calls (since w (snd r)) = [].
Proof. repeat split. Qed.

(** A [Get] whose container identifier is one byte long is dropped. *)
Lemma handleSyncMsg_undecodable_request_witness :
  let w := new_world snowman_normal snowman_manager in
  let msg := a_message GetOp (p2p_Get 9%Z bad_id) ENGINE_TYPE_UNSPECIFIED in
  fst (handleSyncMsg_engine msg w) = inr (healthy_engine "snowman")
  /\ ToID_32 bad_id = None
  /\ fst (handleSyncMsg getIDs_32 ToID_32 IsUnique_Z msg w) = None
  /\ calls (since w (snd (handleSyncMsg getIDs_32 ToID_32 IsUnique_Z msg w))) = [].
Proof.
  intros w msg. split; [reflexivity |]. split; [reflexivity |].
  exact (proj1 (proj2 (proj2
           (handleSyncMsg_undecodable_request getIDs_32 ToID_32 IsUnique_Z
              msg w (healthy_engine "snowman") eq_refl)))
           9%Z bad_id eq_refl eq_refl).
Defined.

(** The node is connected to a subnet: the subnet connector is told, no
    engine is. *)
Lemma handleSyncMsg_ConnectedSubnet_witness :
  let w := new_world snowman_normal snowman_manager in
  let msg := a_message ConnectedSubnetOp (message_ConnectedSubnet bad_id)
                       ENGINE_TYPE_UNSPECIFIED in
  msg_Message msg = message_ConnectedSubnet bad_id
  /\ fst (handleSyncMsg_engine msg w) = inr (healthy_engine "snowman")
  /\ filter is_consensus_call
       (since w (snd (handleSyncMsg getIDs_32 ToID_32 IsUnique_Z msg w)))
     = [Ev_ConnectedSubnet node1 bad_id]
  /\ calls (since w (snd (handleSyncMsg getIDs_32 ToID_32 IsUnique_Z msg w))) = [].
Proof.
  intros w msg.
  assert (Hcalls : calls (since w (snd (handleSyncMsg getIDs_32 ToID_32 IsUnique_Z
                                          msg w))) = [])
    by (vm_compute; reflexivity).
  split; [reflexivity |]. split; [reflexivity |].
  split; [| exact Hcalls].
  exact (proj1 (proj1 (handleSyncMsg_ConnectedSubnet getIDs_32 ToID_32 IsUnique_Z
                         msg w bad_id eq_refl)
                  (healthy_engine "snowman") eq_refl)).
Defined.

(** A [Put] is a sync message: the async and the chan switch refuse it. *)
Lemma payload_known_to_one_switch_witness :
  let w := new_world snowman_normal snowman_manager in
  fst (handleSyncMsg_engine a_put w) = inr (healthy_engine "snowman")
  /\ current_engine w = Some (healthy_engine "snowman")
  /\ fst (handleSyncMsg getIDs_32 ToID_32 IsUnique_Z a_put w) = None
  /\ fst (executeAsyncMsg a_put w) = Some (unhandled_async_msg PutOp)
  /\ calls (since w (snd (executeAsyncMsg a_put w))) = []
  /\ fst (handleChanMsg (msg_InboundMessage a_put) w) = Some (unhandled_chan_msg PutOp)
  /\ calls (since w (snd (handleChanMsg (msg_InboundMessage a_put) w))) = [].
Proof.
  intros w.
  assert (Hs : fst (handleSyncMsg getIDs_32 ToID_32 IsUnique_Z a_put w) = None)
    by (vm_compute; reflexivity).
  assert (Hnot : fst (handleSyncMsg getIDs_32 ToID_32 IsUnique_Z a_put w)
                 <> Some (unhandled_sync_msg (msg_Op a_put)))
    by (rewrite Hs; discriminate).
  destruct (payload_known_to_one_switch getIDs_32 ToID_32 IsUnique_Z a_put w
              (healthy_engine "snowman") (healthy_engine "snowman") eq_refl eq_refl)
    as (_ & Ha & Hc).
  split; [reflexivity |]. split; [reflexivity |]. split; [exact Hs |].
  destruct (Ha (or_introl Hnot)) as [Ha1 Ha2].
  destruct (Hc (or_introl Hnot)) as [Hc1 Hc2].
  split; [exact Ha1 |]. split; [exact Ha2 |]. split; [exact Hc1 | exact Hc2].
Defined.


(** A [Put] is pushed, the chain goes back to bootstrapping, the sync
    dispatcher handles the [Put]: the configuration is what it was. *)
Lemma handler_reads_its_configuration_witness :
  let s0 := mkSystem (new_world snowman_normal snowman_manager) three_dispatchers in
  exists s,
    steps getIDs_32 ToID_32 IsUnique_Z s0 s
    /\ ctx_State (h (world s)) = mkEngineState ENGINE_TYPE_SNOWMAN Bootstrapping
    /\ configuration (h (world s)) = configuration (h (world s0)).
Proof.
  intros s0.
  assert (Hrun : exists s,
             steps getIDs_32 ToID_32 IsUnique_Z s0 s
             /\ ctx_State (h (world s)) = mkEngineState ENGINE_TYPE_SNOWMAN Bootstrapping).
  { eexists. split.
    - eapply steps_step;
        [eapply steps_step; [eapply steps_step; [apply steps_refl |] |] |].
      + apply (step_Push _ _ _ _ a_put). cbv. reflexivity.
      + apply (step_State _ _ _ _ (mkEngineState ENGINE_TYPE_SNOWMAN Bootstrapping)).
        cbv. reflexivity.
      + eapply step_dispatchSync; [reflexivity | cbv; reflexivity].
    - reflexivity. }
  destruct Hrun as (s & Hsteps & Hstate).
  exists s. split; [exact Hsteps |]. split; [exact Hstate |].
  exact (proj1 (handler_reads_its_configuration getIDs_32 ToID_32 IsUnique_Z
                  s0 s Hsteps)).
Defined.

(** [Stop] is called twice, and the sync dispatcher returns in between:
    [closingChan] is closed once. *)
Lemma closingChan_closed_at_most_once_witness :
  let s0 := mkSystem (new_world snowman_normal snowman_manager) three_dispatchers in
  exists s,
    steps getIDs_32 ToID_32 IsUnique_Z s0 s
    /\ stopped_fields (h (world s)) = (true, true, true, true)
    /\ filter is_close_closingChan (since (world s0) (world s)) = [Ev_close_closingChan].
Proof.
  intros s0.
  assert (Hrun : exists s,
             steps getIDs_32 ToID_32 IsUnique_Z s0 s
             /\ closeOnce (h (world s)) = true).
  { eexists. split.
    - eapply steps_step;
        [eapply steps_step; [eapply steps_step; [apply steps_refl |] |] |].
      + apply step_Stop. cbv. reflexivity.
      + eapply step_dispatchSync; [reflexivity | cbv; reflexivity].
      + apply step_Stop. cbv. reflexivity.
    - reflexivity. }
  destruct Hrun as (s & Hsteps & Honce).
  exists s. split; [exact Hsteps |].
  destruct (closingChan_closed_at_most_once getIDs_32 ToID_32 IsUnique_Z s0 s Hsteps)
    as [[Hsame _] | (_ & Hset & Hclose)].
  - apply (f_equal (fun fields => fst (fst (fst fields)))) in Hsame.
    cbn [stopped_fields fst] in Hsame. rewrite Honce in Hsame. discriminate Hsame.
  - split; [exact Hset | exact Hclose].
Defined.

(** A [Put] and an app gossip are pushed, then [Stop] runs: the three
    dispatchers can still return, and [h.closed] is closed. *)
Lemma shutdown_can_always_complete_witness :
  let s0 := mkSystem (new_world snowman_normal snowman_manager) three_dispatchers in
  exists s s',
    started s0
    /\ steps getIDs_32 ToID_32 IsUnique_Z s0 s
    /\ stopping (world s)
    /\ held (h (world s)) = 2
    /\ steps getIDs_32 ToID_32 IsUnique_Z s s'
    /\ dispatchers_returned (go s') = 3
    /\ closed (h (world s')) = 1.
Proof.
  intros s0.
  assert (Hstarted : started s0) by (repeat split).
  assert (Hrun : exists s,
             steps getIDs_32 ToID_32 IsUnique_Z s0 s
             /\ stopping (world s)
             /\ held (h (world s)) = 2).
  { eexists. split.
    - eapply steps_step;
        [eapply steps_step; [eapply steps_step; [apply steps_refl |] |] |].
      + apply (step_Push _ _ _ _ a_put). cbv. reflexivity.
      + apply (step_Push _ _ _ _ an_app_gossip). cbv. reflexivity.
      + apply step_Stop. cbv. reflexivity.
    - split; reflexivity. }
  destruct Hrun as (s & Hsteps & Hstopping & Hheld).
  destruct (shutdown_can_always_complete getIDs_32 ToID_32 IsUnique_Z
              s0 s Hstarted Hsteps Hstopping) as (s' & Hsteps' & H3 & Hclosed).
  exists s, s'. split; [exact Hstarted |]. split; [exact Hsteps |].
  split; [exact Hstopping |]. split; [exact Hheld |].
  split; [exact Hsteps' |]. split; [exact H3 | exact Hclosed].
Defined.

(** A [Put] and an app gossip are pushed, a timeout fires, and the sync
    and the chans dispatcher take a turn each: of the three messages, the
    [Put] and the timeout are completed and the app gossip is held. *)
Lemma messages_are_completed_once_witness :
  let s0 := mkSystem (new_world snowman_normal snowman_manager) three_dispatchers in
  exists s,
    steps getIDs_32 ToID_32 IsUnique_Z s0 s
    /\ pushed (since (world s0) (world s))
       = [msg_InboundMessage a_put; msg_InboundMessage an_app_gossip]
    /\ held_messages (h (world s0)) = []
    /\ held_messages (h (world s)) = [msg_InboundMessage an_app_gossip]
    /\ chan_announcements (since (world s0) (world s))
       = [announced (message_InternalTimeout node1)]
    /\ (exists made,
          Permutation (completions (since (world s0) (world s))
                         ++ [msg_InboundMessage an_app_gossip])
                      ([] ++ [msg_InboundMessage a_put; msg_InboundMessage an_app_gossip]
                          ++ made)
          /\ Forall (made_by_dispatchChans node1) made
          /\ map announced made = [announced (message_InternalTimeout node1)])
    /\ List.length (completions (since (world s0) (world s))) + 1 = 0 + 2 + 1.
Proof.
  intros s0.
  assert (Hrun : exists s,
             steps getIDs_32 ToID_32 IsUnique_Z s0 s
             /\ pushed (since (world s0) (world s))
                = [msg_InboundMessage a_put; msg_InboundMessage an_app_gossip]
             /\ held_messages (h (world s)) = [msg_InboundMessage an_app_gossip]
             /\ chan_announcements (since (world s0) (world s))
                = [announced (message_InternalTimeout node1)]
             /\ List.length (filter is_push (since (world s0) (world s))) = 2
             /\ List.length (filter is_chan_message (since (world s0) (world s))) = 1
             /\ held (h (world s)) = 1).
  { eexists. split.
    - eapply steps_step;
        [eapply steps_step;
         [eapply steps_step;
          [eapply steps_step;
           [eapply steps_step; [apply steps_refl |] |] |] |] |].
      + apply (step_Push _ _ _ _ a_put). cbv. reflexivity.
      + apply (step_Push _ _ _ _ an_app_gossip). cbv. reflexivity.
      + apply step_RegisterTimeout. cbv. reflexivity.
      + eapply step_dispatchSync; [reflexivity | cbv; reflexivity].
      + eapply (step_dispatchChans _ _ _ _ recv_timeouts);
          [reflexivity | reflexivity | cbv; reflexivity].
    - repeat split; reflexivity. }
  destruct Hrun as (s & Hsteps & Hpushed & Hheld' & Hann & Hpush & Hchan & Hheld).
  exists s. split; [exact Hsteps |]. split; [exact Hpushed |].
  split; [reflexivity |]. split; [exact Hheld' |]. split; [exact Hann |].
  pose proof (messages_are_completed_once getIDs_32 ToID_32 IsUnique_Z s0 s Hsteps)
    as [H Hcount].
  cbv zeta in H, Hcount.
  rewrite Hpushed, Hheld', Hann in H.
  rewrite Hpush, Hchan, Hheld in Hcount.
  split; [exact H | exact Hcount].
Defined.

(** The local network of the scenario, initialized at time 0: the two
    custom validators are the default validators and a third node is not,
    and a second initialization, for Songbird and after the expiration
    time, changes nothing. *)
Lemma default_validators_fixed_by_first_initialize_witness :
  let I := local_network in
  let p' := snd (@InitializeDefaultValidators I 12345%Z 0%Z Package_init) in
  initialized (defaultValidators Package_init) = false
  /\ @InitializeDefaultValidators I 12345%Z 0%Z Package_init = (Returns tt, p')
  /\ IsDefaultValidator [Byte.x41] p' = Returns true
  /\ IsDefaultValidator [Byte.x42] p' = Returns true
  /\ IsDefaultValidator [Byte.x43] p' = Returns false
  /\ @InitializeDefaultValidators I 5%Z the_first_of_2030 p' = (Returns tt, p')
  /\ DefaultValidatorList Package_init = Panics errNotInitialized.
Proof.
  intros I p'.
  assert (Hi : initialized (defaultValidators Package_init) = false) by reflexivity.
  assert (E : @InitializeDefaultValidators I 12345%Z 0%Z Package_init = (Returns tt, p'))
    by (vm_compute; reflexivity).
  assert (Ha : IsDefaultValidator [Byte.x41] p' = Returns true)
    by (vm_compute; reflexivity).
  assert (Hb : IsDefaultValidator [Byte.x42] p' = Returns true)
    by (vm_compute; reflexivity).
  assert (Hc : IsDefaultValidator [Byte.x43] p' = Returns false)
    by (vm_compute; reflexivity).
  destruct (@default_validators_fixed_by_first_initialize I 12345%Z 0%Z
              Package_init p' Hi E) as (_ & Hagain & _ & Hbefore & _).
  split; [exact Hi |]. split; [exact E |]. split; [exact Ha |].
  split; [exact Hb |]. split; [exact Hc |].
  split; [exact (Hagain 5%Z the_first_of_2030) | exact Hbefore].
Defined.

